(** * Error-state extended Kalman filter of [es_ekf.py]

    A shallow embedding of the filter core of [src/es_ekf.py] (constants,
    [measurement_update] and the main filter loop) and the proofs of the
    properties its specification states.

    Numbers: the program computes on IEEE doubles through numpy.  The
    embedding takes them as real numbers ([R]): rounding, overflow and NaN are
    outside the model.  Arrays are lists in row-major order, as numpy stores
    them; an index that numpy would refuse raises [IndexError].  A shape
    that numpy would refuse ([ValueError]) is not modelled.
    [np.linalg.inv] is taken over the real numbers: it raises [LinAlgError]
    exactly when the determinant is zero.

    The module [rotations] ([Quaternion], [skew_symmetric]) is imported by the
    program but is not part of the sources at hand: it enters as the interface
    [Rotations], and the properties that depend on what it computes assume the
    laws they need explicitly. *)

From Stdlib Require Import Reals Lra Lia Psatz List Arith Bool.
Import ListNotations.

Open Scope R_scope.

(** ** Exceptions *)

Inductive exn : Type :=
| IndexError
| LinAlgError.

Inductive result (A : Type) : Type :=
| Ok (a : A)
| Raise (e : exn).

Arguments Ok {A} a.
Arguments Raise {A} e.

Definition bind {A B : Type} (c : result A) (k : A -> result B) : result B :=
  match c with
  | Ok a => k a
  | Raise e => Raise e
  end.

Notation "x <- c ;; k" := (bind c (fun x => k))
  (at level 61, c at next level, right associativity).
Notation "' pat <- c ;; k" := (bind c (fun x => match x with pat => k end))
  (at level 61, pat pattern, c at next level, right associativity).

(** ** The fragment of numpy the filter uses

    The arrays of the program have the shapes of their allocations.  On
    arrays of other shapes, where numpy would broadcast or raise, the
    elementwise operations below stop at the shorter operand and a slice
    assignment reads zeros; the properties state the shapes they rely on. *)

Module np.

Definition vec : Type := list R.
Definition matrix : Type := list (list R).

Fixpoint zip_with {A B C : Type} (f : A -> B -> C) (a : list A) (b : list B)
  : list C :=
  match a, b with
  | x :: a', y :: b' => f x y :: zip_with f a' b'
  | _, _ => []
  end.

(** [a[i]] and [a[i] = x] on the first axis. *)
Definition getitem {A : Type} (a : list A) (i : nat) : result A :=
  match nth_error a i with
  | Some x => Ok x
  | None => Raise IndexError
  end.

Fixpoint update {A : Type} (i : nat) (x : A) (a : list A) : list A :=
  match a, i with
  | [], _ => []
  | _ :: a', O => x :: a'
  | y :: a', S i' => y :: update i' x a'
  end.

Definition setitem {A : Type} (a : list A) (i : nat) (x : A)
  : result (list A) :=
  if (i <? length a)%nat then Ok (update i x a) else Raise IndexError.

(** [np.zeros([r, c])], [np.eye(n)] / [np.identity(n)]. *)
Definition zeros (r c : nat) : matrix := repeat (repeat 0 c) r.

Definition eye (n : nat) : matrix :=
  map (fun i => map (fun j => if (i =? j)%nat then 1 else 0) (seq 0 n))
      (seq 0 n).

(** Elementwise arithmetic on one axis: [a + b], [a - b], [s * a], [a * s]. *)
Definition add (a b : vec) : vec := zip_with Rplus a b.
Definition sub (a b : vec) : vec := zip_with Rminus a b.
Definition smul (s : R) (a : vec) : vec := map (fun x => s * x) a.
Definition muls (a : vec) (s : R) : vec := map (fun x => x * s) a.

(** The same on two axes, with [-A] and the elementwise product [A * B]. *)
Definition madd (A B : matrix) : matrix := zip_with add A B.
Definition msub (A B : matrix) : matrix := zip_with sub A B.
Definition msmul (s : R) (A : matrix) : matrix := map (smul s) A.
Definition mmuls (A : matrix) (s : R) : matrix := map (fun r => muls r s) A.
Definition mneg (A : matrix) : matrix := map (map Ropp) A.
Definition mmul (A B : matrix) : matrix := zip_with (zip_with Rmult) A B.

(** [A.T] *)
Definition ncols (A : matrix) : nat := length (hd [] A).

Definition T (A : matrix) : matrix :=
  map (fun j => map (fun row => nth j row 0) A) (seq 0 (ncols A)).

(** [a.dot(b)]: inner product, matrix-vector and matrix-matrix product. *)
Definition inner (a b : vec) : R := fold_right Rplus 0 (zip_with Rmult a b).

Definition dotv (A : matrix) (x : vec) : vec :=
  map (fun row => inner row x) A.

Definition dot (A B : matrix) : matrix :=
  map (fun row => map (fun col => inner row col) (T B)) A.

(** Slices [a[lo:hi]] and [A[r0:r1, c0:c1]]. *)
Definition slice {A : Type} (lo hi : nat) (a : list A) : list A :=
  firstn (hi - lo) (skipn lo a).

Definition block (r0 r1 c0 c1 : nat) (A : matrix) : matrix :=
  map (slice c0 c1) (slice r0 r1 A).

Definition mapi {A B : Type} (f : nat -> A -> B) (a : list A) : list B :=
  map (fun ix => f (fst ix) (snd ix)) (combine (seq 0 (length a)) a).

Definition inside (lo hi i : nat) : bool := ((lo <=? i) && (i <? hi))%nat.

(** [A[r0:r1, c0:c1] = B] *)
Definition set_block (r0 r1 c0 c1 : nat) (B A : matrix) : matrix :=
  mapi (fun i row =>
          if inside r0 r1 i
          then mapi (fun j a =>
                       if inside c0 c1 j
                       then nth (j - c0) (nth (i - r0) B []) 0
                       else a) row
          else row) A.

(** [np.linalg.inv], on the 3 x 3 matrices the filter inverts: the adjugate
    over the determinant, and [LinAlgError] for a singular matrix. *)
Definition det3 (A : matrix) : R :=
  match A with
  | [[a; b; c]; [d; e; f]; [g; h; i]] =>
      a * (e * i - f * h) - b * (d * i - f * g) + c * (d * h - e * g)
  | _ => 0
  end.

Definition adj3 (A : matrix) : matrix :=
  match A with
  | [[a; b; c]; [d; e; f]; [g; h; i]] =>
      [[e * i - f * h; c * h - b * i; b * f - c * e];
       [f * g - d * i; a * i - c * g; c * d - a * f];
       [d * h - e * g; b * g - a * h; a * e - b * d]]
  | _ => []
  end.

Definition inv (A : matrix) : result matrix :=
  match A with
  | [[_; _; _]; [_; _; _]; [_; _; _]] =>
      if Req_dec_T (det3 A) 0 then Raise LinAlgError
      else Ok (mmuls (adj3 A) (/ det3 A))
  | _ => Raise LinAlgError
  end.

(** [np.linalg.norm] of a vector. *)
Definition sumsq (a : vec) : R := inner a a.
Definition norm (a : vec) : R := sqrt (sumsq a).

Definition shape (r c : nat) (A : matrix) : Prop :=
  length A = r /\ Forall (fun row => length row = c) A.

End np.

Import np.

(** ** Input data and the rotation interface *)

(** A [StampedData] object: the samples and their timestamps. *)
Record StampedData : Type := {
  data : list vec;
  t : list R
}.

(** The fields of the ground truth [gt] that seed the filter. *)
Record GroundTruth : Type := {
  gt_p : list vec;
  gt_v : list vec;
  gt_r : list vec
}.

(** What the program uses of [rotations]: the constructors
    [Quaternion(w, x, y, z)] (called on an unpacked array),
    [Quaternion(axis_angle=a)] and [Quaternion(euler=a)], the methods
    [to_numpy], [to_mat], [quat_mult_left] and [quat_mult_right] (which return
    arrays), and [skew_symmetric]. *)
Record Rotations : Type := {
  Quaternion : Type;
  Quaternion_wxyz : vec -> Quaternion;
  Quaternion_axis_angle : vec -> Quaternion;
  Quaternion_euler : vec -> Quaternion;
  to_numpy : Quaternion -> vec;
  to_mat : Quaternion -> matrix;
  quat_mult_left : Quaternion -> vec -> vec;
  quat_mult_right : Quaternion -> vec -> vec;
  skew_symmetric : vec -> matrix
}.

(** ** Constants (sections 2 of the program) *)

Definition var_imu_f : R := 0.01.
Definition var_imu_w : R := 0.01.
Definition var_gnss : R := 10.
Definition var_lidar : R := 1.

Definition g : vec := [0; 0; -9.81].

(** [l_jac = np.zeros([9, 6]); l_jac[3:, :] = np.eye(6)] *)
Definition l_jac : matrix := set_block 3 9 0 6 (eye 6) (zeros 9 6).

(** [h_jac = np.zeros([3, 9]); h_jac[:, :3] = np.eye(3)] *)
Definition h_jac : matrix := set_block 0 3 0 3 (eye 3) (zeros 3 9).

(** ** The estimator state: the arrays the loop fills and the two cursors *)

Record state : Type := {
  p_est : list vec;
  v_est : list vec;
  q_est : list vec;
  p_cov : list matrix;
  gnss_i : nat;
  lidar_i : nat
}.

(** Equality of arrays, entry by entry. *)
Ltac array_eq :=
  repeat match goal with
         | |- _ :: _ = _ :: _ => apply (f_equal2 (@cons _))
         | |- [] = [] => reflexivity
         | |- Ok _ = Ok _ => apply (f_equal Ok)
         end.

(** Arrays of the sizes the loop allocates: [n] entries each. *)
Definition sized (n : nat) (s : state) : Prop :=
  length (p_est s) = n /\ length (v_est s) = n /\
  length (q_est s) = n /\ length (p_cov s) = n.

(** The orientations stored up to index [m] have unit norm. *)
Definition oriented (m : nat) (s : state) : Prop :=
  forall k q, (k <= m)%nat -> getitem (q_est s) k = Ok q -> norm q = 1.

(** Timestamps that increase strictly along the array. *)
Definition increasing (ts : list R) : Prop :=
  forall i j t_i t_j,
    (i < j)%nat -> getitem ts i = Ok t_i -> getitem ts j = Ok t_j -> t_i < t_j.

Section Filter.

Variable rot : Rotations.

(** *** Measurement update *)

(** Line 153-154: the Kalman gain. *)
Definition innovation_cov (sensor_var : R) (p_cov_check : matrix) : matrix :=
  let r_cov := mmuls (eye 3) sensor_var in
  madd (dot (dot h_jac p_cov_check) (T h_jac)) r_cov.

Definition kalman_gain (sensor_var : R) (p_cov_check : matrix)
  : result matrix :=
  s_inv <- inv (innovation_cov sensor_var p_cov_check) ;;
  Ok (dot (dot p_cov_check (T h_jac)) s_inv).

Definition measurement_update (sensor_var : R) (p_cov_check : matrix)
    (y_k p_check v_check q_check : vec)
  : result (vec * vec * vec * matrix) :=
  k_gain <- kalman_gain sensor_var p_cov_check ;;
  let x_error := dotv k_gain (sub y_k p_check) in
  let p_hat := add p_check (slice 0 3 x_error) in
  let v_hat := add v_check (slice 3 6 x_error) in
  let q_hat :=
    quat_mult_left rot (Quaternion_euler rot (slice 6 9 x_error)) q_check in
  let p_cov_hat := dot (msub (eye 9) (dot k_gain h_jac)) p_cov_check in
  Ok (p_hat, v_hat, q_hat, p_cov_hat).

(** *** One iteration of the main loop *)

(** Lines 175-182: the nominal state at [k] from the one at [k-1]. *)
Definition nominal_update (delta_t : R) (p_km v_km q_km f_km w_km : vec)
  : vec * vec * vec :=
  let C_ns := to_mat rot (Quaternion_wxyz rot q_km) in
  let C_ns_d_f_km := dotv C_ns f_km in
  let p_k :=
    add (add p_km (smul delta_t v_km))
        (smul (delta_t ^ 2 / 2) (add C_ns_d_f_km g)) in
  let v_k := add v_km (smul delta_t (add C_ns_d_f_km g)) in
  let q_fr_w := Quaternion_axis_angle rot (muls w_km delta_t) in
  let q_k := quat_mult_right rot q_fr_w q_km in
  (p_k, v_k, q_k).

(** Lines 185-187: the motion model Jacobian. *)
Definition f_ja_km (delta_t : R) (C_ns_d_f_km : vec) : matrix :=
  let f_ja_km := eye 9 in
  let f_ja_km := set_block 0 3 3 6 (mmuls (eye 3) delta_t) f_ja_km in
  set_block 3 6 6 9
    (mmuls (mneg (skew_symmetric rot C_ns_d_f_km)) delta_t) f_ja_km.

(** Lines 190-192: the process noise, by the two in-place products. *)
Definition q_cov_km (delta_t : R) : matrix :=
  let q_cov_km := eye 6 in
  let q_cov_km :=
    set_block 0 3 0 3
      (mmul (block 0 3 0 3 q_cov_km)
            (mmuls (msmul (delta_t ^ 2) (eye 3)) var_imu_f)) q_cov_km in
  set_block 3 6 3 6
    (mmul (block 3 6 3 6 q_cov_km)
          (mmuls (msmul (delta_t ^ 2) (eye 3)) var_imu_w)) q_cov_km.

(** Line 193. *)
Definition covariance_update (delta_t : R) (C_ns_d_f_km : vec)
    (p_cov_km : matrix) : matrix :=
  let f_ja_km := f_ja_km delta_t C_ns_d_f_km in
  let q_cov_km := q_cov_km delta_t in
  madd (dot (dot f_ja_km p_cov_km) (T f_ja_km))
       (dot (dot l_jac q_cov_km) (T l_jac)).

Variables imu_f imu_w gnss lidar : StampedData.

(** Lines 172-193.  The reads come first; each of them can only fail with
    the same [IndexError]. *)
Definition predict (k : nat) (s : state) : result state :=
  t_k <- getitem (t imu_f) k ;;
  t_km <- getitem (t imu_f) (k - 1) ;;
  let delta_t := t_k - t_km in
  q_km <- getitem (q_est s) (k - 1) ;;
  f_km <- getitem (data imu_f) (k - 1) ;;
  p_km <- getitem (p_est s) (k - 1) ;;
  v_km <- getitem (v_est s) (k - 1) ;;
  w_km <- getitem (data imu_w) (k - 1) ;;
  let '(p_k, v_k, q_k) := nominal_update delta_t p_km v_km q_km f_km w_km in
  p_est' <- setitem (p_est s) k p_k ;;
  v_est' <- setitem (v_est s) k v_k ;;
  q_est' <- setitem (q_est s) k q_k ;;
  let C_ns_d_f_km := dotv (to_mat rot (Quaternion_wxyz rot q_km)) f_km in
  p_cov_km <- getitem (p_cov s) (k - 1) ;;
  p_cov' <-
    setitem (p_cov s) k (covariance_update delta_t C_ns_d_f_km p_cov_km) ;;
  Ok {| p_est := p_est'; v_est := v_est'; q_est := q_est'; p_cov := p_cov';
        gnss_i := gnss_i s; lidar_i := lidar_i s |}.

(** The entries the prediction at [k] reads. *)
Record reads (k : nat) (s : state)
    (t_k t_km : R) (p_km v_km q_km f_km w_km : vec) (p_cov_km : matrix)
  : Prop := {
  reads_t : getitem (t imu_f) k = Ok t_k;
  reads_t_km : getitem (t imu_f) (k - 1) = Ok t_km;
  reads_p : getitem (p_est s) (k - 1) = Ok p_km;
  reads_v : getitem (v_est s) (k - 1) = Ok v_km;
  reads_q : getitem (q_est s) (k - 1) = Ok q_km;
  reads_f : getitem (data imu_f) (k - 1) = Ok f_km;
  reads_w : getitem (data imu_w) (k - 1) = Ok w_km;
  reads_cov : getitem (p_cov s) (k - 1) = Ok p_cov_km
}.

(** The state the prediction at [k] leaves. *)
Definition predicted (k : nat) (s : state)
    (t_k t_km : R) (p_km v_km q_km f_km w_km : vec) (p_cov_km : matrix)
  : state :=
  let delta_t := t_k - t_km in
  let nom := nominal_update delta_t p_km v_km q_km f_km w_km in
  let C_ns_d_f_km := dotv (to_mat rot (Quaternion_wxyz rot q_km)) f_km in
  {| p_est := update k (fst (fst nom)) (p_est s);
     v_est := update k (snd (fst nom)) (v_est s);
     q_est := update k (snd nom) (q_est s);
     p_cov := update k (covariance_update delta_t C_ns_d_f_km p_cov_km)
                (p_cov s);
     gnss_i := gnss_i s;
     lidar_i := lidar_i s |}.

(** Lines 196-197 and 201-202: the call of [measurement_update] on the
    entries at [k], stored back at [k]. *)
Definition correct (sensor_var : R) (y_k : vec) (k : nat) (s : state)
  : result state :=
  p_cov_check <- getitem (p_cov s) k ;;
  p_check <- getitem (p_est s) k ;;
  v_check <- getitem (v_est s) k ;;
  q_check <- getitem (q_est s) k ;;
  '(p_hat, v_hat, q_hat, p_cov_hat) <-
    measurement_update sensor_var p_cov_check y_k p_check v_check q_check ;;
  p_est' <- setitem (p_est s) k p_hat ;;
  v_est' <- setitem (v_est s) k v_hat ;;
  q_est' <- setitem (q_est s) k q_hat ;;
  p_cov' <- setitem (p_cov s) k p_cov_hat ;;
  Ok {| p_est := p_est'; v_est := v_est'; q_est := q_est'; p_cov := p_cov';
        gnss_i := gnss_i s; lidar_i := lidar_i s |}.

Definition advance_gnss (s : state) : state :=
  {| p_est := p_est s; v_est := v_est s; q_est := q_est s; p_cov := p_cov s;
     gnss_i := gnss_i s + 1; lidar_i := lidar_i s |}.

Definition advance_lidar (s : state) : state :=
  {| p_est := p_est s; v_est := v_est s; q_est := q_est s; p_cov := p_cov s;
     gnss_i := gnss_i s; lidar_i := lidar_i s + 1 |}.

(** Lines 195-198. *)
Definition gnss_check (k : nat) (s : state) : result state :=
  if (gnss_i s <? length (data gnss))%nat then
    t_k <- getitem (t imu_f) k ;;
    t_g <- getitem (t gnss) (gnss_i s) ;;
    if Req_dec_T t_k t_g then
      y_k <- getitem (data gnss) (gnss_i s) ;;
      s' <- correct var_gnss y_k k s ;;
      Ok (advance_gnss s')
    else Ok s
  else Ok s.

(** Lines 200-203. *)
Definition lidar_check (k : nat) (s : state) : result state :=
  if (lidar_i s <? length (t lidar))%nat then
    t_l <- getitem (t lidar) (lidar_i s) ;;
    t_km <- getitem (t imu_f) (k - 1) ;;
    if Req_dec_T t_l t_km then
      y_k <- getitem (data lidar) (lidar_i s) ;;
      s' <- correct var_lidar y_k k s ;;
      Ok (advance_lidar s')
    else Ok s
  else Ok s.

(** The scheduler's rule for the GNSS sample at the cursor, as a relation
    between the state after the prediction and the state after the rule:
    the correction runs and the cursor advances when the cursor has
    unconsumed samples and the timestamps are equal; nothing changes
    otherwise. *)
Inductive gnss_phase (k : nat) (s : state) : state -> Prop :=
| gnss_applied t_k y_k s' :
    (gnss_i s < length (data gnss))%nat ->
    getitem (t imu_f) k = Ok t_k ->
    getitem (t gnss) (gnss_i s) = Ok t_k ->
    getitem (data gnss) (gnss_i s) = Ok y_k ->
    correct var_gnss y_k k s = Ok s' ->
    gnss_phase k s (advance_gnss s')
| gnss_exhausted :
    (length (data gnss) <= gnss_i s)%nat ->
    gnss_phase k s s
| gnss_not_yet t_k t_g :
    (gnss_i s < length (data gnss))%nat ->
    getitem (t imu_f) k = Ok t_k ->
    getitem (t gnss) (gnss_i s) = Ok t_g ->
    t_k <> t_g ->
    gnss_phase k s s.

(** The same for the LIDAR sample at the cursor, against the inertial
    timestamp of the previous index. *)
Inductive lidar_phase (k : nat) (s : state) : state -> Prop :=
| lidar_applied t_l y_k s' :
    (lidar_i s < length (t lidar))%nat ->
    getitem (t lidar) (lidar_i s) = Ok t_l ->
    getitem (t imu_f) (k - 1) = Ok t_l ->
    getitem (data lidar) (lidar_i s) = Ok y_k ->
    correct var_lidar y_k k s = Ok s' ->
    lidar_phase k s (advance_lidar s')
| lidar_exhausted :
    (length (t lidar) <= lidar_i s)%nat ->
    lidar_phase k s s
| lidar_not_yet t_l t_km :
    (lidar_i s < length (t lidar))%nat ->
    getitem (t lidar) (lidar_i s) = Ok t_l ->
    getitem (t imu_f) (k - 1) = Ok t_km ->
    t_l <> t_km ->
    lidar_phase k s s.

Definition step (k : nat) (s : state) : result state :=
  s1 <- predict k s ;;
  s2 <- gnss_check k s1 ;;
  lidar_check k s2.

(** [for k in ks] *)
Fixpoint loop (ks : list nat) (s : state) : result state :=
  match ks with
  | [] => Ok s
  | k :: ks' => s' <- step k s ;; loop ks' s'
  end.

(** *** Initial values (lines 132-143) and the whole run

    The arrays are allocated with one entry per inertial sample;
    [p_cov[0] = np.zeros(9)] broadcasts the zero vector over the 9 x 9 entry.
    [lidar] holds the samples after the calibration transform of lines
    66-82. *)

Variable gt : GroundTruth.

Definition n_imu : nat := length (data imu_f).

Definition init : result state :=
  let p_est0 := repeat (repeat 0 3%nat) n_imu in
  let v_est0 := repeat (repeat 0 3%nat) n_imu in
  let q_est0 := repeat (repeat 0 4%nat) n_imu in
  let p_cov0 := repeat (zeros 9 9) n_imu in
  p0 <- getitem (gt_p gt) 0 ;;
  p_est' <- setitem p_est0 0 p0 ;;
  v0 <- getitem (gt_v gt) 0 ;;
  v_est' <- setitem v_est0 0 v0 ;;
  r0 <- getitem (gt_r gt) 0 ;;
  q_est' <- setitem q_est0 0 (to_numpy rot (Quaternion_euler rot r0)) ;;
  p_cov' <- setitem p_cov0 0 (zeros 9 9) ;;
  Ok {| p_est := p_est'; v_est := v_est'; q_est := q_est'; p_cov := p_cov';
        gnss_i := 0; lidar_i := 0 |}.

(** [for k in range(1, imu_f.data.shape[0])] *)
Definition es_ekf : result state :=
  s0 <- init ;;
  loop (seq 1 (n_imu - 1)) s0.

End Filter.

(** ** Covariances: symmetry, positive semi-definiteness, position trace *)

Definition symmetric (P : matrix) : Prop := T P = P.

(** The quadratic form [x^T P x]. *)
Definition quad (P : matrix) (x : vec) : R := inner x (dotv P x).

Definition psd (n : nat) (P : matrix) : Prop :=
  forall x, length x = n -> 0 <= quad P x.

(** The trace of the position block (rows and columns 0-2). *)
Definition trace_pos (P : matrix) : R :=
  nth 0 (nth 0 P []) 0 + nth 1 (nth 1 P []) 0 + nth 2 (nth 2 P []) 0.

(** The symmetric 3 x 3 matrix [A] with rows (a, b, c), (b, d, e), (c, e, f)
    and [S = A + s I]: their quadratic forms, the cofactors and the
    determinant of [S], and the product of the adjugate of [S] with a
    vector. *)
Module Sym3.
Section Entries.
Variables a b c d e f s : R.

Definition qA (x y z : R) : R :=
  a * x * x + d * y * y + f * z * z
  + 2 * b * x * y + 2 * c * x * z + 2 * e * y * z.

Definition qS (x y z : R) : R := qA x y z + s * (x * x + y * y + z * z).

Definition C11 : R := (d + s) * (f + s) - e * e.
Definition C12 : R := c * e - b * (f + s).
Definition C13 : R := b * e - c * (d + s).
Definition C22 : R := (a + s) * (f + s) - c * c.
Definition C23 : R := b * c - (a + s) * e.
Definition C33 : R := (a + s) * (d + s) - b * b.

Definition detS : R := (a + s) * C11 + b * C12 + c * C13.

Definition adjq (x y z : R) : R :=
  C11 * x * x + C22 * y * y + C33 * z * z
  + 2 * C12 * x * y + 2 * C13 * x * z + 2 * C23 * y * z.

Definition w1 (x y z : R) : R := C11 * x + C12 * y + C13 * z.
Definition w2 (x y z : R) : R := C12 * x + C22 * y + C23 * z.
Definition w3 (x y z : R) : R := C13 * x + C23 * y + C33 * z.
End Entries.
End Sym3.

(** ** A rotation algebra *)

Module StdRotations.

(** Modelled from the spec: the unit-quaternion representation of the
    Rotation Algebra capability, whose module [rotations] is missing from
    the sources; the scalar part comes first, as in [Quaternion(w, x, y, z)]. *)
Record quat : Type := Quat { qw : R; qx : R; qy : R; qz : R }.

(** Modelled from the spec: the missing constructor of a quaternion from
    the unpacked array of its components, with the identity rotation for the
    components left out. *)
Definition wxyz (a : vec) : quat :=
  Quat (nth 0 a 1) (nth 1 a 0) (nth 2 a 0) (nth 3 a 0).

(** Modelled from the spec: the missing conversion of a quaternion to an
    array of its four components. *)
Definition to_array (q : quat) : vec := [qw q; qx q; qy q; qz q].

(** Modelled from the spec: construct-quaternion-from-axis-angle(vector),
    missing from the sources: the rotation by the angle [norm a] about the
    axis [a / norm a], and the identity rotation for the zero vector (and
    for an array that is not a 3-vector). *)
Definition axis_angle (a : vec) : quat :=
  match a with
  | [x; y; z] =>
      let n := norm a in
      if Req_dec_T n 0 then Quat 1 0 0 0
      else Quat (cos (n / 2))
                (x / n * sin (n / 2))
                (y / n * sin (n / 2))
                (z / n * sin (n / 2))
  | _ => Quat 1 0 0 0
  end.

(** Modelled from the spec: construct-quaternion-from-Euler(roll, pitch,
    yaw), missing from the sources. *)
Definition euler (a : vec) : quat :=
  let roll := nth 0 a 0 in
  let pitch := nth 1 a 0 in
  let yaw := nth 2 a 0 in
  let cr := cos (roll / 2) in let sr := sin (roll / 2) in
  let cp := cos (pitch / 2) in let sp := sin (pitch / 2) in
  let cy := cos (yaw / 2) in let sy := sin (yaw / 2) in
  Quat (cr * cp * cy + sr * sp * sy)
       (sr * cp * cy - cr * sp * sy)
       (cr * sp * cy + sr * cp * sy)
       (cr * cp * sy - sr * sp * cy).

(** Modelled from the spec: quaternion composition (the Hamilton product),
    missing from the sources. *)
Definition compose (a b : quat) : quat :=
  Quat (qw a * qw b - qx a * qx b - qy a * qy b - qz a * qz b)
       (qw a * qx b + qx a * qw b + qy a * qz b - qz a * qy b)
       (qw a * qy b - qx a * qz b + qy a * qw b + qz a * qx b)
       (qw a * qz b + qx a * qy b - qy a * qx b + qz a * qw b).

(** Modelled from the spec: left-multiply(q_a, q_b), missing from the
    sources: [a] composed on the left of the quaternion in the array [q]. *)
Definition mult_left (a : quat) (q : vec) : vec :=
  match q with
  | [_; _; _; _] => to_array (compose a (wxyz q))
  | _ => q
  end.

(** Modelled from the spec: right-multiply(q_a, q_b), missing from the
    sources: [a] composed on the right of the quaternion in the array [q]. *)
Definition mult_right (a : quat) (q : vec) : vec :=
  match q with
  | [_; _; _; _] => to_array (compose (wxyz q) a)
  | _ => q
  end.

(** Modelled from the spec: quaternion-to-rotation-matrix(), missing from
    the sources. *)
Definition mat (q : quat) : matrix :=
  let w := qw q in let x := qx q in let y := qy q in let z := qz q in
  [[w * w + x * x - y * y - z * z; 2 * (x * y - w * z); 2 * (x * z + w * y)];
   [2 * (x * y + w * z); w * w - x * x + y * y - z * z; 2 * (y * z - w * x)];
   [2 * (x * z - w * y); 2 * (y * z + w * x); w * w - x * x - y * y + z * z]].

(** Modelled from the spec: skew-symmetric(vector3) -> 3 x 3, missing from
    the sources. *)
Definition skew (a : vec) : matrix :=
  let x := nth 0 a 0 in let y := nth 1 a 0 in let z := nth 2 a 0 in
  [[0; - z; y];
   [z; 0; - x];
   [- y; x; 0]].

(** Modelled from the spec: the Rotation Algebra capability as a whole, the
    instance of the interface built from the definitions above. *)
Definition rotations : Rotations :=
  {| Quaternion := quat;
     Quaternion_wxyz := wxyz;
     Quaternion_axis_angle := axis_angle;
     Quaternion_euler := euler;
     to_numpy := to_array;
     to_mat := mat;
     quat_mult_left := mult_left;
     quat_mult_right := mult_right;
     skew_symmetric := skew |}.

End StdRotations.

(** ** A two-sample run

    The single inertial step of the specification's scenario: identity
    orientation, the body at rest, the specific force cancelling gravity, no
    rotation, and 0.1 s between the two samples. *)

Module Scenario.

Definition imu_f : StampedData :=
  {| data := [[0; 0; 9.81]; [0; 0; 9.81]]; t := [0; 0.1] |}.

Definition imu_w : StampedData :=
  {| data := [[0; 0; 0]; [0; 0; 0]]; t := [0; 0.1] |}.

Definition s0 : state :=
  {| p_est := [[0; 0; 0]; [0; 0; 0]];
     v_est := [[0; 0; 0]; [0; 0; 0]];
     q_est := [[1; 0; 0; 0]; [0; 0; 0; 0]];
     p_cov := [zeros 9 9; zeros 9 9];
     gnss_i := 0;
     lidar_i := 0 |}.

(** The covariance the first prediction leaves: the process noise
    [0.1^2 * 0.01] on the velocity and rotation diagonal, nothing on the
    position block. *)
Definition p_cov1 : matrix :=
  [[0; 0; 0; 0; 0; 0; 0; 0; 0];
   [0; 0; 0; 0; 0; 0; 0; 0; 0];
   [0; 0; 0; 0; 0; 0; 0; 0; 0];
   [0; 0; 0; 0.0001; 0; 0; 0; 0; 0];
   [0; 0; 0; 0; 0.0001; 0; 0; 0; 0];
   [0; 0; 0; 0; 0; 0.0001; 0; 0; 0];
   [0; 0; 0; 0; 0; 0; 0.0001; 0; 0];
   [0; 0; 0; 0; 0; 0; 0; 0.0001; 0];
   [0; 0; 0; 0; 0; 0; 0; 0; 0.0001]].

End Scenario.

(** ** Runs with samples at the boundaries, and with time running backwards *)

Module Boundary.

(** No samples at all. *)
Definition no_samples : StampedData := {| data := []; t := [] |}.

(** A GNSS sample stamped with the first inertial timestamp of [Scenario],
    a LIDAR sample stamped with the last one. *)
Definition gnss : StampedData := {| data := [[1; 0; 0]]; t := [0] |}.
Definition lidar : StampedData := {| data := [[1; 0; 0]]; t := [0.1] |}.

Definition gt : GroundTruth :=
  {| gt_p := [[0; 0; 0]]; gt_v := [[0; 0; 0]]; gt_r := [[0; 0; 0]] |}.

End Boundary.

Module Backwards.

(** Two inertial samples whose timestamps decrease: elapsed time -1. *)
Definition imu_f : StampedData :=
  {| data := [[0; 0; 9.81]; [0; 0; 9.81]]; t := [1; 0] |}.

Definition imu_w : StampedData :=
  {| data := [[0; 0; 0]; [0; 0; 0]]; t := [1; 0] |}.

(** At rest at the origin but for the velocity 1 along the first axis. *)
Definition gt : GroundTruth :=
  {| gt_p := [[0; 0; 0]]; gt_v := [[1; 0; 0]]; gt_r := [[0; 0; 0]] |}.

End Backwards.


(** ** A step that turns, and a covariance that couples position and rotation *)

Module Turning.

(** One inertial step of one second from the orientation of a half turn
    about the first axis, at the angular rate of a half turn per second about
    the third axis; the rotated specific force cancels gravity. *)
Definition imu_f : StampedData :=
  {| data := [[0; 0; -9.81]; [0; 0; -9.81]]; t := [0; 1] |}.

Definition imu_w : StampedData :=
  {| data := [[0; 0; PI]; [0; 0; PI]]; t := [0; 1] |}.

Definition s0 : state :=
  {| p_est := [[0; 0; 0]; [0; 0; 0]];
     v_est := [[0; 0; 0]; [0; 0; 0]];
     q_est := [[0; 1; 0; 0]; [0; 0; 0; 0]];
     p_cov := [zeros 9 9; zeros 9 9];
     gnss_i := 0;
     lidar_i := 0 |}.

End Turning.

Module Coupled.

(** The identity covariance with each position error fully correlated with
    the rotation error about the same axis: symmetric and positive
    semi-definite. *)
Definition P : matrix :=
  [[1; 0; 0; 0; 0; 0; 1; 0; 0];
   [0; 1; 0; 0; 0; 0; 0; 1; 0];
   [0; 0; 1; 0; 0; 0; 0; 0; 1];
   [0; 0; 0; 1; 0; 0; 0; 0; 0];
   [0; 0; 0; 0; 1; 0; 0; 0; 0];
   [0; 0; 0; 0; 0; 1; 0; 0; 0];
   [1; 0; 0; 0; 0; 0; 1; 0; 0];
   [0; 1; 0; 0; 0; 0; 0; 1; 0];
   [0; 0; 1; 0; 0; 0; 0; 0; 1]].

(** An observation at [2 pi] along the first two axes. *)
Definition y : vec := [2 * PI; 2 * PI; 0].

End Coupled.

(** ** LIDAR calibration (lines 66-82) *)

(** The extrinsic calibration: rotation matrix and translation. *)
Definition C_li : matrix :=
  [[0.99376; -0.09722; 0.05466];
   [0.09971; 0.99401; -0.04475];
   [-0.04998; 0.04992; 0.9975]].

Definition t_i_li : vec := [0.5; 0.1; 0.5].

(** Line 82: [lidar.data = (C_li @ lidar.data.T).T + t_i_li], the translation
    broadcast over the rows. *)
Definition calibrate (lidar : StampedData) : StampedData :=
  {| data := map (fun row => add row t_i_li)
                 (T (dot C_li (T (data lidar))));
     t := t lidar |}.

(** ** The states of the run of [Scenario] seeded by [Boundary.gt] *)

Module Run.

(** The initial state. *)
Definition s_init : state :=
  {| p_est := [[0; 0; 0]; [0; 0; 0]];
     v_est := [[0; 0; 0]; [0; 0; 0]];
     q_est := [to_numpy StdRotations.rotations
                 (Quaternion_euler StdRotations.rotations [0; 0; 0]);
               [0; 0; 0; 0]];
     p_cov := [zeros 9 9; zeros 9 9];
     gnss_i := 0;
     lidar_i := 0 |}.

(** The state after the only iteration, when no correction applies. *)
Definition s_final : state :=
  predicted StdRotations.rotations 1 s_init 0.1 0 [0; 0; 0] [0; 0; 0]
    (to_numpy StdRotations.rotations
       (Quaternion_euler StdRotations.rotations [0; 0; 0]))
    [0; 0; 9.81] [0; 0; 0] (zeros 9 9).

End Run.

(** ** Observations met by the first iteration *)

Module Matched.

(** A GNSS sample stamped with the second inertial timestamp of [Scenario]
    and a LIDAR sample stamped with the first one: both are due at index 1. *)
Definition gnss : StampedData := {| data := [[1; 0; 0]]; t := [0.1] |}.
Definition lidar : StampedData := {| data := [[2; 0; 0]]; t := [0] |}.

End Matched.

(** ** Covariance matrices *)

(** A covariance of the error state: 9 x 9, symmetric, positive
    semi-definite. *)
Definition covariance (P : matrix) : Prop :=
  shape 9 9 P /\ symmetric P /\ psd 9 P.

(** ** Uncertainty bounds (lines 273-285) *)

(** [np.diagonal]: the entries [A[i, i]] that exist. *)
Definition diagonal (A : matrix) : vec :=
  concat (mapi (fun i row => firstn 1 (skipn i row)) A).

(** Line 285, for one covariance: the square roots of the diagonal of
    [p_cov[i, :6, :6]]; and for the array of the covariances. *)
Definition p_cov_std_at (P : matrix) : vec :=
  map sqrt (diagonal (map (firstn 6) (firstn 6 P))).

Definition p_cov_std (p_cov : list matrix) : list vec := map p_cov_std_at p_cov.

(** Line 279, for the Jacobian [J] of the Euler angles:
    [np.sqrt(np.diagonal(J @ p_cov[i, 6:, 6:] @ J.T))]. *)
Definition p_cov_euler_std_at (J P : matrix) : vec :=
  map sqrt (diagonal (dot (dot J (map (skipn 6) (skipn 6 P))) (T J))).

(** ** The submission (lines 327-331) *)

From Stdlib Require String.

Set Warnings "-abstract-large-number".

Definition p3_indices : list nat := [6800; 7600; 8400; 9200; 10000]%nat.

Section Submission.

(** ['%.3f ' % x], the formatting of a number, left abstract. *)
Variable fmt : R -> String.string.

(** [for x in xs: body], threading the string built so far. *)
Fixpoint for_each {A : Type} (xs : list A)
    (body : A -> String.string -> result String.string) (s : String.string)
  : result String.string :=
  match xs with
  | [] => Ok s
  | x :: xs' => s' <- body x s ;; for_each xs' body s'
  end.

(** The string [p3_str] that is written to the submission file. *)
Definition p3_str (p_est : list vec) : result String.string :=
  for_each p3_indices
    (fun val s =>
       for_each [0; 1; 2]%nat
         (fun i s =>
            row <- getitem p_est val ;;
            x <- getitem row i ;;
            Ok (String.append s (fmt x))) s)
    String.EmptyString.

End Submission.

(** * Properties *)

(** ** Arrays and exceptions *)

Lemma bind_Ok_inv {A B : Type} (c : result A) (k : A -> result B) (b : B) :
  bind c k = Ok b -> exists a, c = Ok a /\ k a = Ok b.
Proof.
  destruct c as [a | e]; simpl; intros H.
  - exists a; split; [reflexivity | exact H].
  - discriminate H.
Qed.

Lemma length_update {A : Type} (i : nat) (x : A) (a : list A) :
  length (update i x a) = length a.
Proof.
  revert i; induction a as [| y a IH]; intros [| i]; simpl; auto.
Qed.

Lemma getitem_update_same {A : Type} (i : nat) (x : A) (a : list A) :
  (i < length a)%nat -> getitem (update i x a) i = Ok x.
Proof.
  unfold getitem; revert i; induction a as [| y a IH]; intros [| i] Hi;
    simpl in *; try lia; auto.
  apply IH; lia.
Qed.

Lemma getitem_update_other {A : Type} (i j : nat) (x : A) (a : list A) :
  i <> j -> getitem (update i x a) j = getitem a j.
Proof.
  unfold getitem; revert i j; induction a as [| y a IH]; intros [| i] [| j] Hij;
    simpl; try congruence; auto.
Qed.

Lemma setitem_Ok {A : Type} (a : list A) (i : nat) (x : A) :
  (i < length a)%nat -> setitem a i x = Ok (update i x a).
Proof.
  intros Hi; unfold setitem.
  destruct (Nat.ltb_spec i (length a)) as [Hlt | Hge]; [reflexivity | lia].
Qed.

Lemma setitem_Ok_inv {A : Type} (a a' : list A) (i : nat) (x : A) :
  setitem a i x = Ok a' -> (i < length a)%nat /\ a' = update i x a.
Proof.
  unfold setitem; destruct (Nat.ltb_spec i (length a)) as [Hlt | Hge];
    intros H; [injection H as <-; auto | discriminate H].
Qed.

Lemma getitem_Ok_lt {A : Type} (a : list A) (i : nat) (x : A) :
  getitem a i = Ok x -> (i < length a)%nat.
Proof.
  unfold getitem; destruct (nth_error a i) eqn:E; intros H; [| discriminate H].
  apply nth_error_Some; congruence.
Qed.

Lemma getitem_lt_Ok {A : Type} (a : list A) (i : nat) :
  (i < length a)%nat -> exists x, getitem a i = Ok x.
Proof.
  intros Hi; unfold getitem; destruct (nth_error a i) eqn:E; eauto.
  apply nth_error_None in E; lia.
Qed.

(** Inversion of a successful monadic computation, one binding at a time. *)
Ltac inv_bind H :=
  let a := fresh "a" in
  let Ha := fresh "E" in
  apply bind_Ok_inv in H; destruct H as [a [Ha H]].

(** Evaluation of the array operations, leaving the real numbers alone. *)
Ltac np_eval :=
  cbv - [Rplus Rmult Rminus Ropp Rinv Rdiv IZR pow sqrt cos sin Req_dec_T
         Rle Rlt Rge Rgt].

Ltac np_eval_in H :=
  cbv - [Rplus Rmult Rminus Ropp Rinv Rdiv IZR pow sqrt cos sin Req_dec_T
         Rle Rlt Rge Rgt] in H.

(** ** The prediction step *)

Section Prediction.

Variable rot : Rotations.
Variables imu_f imu_w : StampedData.

Lemma predict_Ok k n s t_k t_km p_km v_km q_km f_km w_km p_cov_km :
  sized n s -> (k < n)%nat ->
  reads imu_f imu_w k s t_k t_km p_km v_km q_km f_km w_km p_cov_km ->
  predict rot imu_f imu_w k s =
  Ok (predicted rot k s t_k t_km p_km v_km q_km f_km w_km p_cov_km).
Proof.
  intros (Hp & Hv & Hq & Hc) Hk [].
  unfold predict, predicted.
  repeat match goal with
         | H : getitem _ _ = Ok _ |- _ => rewrite H; clear H
         end.
  cbn [bind nominal_update fst snd].
  rewrite !setitem_Ok by lia.
  reflexivity.
Qed.

Lemma predict_Ok_inv k s s' :
  predict rot imu_f imu_w k s = Ok s' ->
  exists t_k t_km p_km v_km q_km f_km w_km p_cov_km,
    reads imu_f imu_w k s t_k t_km p_km v_km q_km f_km w_km p_cov_km /\
    (k < length (p_est s))%nat /\ (k < length (v_est s))%nat /\
    (k < length (q_est s))%nat /\ (k < length (p_cov s))%nat /\
    s' = predicted rot k s t_k t_km p_km v_km q_km f_km w_km p_cov_km.
Proof.
  unfold predict; intros H.
  inv_bind H. inv_bind H. inv_bind H. inv_bind H.
  inv_bind H. inv_bind H. inv_bind H.
  cbn [nominal_update] in H.
  inv_bind H. inv_bind H. inv_bind H. inv_bind H. inv_bind H.
  injection H as <-.
  repeat match goal with
         | E : setitem _ _ _ = Ok _ |- _ =>
             apply setitem_Ok_inv in E; destruct E as [? ->]
         end.
  do 8 eexists; split; [constructor; eassumption |].
  repeat (split; [assumption |]).
  reflexivity.
Qed.

Lemma predict_sized k n s s' :
  sized n s -> predict rot imu_f imu_w k s = Ok s' -> sized n s'.
Proof.
  intros (Hp & Hv & Hq & Hc) H.
  apply predict_Ok_inv in H.
  destruct H as (? & ? & ? & ? & ? & ? & ? & ? & _ & _ & _ & _ & _ & ->).
  unfold sized, predicted; cbn [p_est v_est q_est p_cov].
  rewrite !length_update; auto.
Qed.

Lemma predict_stores k n s t_k t_km p_km v_km q_km f_km w_km p_cov_km :
  sized n s -> (k < n)%nat ->
  reads imu_f imu_w k s t_k t_km p_km v_km q_km f_km w_km p_cov_km ->
  let delta_t := t_k - t_km in
  let nom := nominal_update rot delta_t p_km v_km q_km f_km w_km in
  let C_ns_d_f_km := dotv (to_mat rot (Quaternion_wxyz rot q_km)) f_km in
  exists s',
    predict rot imu_f imu_w k s = Ok s' /\
    getitem (p_est s') k = Ok (fst (fst nom)) /\
    getitem (v_est s') k = Ok (snd (fst nom)) /\
    getitem (q_est s') k = Ok (snd nom) /\
    getitem (p_cov s') k =
      Ok (covariance_update rot delta_t C_ns_d_f_km p_cov_km).
Proof.
  intros Hs Hk Hr delta_t nom C_ns_d_f_km.
  eexists; split; [eapply predict_Ok; eassumption |].
  destruct Hs as (Hp & Hv & Hq & Hc).
  unfold predicted; cbn [p_est v_est q_est p_cov].
  rewrite !getitem_update_same by lia.
  repeat split; reflexivity.
Qed.

End Prediction.

(** ** Nominal state propagation *)

Section NominalPropagation.

Variable rot : Rotations.
Variables imu_f imu_w : StampedData.

(** The side of the composition, as a law of the rotation algebra: the
    rotation matrix of [dq.quat_mult_right(q)] is [C(q) C(dq)].  The
    increment [dq] is then applied first, to the coordinates in the body
    frame, and the previous orientation [q] multiplies it on the left. *)
Hypothesis mult_right_body_frame :
  forall dq q,
    length q = 4%nat ->
    to_mat rot (Quaternion_wxyz rot (quat_mult_right rot dq q)) =
    dot (to_mat rot (Quaternion_wxyz rot q)) (to_mat rot dq).

(** C1.  At every step [k >= 1] whose inputs are there, the prediction stores
    at [k] the position [p + dt v + dt^2/2 (C(q) f + g)], the velocity
    [v + dt (C(q) f + g)] with [g = (0, 0, -9.81)], and the orientation
    [q_k] that [quat_mult_right] of the quaternion [dq] of the axis-angle
    vector [w dt] returns on [q], where [p], [v], [q], [f], [w] are the
    entries at [k-1] and [dt = t[k] - t[k-1]].  The side: the rotation
    matrix of [q_k] is [C(q) C(dq)].  The increment is the right factor of
    the composition and acts first, on the coordinates in the body frame;
    the previous orientation multiplies it on the left.  This is the side
    that the convention of the specification prescribes: the incremental
    rotation applied in the body frame. *)
Theorem nominal_propagation
    k n s t_k t_km px py pz vx vy vz q_km f_km wx wy wz p_cov_km cx cy cz :
  sized n s -> (1 <= k < n)%nat ->
  reads imu_f imu_w k s t_k t_km
    [px; py; pz] [vx; vy; vz] q_km f_km [wx; wy; wz] p_cov_km ->
  dotv (to_mat rot (Quaternion_wxyz rot q_km)) f_km = [cx; cy; cz] ->
  length q_km = 4%nat ->
  let delta_t := t_k - t_km in
  let dq :=
    Quaternion_axis_angle rot [wx * delta_t; wy * delta_t; wz * delta_t] in
  exists s' q_k,
    predict rot imu_f imu_w k s = Ok s' /\
    getitem (p_est s') k =
      Ok [px + delta_t * vx + delta_t ^ 2 / 2 * (cx + 0);
          py + delta_t * vy + delta_t ^ 2 / 2 * (cy + 0);
          pz + delta_t * vz + delta_t ^ 2 / 2 * (cz + -9.81)] /\
    getitem (v_est s') k =
      Ok [vx + delta_t * (cx + 0);
          vy + delta_t * (cy + 0);
          vz + delta_t * (cz + -9.81)] /\
    getitem (q_est s') k = Ok q_k /\
    q_k = quat_mult_right rot dq q_km /\
    to_mat rot (Quaternion_wxyz rot q_k) =
      dot (to_mat rot (Quaternion_wxyz rot q_km)) (to_mat rot dq).
Proof.
  intros Hs Hk Hr Hc Hq4 delta_t dq.
  destruct (predict_stores rot imu_f imu_w k n s _ _ _ _ _ _ _ _
              Hs (proj2 Hk) Hr) as (s' & Hrun & Hp & Hv & Hq & _).
  exists s', (quat_mult_right rot dq q_km); split; [exact Hrun |].
  rewrite Hp, Hv, Hq.
  unfold nominal_update; rewrite Hc; cbn [fst snd].
  repeat split; try reflexivity.
  apply mult_right_body_frame; exact Hq4.
Qed.

End NominalPropagation.

Lemma scenario_sized : sized 2 Scenario.s0.
Proof. repeat split. Qed.

Lemma scenario_reads :
  reads Scenario.imu_f Scenario.imu_w 1 Scenario.s0 0.1 0
    [0; 0; 0] [0; 0; 0] [1; 0; 0; 0] [0; 0; 9.81] [0; 0; 0] (zeros 9 9).
Proof. constructor; reflexivity. Qed.

Lemma scenario_rotated_force :
  dotv (to_mat StdRotations.rotations
          (Quaternion_wxyz StdRotations.rotations [1; 0; 0; 0])) [0; 0; 9.81]
  = [0; 0; 9.81].
Proof. np_eval. array_eq; lra. Qed.

(** *** The side of the composition in [StdRotations] *)

(** The rotation matrix of a Hamilton product is the product of the
    rotation matrices, in the same order. *)
Lemma std_mat_compose a b :
  StdRotations.mat (StdRotations.compose a b) =
  dot (StdRotations.mat a) (StdRotations.mat b).
Proof. destruct a, b; np_eval; array_eq; ring. Qed.

(** [dq.quat_mult_right(q)] is the Hamilton product [q dq], the increment as
    the right factor. *)
Lemma std_mult_right_product dq w x y z :
  quat_mult_right StdRotations.rotations dq [w; x; y; z] =
  StdRotations.to_array
    (StdRotations.compose (StdRotations.Quat w x y z) dq).
Proof. reflexivity. Qed.

Lemma std_mult_right_body_frame :
  forall dq q,
    length q = 4%nat ->
    to_mat StdRotations.rotations
      (Quaternion_wxyz StdRotations.rotations
         (quat_mult_right StdRotations.rotations dq q)) =
    dot (to_mat StdRotations.rotations
           (Quaternion_wxyz StdRotations.rotations q))
        (to_mat StdRotations.rotations dq).
Proof.
  intros dq q Hq.
  destruct q as [| w [| x [| y [| z [| ? ?]]]]]; try discriminate Hq.
  rewrite std_mult_right_product.
  cbn [to_mat Quaternion_wxyz StdRotations.rotations].
  rewrite <- std_mat_compose; reflexivity.
Qed.

(** The quaternion of a half turn about the third axis. *)
Lemma std_half_turn :
  StdRotations.axis_angle [0; 0; PI] = StdRotations.Quat 0 0 0 1.
Proof.
  unfold StdRotations.axis_angle.
  assert (Hn : norm [0; 0; PI] = PI).
  { unfold norm, sumsq; cbn [inner zip_with fold_right].
    replace (0 * 0 + (0 * 0 + (PI * PI + 0))) with (PI * PI) by ring.
    apply sqrt_square; pose proof PI_RGT_0; lra. }
  rewrite Hn.
  destruct (Req_dec_T PI 0) as [Hz | Hnz]; [pose proof PI_RGT_0; lra |].
  rewrite cos_PI2, sin_PI2.
  f_equal; field; exact Hnz.
Qed.

Lemma turning_sized : sized 2 Turning.s0.
Proof. repeat split. Qed.

Lemma turning_reads :
  reads Turning.imu_f Turning.imu_w 1 Turning.s0 1 0
    [0; 0; 0] [0; 0; 0] [0; 1; 0; 0] [0; 0; -9.81] [0; 0; PI] (zeros 9 9).
Proof. constructor; reflexivity. Qed.

Lemma turning_rotated_force :
  dotv (to_mat StdRotations.rotations
          (Quaternion_wxyz StdRotations.rotations [0; 1; 0; 0]))
       [0; 0; -9.81]
  = [0; 0; 9.81].
Proof. np_eval; array_eq; lra. Qed.

(** The orientation the step stores, [q dq], and the one that the
    increment composed on the left, [dq q], would give: they differ. *)
Lemma turning_orientation :
  quat_mult_right StdRotations.rotations
    (Quaternion_axis_angle StdRotations.rotations
       [0 * (1 - 0); 0 * (1 - 0); PI * (1 - 0)])
    [0; 1; 0; 0]
  = [0; 0; -1; 0].
Proof.
  replace [0 * (1 - 0); 0 * (1 - 0); PI * (1 - 0)] with [0; 0; PI]
    by (array_eq; ring).
  cbn [Quaternion_axis_angle StdRotations.rotations].
  rewrite std_half_turn.
  np_eval; array_eq; ring.
Qed.

Lemma turning_other_side :
  StdRotations.to_array
    (StdRotations.compose (StdRotations.Quat 0 0 0 1)
       (StdRotations.Quat 0 1 0 0))
  = [0; 0; 1; 0].
Proof. np_eval; array_eq; ring. Qed.

Lemma nominal_propagation_witness :
  exists s',
    predict StdRotations.rotations Turning.imu_f Turning.imu_w 1 Turning.s0
    = Ok s' /\
    getitem (p_est s') 1 = Ok [0; 0; 0] /\
    getitem (v_est s') 1 = Ok [0; 0; 0] /\
    getitem (q_est s') 1 = Ok [0; 0; -1; 0] /\
    to_mat StdRotations.rotations
      (Quaternion_wxyz StdRotations.rotations [0; 0; -1; 0]) =
    dot (to_mat StdRotations.rotations
           (Quaternion_wxyz StdRotations.rotations [0; 1; 0; 0]))
        (to_mat StdRotations.rotations
           (Quaternion_axis_angle StdRotations.rotations
              [0 * (1 - 0); 0 * (1 - 0); PI * (1 - 0)])).
Proof.
  destruct (nominal_propagation StdRotations.rotations
              Turning.imu_f Turning.imu_w std_mult_right_body_frame
              1 2 Turning.s0 1 0
              0 0 0 0 0 0 [0; 1; 0; 0] [0; 0; -9.81] 0 0 PI (zeros 9 9)
              0 0 9.81 turning_sized (conj (le_n 1) (le_n 2))
              turning_reads turning_rotated_force eq_refl)
    as (s' & q_k & H1 & H2 & H3 & H4 & H5 & H6).
  rewrite turning_orientation in H5; subst q_k.
  exists s'; split; [exact H1 |].
  split; [rewrite H2; apply f_equal; array_eq; lra |].
  split; [rewrite H3; apply f_equal; array_eq; lra |].
  split; [exact H4 | exact H6].
Defined.

(** ** A step of no duration *)

Section ZeroTimestep.

Variable rot : Rotations.
Variables imu_f imu_w : StampedData.

(** What the property needs of the rotation algebra: a rotation matrix has
    three rows, and composing with the quaternion of the zero axis-angle
    vector changes nothing. *)
Hypothesis to_mat_rows : forall Q, length (to_mat rot Q) = 3%nat.
Hypothesis axis_angle_zero :
  forall q, quat_mult_right rot (Quaternion_axis_angle rot [0; 0; 0]) q = q.

Lemma nominal_update_zero px py pz vx vy vz q_km f_km wx wy wz :
  nominal_update rot 0 [px; py; pz] [vx; vy; vz] q_km f_km [wx; wy; wz]
  = ([px; py; pz], [vx; vy; vz], q_km).
Proof.
  unfold nominal_update.
  pose proof (to_mat_rows (Quaternion_wxyz rot q_km)) as Hrows.
  destruct (to_mat rot (Quaternion_wxyz rot q_km))
    as [| r0 [| r1 [| r2 [| r3 C]]]]; try discriminate Hrows.
  cbn [dotv map add sub smul muls zip_with g].
  replace [wx * 0; wy * 0; wz * 0] with [0; 0; 0] by (array_eq; ring).
  rewrite axis_angle_zero.
  repeat apply (f_equal2 (@pair _ _)); try reflexivity; array_eq; field.
Qed.

(** C8.  When the two timestamps of a step are equal (elapsed time 0), the
    prediction stores at [k] the position, velocity and orientation of
    [k-1], unchanged. *)
Theorem zero_timestep_noop
    k n s t_k t_km px py pz vx vy vz q_km f_km wx wy wz p_cov_km :
  sized n s -> (1 <= k < n)%nat ->
  reads imu_f imu_w k s t_k t_km
    [px; py; pz] [vx; vy; vz] q_km f_km [wx; wy; wz] p_cov_km ->
  t_k - t_km = 0 ->
  exists s',
    predict rot imu_f imu_w k s = Ok s' /\
    getitem (p_est s') k = Ok [px; py; pz] /\
    getitem (v_est s') k = Ok [vx; vy; vz] /\
    getitem (q_est s') k = Ok q_km.
Proof.
  intros Hs Hk Hr Hdt.
  destruct (predict_stores rot imu_f imu_w k n s _ _ _ _ _ _ _ _
              Hs (proj2 Hk) Hr) as (s' & Hrun & Hp & Hv & Hq & _).
  exists s'; split; [exact Hrun |].
  rewrite Hp, Hv, Hq, Hdt, nominal_update_zero.
  repeat split; reflexivity.
Qed.

End ZeroTimestep.

(** The rotation algebra [StdRotations] has the two properties. *)

Lemma std_to_mat_rows :
  forall Q, length (to_mat StdRotations.rotations Q) = 3%nat.
Proof. reflexivity. Qed.

Lemma norm_zero3 : norm [0; 0; 0] = 0.
Proof.
  unfold norm, sumsq; cbn [inner zip_with fold_right].
  replace (0 * 0 + (0 * 0 + (0 * 0 + 0))) with 0 by ring.
  apply sqrt_0.
Qed.

Lemma std_axis_angle_zero :
  forall q,
    quat_mult_right StdRotations.rotations
      (Quaternion_axis_angle StdRotations.rotations [0; 0; 0]) q = q.
Proof.
  intros q; cbn [quat_mult_right Quaternion_axis_angle StdRotations.rotations].
  unfold StdRotations.axis_angle; rewrite norm_zero3.
  destruct (Req_dec_T 0 0) as [_ | Hne]; [| exfalso; apply Hne; reflexivity].
  destruct q as [| a [| b [| c [| d [| e q]]]]]; try reflexivity.
  np_eval; array_eq; ring.
Qed.

(** A run whose two inertial samples carry the same timestamp. *)
Lemma zero_timestep_reads :
  reads {| data := [[0; 0; 9.81]; [0; 0; 9.81]]; t := [0; 0] |}
        {| data := [[0; 0; 1]; [0; 0; 1]]; t := [0; 0] |} 1 Scenario.s0
    0 0 [0; 0; 0] [0; 0; 0] [1; 0; 0; 0] [0; 0; 9.81] [0; 0; 1] (zeros 9 9).
Proof. constructor; reflexivity. Qed.

Lemma zero_timestep_noop_witness :
  exists s',
    predict StdRotations.rotations
      {| data := [[0; 0; 9.81]; [0; 0; 9.81]]; t := [0; 0] |}
      {| data := [[0; 0; 1]; [0; 0; 1]]; t := [0; 0] |} 1 Scenario.s0 = Ok s' /\
    getitem (p_est s') 1 = Ok [0; 0; 0] /\
    getitem (v_est s') 1 = Ok [0; 0; 0] /\
    getitem (q_est s') 1 = Ok [1; 0; 0; 0].
Proof.
  apply (zero_timestep_noop StdRotations.rotations _ _
           std_to_mat_rows std_axis_angle_zero 1 2 Scenario.s0 0 0
           0 0 0 0 0 0 [1; 0; 0; 0] [0; 0; 9.81] 0 0 1 (zeros 9 9)
           scenario_sized (conj (le_n 1) (le_n 2)) zero_timestep_reads).
  lra.
Defined.

(** ** Covariance propagation *)

Section CovariancePropagation.

Variable rot : Rotations.
Variables imu_f imu_w : StampedData.

(** The noise Jacobian puts the identity in rows 3-8. *)
Lemma l_jac_entries :
  l_jac = [[0; 0; 0; 0; 0; 0];
           [0; 0; 0; 0; 0; 0];
           [0; 0; 0; 0; 0; 0];
           [1; 0; 0; 0; 0; 0];
           [0; 1; 0; 0; 0; 0];
           [0; 0; 1; 0; 0; 0];
           [0; 0; 0; 1; 0; 0];
           [0; 0; 0; 0; 1; 0];
           [0; 0; 0; 0; 0; 1]].
Proof. reflexivity. Qed.

Lemma f_ja_km_entries delta_t c s00 s01 s02 s10 s11 s12 s20 s21 s22 :
  skew_symmetric rot c = [[s00; s01; s02]; [s10; s11; s12]; [s20; s21; s22]] ->
  f_ja_km rot delta_t c =
    [[1; 0; 0; delta_t; 0; 0; 0; 0; 0];
     [0; 1; 0; 0; delta_t; 0; 0; 0; 0];
     [0; 0; 1; 0; 0; delta_t; 0; 0; 0];
     [0; 0; 0; 1; 0; 0; - s00 * delta_t; - s01 * delta_t; - s02 * delta_t];
     [0; 0; 0; 0; 1; 0; - s10 * delta_t; - s11 * delta_t; - s12 * delta_t];
     [0; 0; 0; 0; 0; 1; - s20 * delta_t; - s21 * delta_t; - s22 * delta_t];
     [0; 0; 0; 0; 0; 0; 1; 0; 0];
     [0; 0; 0; 0; 0; 0; 0; 1; 0];
     [0; 0; 0; 0; 0; 0; 0; 0; 1]].
Proof.
  intros Hskew; unfold f_ja_km; rewrite Hskew.
  np_eval; array_eq; ring.
Qed.

Lemma q_cov_km_entries delta_t :
  q_cov_km delta_t =
    [[delta_t ^ 2 * var_imu_f; 0; 0; 0; 0; 0];
     [0; delta_t ^ 2 * var_imu_f; 0; 0; 0; 0];
     [0; 0; delta_t ^ 2 * var_imu_f; 0; 0; 0];
     [0; 0; 0; delta_t ^ 2 * var_imu_w; 0; 0];
     [0; 0; 0; 0; delta_t ^ 2 * var_imu_w; 0];
     [0; 0; 0; 0; 0; delta_t ^ 2 * var_imu_w]].
Proof. np_eval; array_eq; field. Qed.

(** C2.  At every step [k >= 1] whose inputs are there, the prediction stores
    at [k] the covariance [F P F^T + L Q L^T], products of matrices, where [P]
    is the covariance at [k-1], [F] is the identity with [dt I] in rows 0-2,
    columns 3-5 and [- skew(C(q) f) dt] in rows 3-5, columns 6-8, [Q] is
    diagonal with [dt^2 var_imu_f] three times and [dt^2 var_imu_w] three
    times, and [L] has the identity in rows 3-8 and zeros in rows 0-2. *)
Theorem covariance_propagation
    k n s t_k t_km p_km v_km q_km f_km w_km p_cov_km
    s00 s01 s02 s10 s11 s12 s20 s21 s22 :
  sized n s -> (1 <= k < n)%nat ->
  reads imu_f imu_w k s t_k t_km p_km v_km q_km f_km w_km p_cov_km ->
  skew_symmetric rot (dotv (to_mat rot (Quaternion_wxyz rot q_km)) f_km)
  = [[s00; s01; s02]; [s10; s11; s12]; [s20; s21; s22]] ->
  let delta_t := t_k - t_km in
  let F :=
    [[1; 0; 0; delta_t; 0; 0; 0; 0; 0];
     [0; 1; 0; 0; delta_t; 0; 0; 0; 0];
     [0; 0; 1; 0; 0; delta_t; 0; 0; 0];
     [0; 0; 0; 1; 0; 0; - s00 * delta_t; - s01 * delta_t; - s02 * delta_t];
     [0; 0; 0; 0; 1; 0; - s10 * delta_t; - s11 * delta_t; - s12 * delta_t];
     [0; 0; 0; 0; 0; 1; - s20 * delta_t; - s21 * delta_t; - s22 * delta_t];
     [0; 0; 0; 0; 0; 0; 1; 0; 0];
     [0; 0; 0; 0; 0; 0; 0; 1; 0];
     [0; 0; 0; 0; 0; 0; 0; 0; 1]] in
  let Q :=
    [[delta_t ^ 2 * var_imu_f; 0; 0; 0; 0; 0];
     [0; delta_t ^ 2 * var_imu_f; 0; 0; 0; 0];
     [0; 0; delta_t ^ 2 * var_imu_f; 0; 0; 0];
     [0; 0; 0; delta_t ^ 2 * var_imu_w; 0; 0];
     [0; 0; 0; 0; delta_t ^ 2 * var_imu_w; 0];
     [0; 0; 0; 0; 0; delta_t ^ 2 * var_imu_w]] in
  let L :=
    [[0; 0; 0; 0; 0; 0];
     [0; 0; 0; 0; 0; 0];
     [0; 0; 0; 0; 0; 0];
     [1; 0; 0; 0; 0; 0];
     [0; 1; 0; 0; 0; 0];
     [0; 0; 1; 0; 0; 0];
     [0; 0; 0; 1; 0; 0];
     [0; 0; 0; 0; 1; 0];
     [0; 0; 0; 0; 0; 1]] in
  exists s',
    predict rot imu_f imu_w k s = Ok s' /\
    getitem (p_cov s') k =
      Ok (madd (dot (dot F p_cov_km) (T F)) (dot (dot L Q) (T L))).
Proof.
  intros Hs Hk Hr Hskew delta_t F Q L.
  destruct (predict_stores rot imu_f imu_w k n s _ _ _ _ _ _ _ _
              Hs (proj2 Hk) Hr) as (s' & Hrun & _ & _ & _ & Hcov).
  exists s'; split; [exact Hrun |].
  rewrite Hcov; unfold covariance_update.
  rewrite (f_ja_km_entries _ _ _ _ _ _ _ _ _ _ _ Hskew).
  rewrite q_cov_km_entries, l_jac_entries.
  reflexivity.
Qed.

End CovariancePropagation.

Lemma scenario_skew :
  skew_symmetric StdRotations.rotations
    (dotv (to_mat StdRotations.rotations
             (Quaternion_wxyz StdRotations.rotations [1; 0; 0; 0]))
          [0; 0; 9.81])
  = [[0; -9.81; 0]; [9.81; 0; 0]; [0; 0; 0]].
Proof. np_eval; array_eq; lra. Qed.

Lemma covariance_propagation_witness :
  exists s',
    predict StdRotations.rotations Scenario.imu_f Scenario.imu_w 1 Scenario.s0
    = Ok s' /\
    getitem (p_cov s') 1 = Ok Scenario.p_cov1.
Proof.
  destruct (covariance_propagation StdRotations.rotations
              Scenario.imu_f Scenario.imu_w 1 2 Scenario.s0 0.1 0
              [0; 0; 0] [0; 0; 0] [1; 0; 0; 0] [0; 0; 9.81] [0; 0; 0]
              (zeros 9 9) 0 (-9.81) 0 9.81 0 0 0 0 0
              scenario_sized (conj (le_n 1) (le_n 2))
              scenario_reads scenario_skew)
    as (s' & H1 & H2).
  exists s'; split; [exact H1 |].
  rewrite H2; np_eval; array_eq; lra.
Defined.

(** ** Shapes *)

Lemma length_S_inv {A : Type} (l : list A) (n : nat) :
  length l = S n -> exists x l', l = x :: l' /\ length l' = n.
Proof.
  destruct l as [| x l']; simpl; intros H; [discriminate H |].
  exists x, l'; split; [reflexivity | congruence].
Qed.

Lemma length_0_inv {A : Type} (l : list A) : length l = 0%nat -> l = [].
Proof. destruct l; simpl; [reflexivity | discriminate]. Qed.

(** From [length l = n] for a numeral [n], the entries of [l]. *)
Ltac explode_length H :=
  repeat match type of H with
         | length ?l = S _ =>
             let x := fresh "x" in
             let l' := fresh "l" in
             let E := fresh "E" in
             apply length_S_inv in H; destruct H as (x & l' & E & H);
             subst l
         end;
  match type of H with
  | length ?l = 0%nat => apply length_0_inv in H; subst l
  end.

(** From [shape r c A] for numerals [r] and [c], the entries of [A]. *)
Ltac explode_shape H :=
  let Hlen := fresh "Hlen" in
  let Hrows := fresh "Hrows" in
  destruct H as [Hlen Hrows];
  explode_length Hlen;
  repeat match goal with
         | Hr : Forall _ (_ :: _) |- _ =>
             let Hrow := fresh "Hrow" in
             let Hrest := fresh "Hrest" in
             apply Forall_cons_iff in Hr; destruct Hr as [Hrow Hrest];
             explode_length Hrow
         | Hr : Forall _ [] |- _ => clear Hr
         end.

(** ** Measurement update *)

Lemma h_jac_entries :
  h_jac = [[1; 0; 0; 0; 0; 0; 0; 0; 0];
           [0; 1; 0; 0; 0; 0; 0; 0; 0];
           [0; 0; 1; 0; 0; 0; 0; 0; 0]].
Proof. reflexivity. Qed.

(** The innovation covariance is the position block of [P] plus the sensor
    variance on the diagonal. *)
Lemma innovation_cov_entries sensor_var P :
  shape 9 9 P ->
  innovation_cov sensor_var P =
  madd (block 0 3 0 3 P)
       [[sensor_var; 0; 0]; [0; sensor_var; 0]; [0; 0; sensor_var]].
Proof.
  intros HP; explode_shape HP.
  np_eval; array_eq; ring.
Qed.

(** [np.linalg.inv] returns a two-sided inverse whenever it returns. *)
Lemma inv_correct A Ainv :
  inv A = Ok Ainv -> dot A Ainv = eye 3 /\ dot Ainv A = eye 3.
Proof.
  unfold inv.
  destruct A as [| [| a [| b [| c [| ? ?]]]] [| [| d [| e [| f [| ? ?]]]]
                    [| [| g [| h [| i [| ? ?]]]] [| ? ?]]]];
    try discriminate.
  destruct (Req_dec_T _ _) as [Hz | Hnz]; [discriminate |].
  intros H; injection H as <-.
  cbv [det3] in Hnz.
  split; np_eval; array_eq; field; exact Hnz.
Qed.

Lemma inv_Ok a b c d e f g h i :
  det3 [[a; b; c]; [d; e; f]; [g; h; i]] <> 0 ->
  inv [[a; b; c]; [d; e; f]; [g; h; i]] =
  Ok (mmuls (adj3 [[a; b; c]; [d; e; f]; [g; h; i]])
            (/ det3 [[a; b; c]; [d; e; f]; [g; h; i]])).
Proof.
  intros Hnz; unfold inv.
  destruct (Req_dec_T _ _) as [Hz | _]; [contradiction | reflexivity].
Qed.

Lemma inv_singular a b c d e f g h i :
  det3 [[a; b; c]; [d; e; f]; [g; h; i]] = 0 ->
  inv [[a; b; c]; [d; e; f]; [g; h; i]] = Raise LinAlgError.
Proof.
  intros Hz; unfold inv.
  destruct (Req_dec_T _ _) as [_ | Hnz]; [reflexivity | contradiction].
Qed.

(** The position block of the corrected covariance, for any matrix [M] in
    the place of the inverse: [A - A M A] with [A] the position block of [P]. *)
Lemma corrected_position_block P M :
  shape 9 9 P -> shape 3 3 M ->
  block 0 3 0 3
    (dot (msub (eye 9) (dot (dot (dot P (T h_jac)) M) h_jac)) P)
  = msub (block 0 3 0 3 P)
         (dot (dot (block 0 3 0 3 P) M) (block 0 3 0 3 P)).
Proof.
  intros HP HM; explode_shape HP; explode_shape HM.
  np_eval; array_eq; ring.
Qed.

(** The position block of the gain: [A M]. *)
Lemma gain_position_block P M :
  shape 9 9 P -> shape 3 3 M ->
  block 0 3 0 3 (dot (dot P (T h_jac)) M) = dot (block 0 3 0 3 P) M.
Proof.
  intros HP HM; explode_shape HP; explode_shape HM.
  np_eval; array_eq; ring.
Qed.

Lemma innovation_cov_3x3 sensor_var P :
  shape 9 9 P ->
  exists a b c d e f g h i,
    innovation_cov sensor_var P = [[a; b; c]; [d; e; f]; [g; h; i]].
Proof.
  intros HP; rewrite innovation_cov_entries by exact HP.
  explode_shape HP; np_eval.
  do 9 eexists; reflexivity.
Qed.

Lemma scaled_identity sensor_var :
  mmuls (eye 3) sensor_var =
  [[sensor_var; 0; 0]; [0; sensor_var; 0]; [0; 0; sensor_var]].
Proof. np_eval; array_eq; ring. Qed.

Section MeasurementUpdate.

Variable rot : Rotations.

(** The side of the composition, as a law of the rotation algebra: the
    rotation matrix of [dq.quat_mult_left(q)] is [C(dq) C(q)], the
    correction [dq] composed on the left of the orientation [q]. *)
Hypothesis mult_left_fixed_frame :
  forall dq q,
    length q = 4%nat ->
    to_mat rot (Quaternion_wxyz rot (quat_mult_left rot dq q)) =
    dot (to_mat rot dq) (to_mat rot (Quaternion_wxyz rot q)).


End MeasurementUpdate.

Lemma eye_shape_9 : shape 9 9 (eye 9).
Proof. split; [reflexivity | repeat constructor]. Qed.

(** [dq.quat_mult_left(q)] is the Hamilton product [dq q] in
    [StdRotations], the correction as the left factor. *)
Lemma std_mult_left_product dq w x y z :
  quat_mult_left StdRotations.rotations dq [w; x; y; z] =
  StdRotations.to_array
    (StdRotations.compose dq (StdRotations.Quat w x y z)).
Proof. reflexivity. Qed.

Lemma std_mult_left_fixed_frame :
  forall dq q,
    length q = 4%nat ->
    to_mat StdRotations.rotations
      (Quaternion_wxyz StdRotations.rotations
         (quat_mult_left StdRotations.rotations dq q)) =
    dot (to_mat StdRotations.rotations dq)
        (to_mat StdRotations.rotations
           (Quaternion_wxyz StdRotations.rotations q)).
Proof.
  intros dq q Hq.
  destruct q as [| w [| x [| y [| z [| ? ?]]]]]; try discriminate Hq.
  rewrite std_mult_left_product.
  cbn [to_mat Quaternion_wxyz StdRotations.rotations].
  rewrite <- std_mat_compose; reflexivity.
Qed.

Lemma coupled_shape : shape 9 9 Coupled.P.
Proof. split; [reflexivity | repeat constructor]. Qed.


(** From an equation between two arrays written out, the equations between
    their entries. *)
Ltac explode_eq :=
  repeat match goal with
         | H : _ :: _ = _ :: _ |- _ =>
             let H1 := fresh "Hhd" in
             let H2 := fresh "Htl" in
             injection H as H1 H2
         | H : [] = [] |- _ => clear H
         end.

(** The first three entries of [K x] come from the first three rows of [K]. *)
Lemma slice_dotv K x0 x1 x2 :
  slice 0 3 (dotv K [x0; x1; x2]) = dotv (block 0 3 0 3 K) [x0; x1; x2].
Proof.
  unfold slice, dotv, block; cbn [skipn Nat.sub].
  rewrite firstn_map, map_map.
  apply map_ext; intros row.
  destruct row as [| ? [| ? [| ? [| ? ?]]]]; reflexivity.
Qed.

Section UpdateRuns.

Variable rot : Rotations.

(** With an invertible innovation covariance, the gain and the update are
    defined, and the inverse is the adjugate over the determinant. *)
Lemma measurement_update_Ok sensor_var P y_k p_check v_check q_check :
  shape 9 9 P ->
  det3 (innovation_cov sensor_var P) <> 0 ->
  let S := innovation_cov sensor_var P in
  let K := dot (dot P (T h_jac)) (mmuls (adj3 S) (/ det3 S)) in
  let dx := dotv K (sub y_k p_check) in
  kalman_gain sensor_var P = Ok K /\
  measurement_update rot sensor_var P y_k p_check v_check q_check =
  Ok (add p_check (slice 0 3 dx),
      add v_check (slice 3 6 dx),
      quat_mult_left rot (Quaternion_euler rot (slice 6 9 dx)) q_check,
      dot (msub (eye 9) (dot K h_jac)) P).
Proof.
  intros HP Hdet S K dx.
  assert (Hk : kalman_gain sensor_var P = Ok K).
  { unfold kalman_gain, K, S.
    destruct (innovation_cov_3x3 sensor_var P HP)
      as (a & b & c & d & e & f & g0 & h & i & Hshape).
    revert Hdet; rewrite Hshape; intros Hdet.
    rewrite inv_Ok by exact Hdet; reflexivity. }
  split; [exact Hk |].
  unfold measurement_update; rewrite Hk; reflexivity.
Qed.

(** C5.  With the position block of [P] the identity, variance 1, the
    observation (1, 0, 0) and the estimated position (0, 0, 0): the position
    block of the Kalman gain is 0.5 I, the corrected position is
    (0.5, 0, 0), and the position block of the corrected covariance is
    0.5 I. *)
Theorem gnss_correction_scenario P v_check q_check :
  shape 9 9 P ->
  block 0 3 0 3 P = [[1; 0; 0]; [0; 1; 0]; [0; 0; 1]] ->
  exists K p_hat v_hat q_hat p_cov_hat,
    kalman_gain 1 P = Ok K /\
    block 0 3 0 3 K = [[0.5; 0; 0]; [0; 0.5; 0]; [0; 0; 0.5]] /\
    measurement_update rot 1 P [1; 0; 0] [0; 0; 0] v_check q_check =
      Ok (p_hat, v_hat, q_hat, p_cov_hat) /\
    p_hat = [0.5; 0; 0] /\
    block 0 3 0 3 p_cov_hat = [[0.5; 0; 0]; [0; 0.5; 0]; [0; 0; 0.5]].
Proof.
  intros HP Hblock.
  assert (HS : innovation_cov 1 P =
               [[1 + 1; 0 + 0; 0 + 0]; [0 + 0; 1 + 1; 0 + 0];
                [0 + 0; 0 + 0; 1 + 1]]).
  { rewrite innovation_cov_entries by exact HP; rewrite Hblock; reflexivity. }
  assert (Hdet : det3 (innovation_cov 1 P) <> 0).
  { rewrite HS; cbv [det3]; lra. }
  destruct (measurement_update_Ok 1 P [1; 0; 0] [0; 0; 0] v_check q_check
              HP Hdet) as [Hk Hrun].
  cbv zeta in Hk, Hrun; rewrite HS in Hk, Hrun.
  assert (HM : shape 3 3
                 (mmuls (adj3 [[1 + 1; 0 + 0; 0 + 0]; [0 + 0; 1 + 1; 0 + 0];
                               [0 + 0; 0 + 0; 1 + 1]])
                    (/ det3 [[1 + 1; 0 + 0; 0 + 0]; [0 + 0; 1 + 1; 0 + 0];
                             [0 + 0; 0 + 0; 1 + 1]])))
    by (split; [reflexivity | repeat constructor]).
  do 5 eexists.
  split; [exact Hk |].
  split; [| split; [exact Hrun | split]].
  - rewrite gain_position_block, Hblock by assumption.
    np_eval; array_eq; field.
  - cbn [sub zip_with].
    rewrite slice_dotv, gain_position_block, Hblock by assumption.
    np_eval; array_eq; field.
  - rewrite corrected_position_block, Hblock by assumption.
    np_eval; array_eq; field.
Qed.

End UpdateRuns.

Lemma gnss_correction_scenario_witness :
  exists K p_hat v_hat q_hat p_cov_hat,
    kalman_gain 1 (eye 9) = Ok K /\
    block 0 3 0 3 K = [[0.5; 0; 0]; [0; 0.5; 0]; [0; 0; 0.5]] /\
    measurement_update StdRotations.rotations 1 (eye 9)
      [1; 0; 0] [0; 0; 0] [0; 0; 0] [1; 0; 0; 0] =
      Ok (p_hat, v_hat, q_hat, p_cov_hat) /\
    p_hat = [0.5; 0; 0] /\
    block 0 3 0 3 p_cov_hat = [[0.5; 0; 0]; [0; 0.5; 0]; [0; 0; 0.5]].
Proof.
  exact (gnss_correction_scenario StdRotations.rotations (eye 9)
           [0; 0; 0] [1; 0; 0; 0] eye_shape_9 eq_refl).
Defined.

(** ** The Euler-angle constructor against the rotation vector *)

(** Evaluation that leaves the trigonometry alone. *)
Ltac trig_eval :=
  cbv - [Rplus Rmult Rminus Ropp Rinv Rdiv IZR PI pow sqrt cos sin
         Req_dec_T].

(** With the covariance [Coupled.P] and variance 1, the rotation part of the
    error state is half the position residual. *)
Lemma coupled_error_rotation a b :
  slice 6 9
    (dotv (dot (dot Coupled.P (T h_jac))
             (mmuls (adj3 (innovation_cov 1 Coupled.P))
                (/ det3 (innovation_cov 1 Coupled.P))))
       (sub [2 * a; 2 * b; 0] [0; 0; 0]))
  = [a; b; 0].
Proof.
  assert (HS : innovation_cov 1 Coupled.P = [[2; 0; 0]; [0; 2; 0]; [0; 0; 2]])
    by (np_eval; array_eq; ring).
  rewrite HS.
  replace (det3 [[2; 0; 0]; [0; 2; 0]; [0; 0; 2]]) with 8
    by (cbv [det3]; ring).
  replace (adj3 [[2; 0; 0]; [0; 2; 0]; [0; 0; 2]])
    with [[4; 0; 0]; [0; 4; 0]; [0; 0; 4]]
    by (cbv [adj3]; array_eq; ring).
  np_eval; array_eq; field.
Qed.

(** A half turn of roll and a half turn of pitch, as Euler angles. *)
Lemma std_euler_pi_pi :
  StdRotations.euler [PI; PI; 0] = StdRotations.Quat 0 0 0 (-1).
Proof.
  unfold StdRotations.euler; cbn [nth].
  replace (0 / 2) with 0 by field.
  rewrite cos_PI2, sin_PI2, cos_0, sin_0.
  f_equal; ring.
Qed.

(** The quaternion of a rotation vector in the plane of the first two axes
    has no component along the third. *)
Lemma std_axis_angle_planar a b :
  nth 3
    (quat_mult_left StdRotations.rotations
       (Quaternion_axis_angle StdRotations.rotations [a; b; 0])
       [1; 0; 0; 0]) 0
  = 0.
Proof.
  trig_eval.
  destruct (Req_dec_T _ _); unfold Rdiv; ring.
Qed.


(** ** Positive definiteness of the innovation covariance *)

Lemma sq_nonneg (u : R) : 0 <= u * u.
Proof. nra. Qed.

Section PositiveDefinite.

Import Sym3.

Variables a b c d e f s : R.

Local Abbreviation qA := (Sym3.qA a b c d e f).
Local Abbreviation qS := (Sym3.qS a b c d e f s).
Local Abbreviation C33 := (Sym3.C33 a b d s).
Local Abbreviation detS := (Sym3.detS a b c d e f s).
Local Abbreviation adjq := (Sym3.adjq a b c d e f s).
Local Abbreviation w1 := (Sym3.w1 b c d e f s).
Local Abbreviation w2 := (Sym3.w2 a b c e f s).
Local Abbreviation w3 := (Sym3.w3 a b c d e s).

Ltac unfold_sym3 :=
  unfold Sym3.qS, Sym3.qA, Sym3.w1, Sym3.w2, Sym3.w3, Sym3.detS, Sym3.adjq,
    Sym3.C11, Sym3.C12, Sym3.C13, Sym3.C22, Sym3.C23, Sym3.C33.

(** [S adj(S) = det(S) I], on a vector and in the quadratic form. *)
Lemma qS_adj x y z : qS (w1 x y z) (w2 x y z) (w3 x y z) = detS * adjq x y z.
Proof. unfold_sym3; ring. Qed.

Hypothesis Hpsd : forall x y z, 0 <= qA x y z.
Hypothesis Hs : 0 < s.

Lemma qS_lower x y z : s * (x * x + y * y + z * z) <= qS x y z.
Proof. unfold Sym3.qS; pose proof (Hpsd x y z); lra. Qed.

Lemma qS_nonneg x y z : 0 <= qS x y z.
Proof.
  pose proof (qS_lower x y z).
  pose proof (sq_nonneg x); pose proof (sq_nonneg y); pose proof (sq_nonneg z).
  assert (0 <= s * (x * x + y * y + z * z)) by (apply Rmult_le_pos; lra).
  lra.
Qed.

Lemma C33_pos : 0 < C33.
Proof.
  assert (Ha : 0 <= a).
  { pose proof (Hpsd 1 0 0) as H; unfold Sym3.qA in H; lra. }
  pose proof (qS_lower (- b) (a + s) 0) as H.
  assert (E : qS (- b) (a + s) 0 = (a + s) * C33) by (unfold_sym3; ring).
  rewrite E in H.
  assert (Hap : 0 < a + s) by lra.
  assert (Hsq : 0 < (a + s) * (a + s)) by (apply Rmult_lt_0_compat; lra).
  pose proof (sq_nonneg (- b)) as Hbb.
  assert (0 < s * (- b * - b + (a + s) * (a + s) + 0 * 0)).
  { apply Rmult_lt_0_compat; lra. }
  assert (Hprod : 0 < (a + s) * C33) by lra.
  destruct (Rle_or_lt C33 0) as [Hle | Hlt]; [exfalso | exact Hlt].
  assert (0 <= (a + s) * - C33) by (apply Rmult_le_pos; lra).
  lra.
Qed.

Lemma detS_pos : 0 < detS.
Proof.
  pose proof C33_pos as Hc.
  pose proof (qS_lower (w1 0 0 1) (w2 0 0 1) (w3 0 0 1)) as H.
  rewrite qS_adj in H.
  assert (E : adjq 0 0 1 = C33) by (unfold_sym3; ring).
  rewrite E in H.
  assert (E3 : w3 0 0 1 = C33) by (unfold_sym3; ring).
  rewrite E3 in H.
  assert (Hcc : 0 < C33 * C33) by (apply Rmult_lt_0_compat; lra).
  pose proof (sq_nonneg (w1 0 0 1)) as H11.
  pose proof (sq_nonneg (w2 0 0 1)) as H22.
  assert (0 < s * (w1 0 0 1 * w1 0 0 1 + w2 0 0 1 * w2 0 0 1 + C33 * C33)).
  { apply Rmult_lt_0_compat; lra. }
  assert (Hprod : 0 < detS * C33) by lra.
  destruct (Rle_or_lt detS 0) as [Hle | Hlt]; [exfalso | exact Hlt].
  assert (0 <= - detS * C33) by (apply Rmult_le_pos; lra).
  lra.
Qed.

Lemma adjq_nonneg x y z : 0 <= adjq x y z.
Proof.
  pose proof detS_pos as Hd.
  pose proof (qS_nonneg (w1 x y z) (w2 x y z) (w3 x y z)) as H.
  rewrite qS_adj in H.
  destruct (Rle_or_lt 0 (adjq x y z)) as [Hle | Hlt]; [exact Hle |].
  exfalso.
  assert (0 < detS * - adjq x y z) by (apply Rmult_lt_0_compat; lra).
  lra.
Qed.

End PositiveDefinite.

(** ** The correction and the position uncertainty *)

Lemma trace_pos_block X : trace_pos (block 0 3 0 3 X) = trace_pos X.
Proof.
  destruct X as [| [| ? [| ? [| ? ?]]] [| [| ? [| ? [| ? ?]]] [| [| ? [| ? [| ? ?]]] ?]]];
    reflexivity.
Qed.

Lemma posterior_trace a b c d e f s :
  Sym3.detS a b c d e f s <> 0 ->
  let A := [[a; b; c]; [b; d; e]; [c; e; f]] in
  let S := madd A [[s; 0; 0]; [0; s; 0]; [0; 0; s]] in
  det3 S = Sym3.detS a b c d e f s /\
  trace_pos (msub A (dot (dot A (mmuls (adj3 S) (/ det3 S))) A)) =
  a + d + f
  - (Sym3.adjq a b c d e f s a b c + Sym3.adjq a b c d e f s b d e
     + Sym3.adjq a b c d e f s c e f) / Sym3.detS a b c d e f s.
Proof.
  intros Hdet A S.
  assert (E : det3 S = Sym3.detS a b c d e f s).
  { cbv [S A det3 madd add zip_with Sym3.detS Sym3.C11 Sym3.C12 Sym3.C13]; ring. }
  split; [exact E |].
  rewrite E. revert Hdet. generalize (Sym3.detS a b c d e f s) as D. intros D HD.
  subst S A.
  cbv - [Rplus Rmult Rminus Ropp Rinv Rdiv IZR].
  field. exact HD.
Qed.

Lemma position_block_sym_psd P :
  shape 9 9 P -> symmetric P -> psd 9 P ->
  exists a b c d e f,
    block 0 3 0 3 P = [[a; b; c]; [b; d; e]; [c; e; f]] /\
    forall u v w, 0 <= Sym3.qA a b c d e f u v w.
Proof.
  intros HP Hsym Hpsd.
  explode_shape HP.
  unfold symmetric in Hsym; np_eval_in Hsym; explode_eq; subst.
  do 6 eexists; split; [reflexivity |].
  intros u v w.
  specialize (Hpsd [u; v; w; 0; 0; 0; 0; 0; 0] eq_refl).
  unfold quad in Hpsd; np_eval_in Hpsd.
  eapply Rle_trans; [exact Hpsd | right; unfold Sym3.qA; ring].
Qed.

Lemma adjugate_shape a b c d e f g h i r :
  shape 3 3 (mmuls (adj3 [[a; b; c]; [d; e; f]; [g; h; i]]) r).
Proof. split; [reflexivity | repeat constructor]. Qed.

Lemma zero_block_trace M :
  shape 3 3 M ->
  trace_pos (msub (zeros 3 3) (dot (dot (zeros 3 3) M) (zeros 3 3))) = 0.
Proof. intros HM; explode_shape HM; np_eval; ring. Qed.

Section Shrink.

Variable rot : Rotations.


End Shrink.

Lemma eye_quad x0 x1 x2 x3 x4 x5 x6 x7 x8 :
  quad (eye 9) [x0; x1; x2; x3; x4; x5; x6; x7; x8] =
  x0 * x0 + x1 * x1 + x2 * x2 + x3 * x3 + x4 * x4 + x5 * x5 + x6 * x6
  + x7 * x7 + x8 * x8.
Proof. unfold quad; np_eval; ring. Qed.

Lemma eye_symmetric : symmetric (eye 9).
Proof. reflexivity. Qed.

Lemma eye_psd : psd 9 (eye 9).
Proof.
  intros x Hx; explode_length Hx; rewrite eye_quad.
  repeat apply Rplus_le_le_0_compat; apply sq_nonneg.
Qed.


(** The first prediction of the two-sample run leaves [Scenario.p_cov1]. *)
Lemma scenario_first_covariance :
  exists s1,
    predict StdRotations.rotations Scenario.imu_f Scenario.imu_w 1 Scenario.s0
    = Ok s1 /\
    getitem (p_cov s1) 1 = Ok Scenario.p_cov1.
Proof.
  destruct (predict_stores StdRotations.rotations Scenario.imu_f Scenario.imu_w
              1 2 Scenario.s0 _ _ _ _ _ _ _ _
              scenario_sized (le_n 2) scenario_reads)
    as (s1 & Hrun & _ & _ & _ & Hcov).
  exists s1; split; [exact Hrun |].
  rewrite Hcov; np_eval; array_eq; lra.
Qed.

Lemma p_cov1_quad x0 x1 x2 x3 x4 x5 x6 x7 x8 :
  quad Scenario.p_cov1 [x0; x1; x2; x3; x4; x5; x6; x7; x8] =
  0.0001 * (x3 * x3 + x4 * x4 + x5 * x5 + x6 * x6 + x7 * x7 + x8 * x8).
Proof. unfold quad; np_eval; field. Qed.

Lemma p_cov1_psd : psd 9 Scenario.p_cov1.
Proof.
  intros x Hx; explode_length Hx; rewrite p_cov1_quad.
  apply Rmult_le_pos; [lra |].
  repeat apply Rplus_le_le_0_compat; apply sq_nonneg.
Qed.


(** ** The scheduler *)

Section Scheduler.

Variable rot : Rotations.
Variables imu_f imu_w gnss lidar : StampedData.

Lemma gnss_check_iff k s s' :
  gnss_check rot imu_f gnss k s = Ok s' <-> gnss_phase rot imu_f gnss k s s'.
Proof.
  unfold gnss_check; split.
  - destruct (Nat.ltb_spec (gnss_i s) (length (data gnss))) as [Hlt | Hge].
    + intros H; inv_bind H; inv_bind H.
      destruct (Req_dec_T a a0) as [Heq | Hne].
      * inv_bind H; inv_bind H; injection H as <-.
        subst a0; eapply gnss_applied; eassumption.
      * injection H as <-; eapply gnss_not_yet; eassumption.
    + intros H; injection H as <-; apply gnss_exhausted; exact Hge.
  - intros [t_k y_k s'' Hlt Ht Hg Hy Hc | Hge | t_k t_g Hlt Ht Hg Hne].
    + destruct (Nat.ltb_spec (gnss_i s) (length (data gnss))); [| lia].
      rewrite Ht, Hg; cbn [bind].
      destruct (Req_dec_T t_k t_k) as [_ | Hne]; [| contradiction].
      rewrite Hy; cbn [bind]; rewrite Hc; reflexivity.
    + destruct (Nat.ltb_spec (gnss_i s) (length (data gnss))); [lia |].
      reflexivity.
    + destruct (Nat.ltb_spec (gnss_i s) (length (data gnss))); [| lia].
      rewrite Ht, Hg; cbn [bind].
      destruct (Req_dec_T t_k t_g) as [Heq | _]; [contradiction | reflexivity].
Qed.

Lemma lidar_check_iff k s s' :
  lidar_check rot imu_f lidar k s = Ok s' <->
  lidar_phase rot imu_f lidar k s s'.
Proof.
  unfold lidar_check; split.
  - destruct (Nat.ltb_spec (lidar_i s) (length (t lidar))) as [Hlt | Hge].
    + intros H; inv_bind H; inv_bind H.
      destruct (Req_dec_T a a0) as [Heq | Hne].
      * inv_bind H; inv_bind H; injection H as <-.
        subst a0; eapply lidar_applied; eassumption.
      * injection H as <-; eapply lidar_not_yet; eassumption.
    + intros H; injection H as <-; apply lidar_exhausted; exact Hge.
  - intros [t_l y_k s'' Hlt Ht Hg Hy Hc | Hge | t_l t_km Hlt Ht Hg Hne].
    + destruct (Nat.ltb_spec (lidar_i s) (length (t lidar))); [| lia].
      rewrite Ht, Hg; cbn [bind].
      destruct (Req_dec_T t_l t_l) as [_ | Hne]; [| contradiction].
      rewrite Hy; cbn [bind]; rewrite Hc; reflexivity.
    + destruct (Nat.ltb_spec (lidar_i s) (length (t lidar))); [lia |].
      reflexivity.
    + destruct (Nat.ltb_spec (lidar_i s) (length (t lidar))); [| lia].
      rewrite Ht, Hg; cbn [bind].
      destruct (Req_dec_T t_l t_km) as [Heq | _]; [contradiction | reflexivity].
Qed.

(** A correction returns exactly when the four entries at [k] are there and
    [measurement_update] returns on them; it stores the four results at [k]
    and leaves the cursors. *)
Lemma correct_Ok_iff sensor_var y_k k s s' :
  correct rot sensor_var y_k k s = Ok s' <->
  exists P p v q p' v' q' P',
    getitem (p_cov s) k = Ok P /\ getitem (p_est s) k = Ok p /\
    getitem (v_est s) k = Ok v /\ getitem (q_est s) k = Ok q /\
    measurement_update rot sensor_var P y_k p v q = Ok (p', v', q', P') /\
    s' = {| p_est := update k p' (p_est s);
            v_est := update k v' (v_est s);
            q_est := update k q' (q_est s);
            p_cov := update k P' (p_cov s);
            gnss_i := gnss_i s;
            lidar_i := lidar_i s |}.
Proof.
  unfold correct; split.
  - intros H.
    inv_bind H; inv_bind H; inv_bind H; inv_bind H; inv_bind H.
    destruct a3 as [[[p' v'] q'] P'].
    inv_bind H; inv_bind H; inv_bind H; inv_bind H; injection H as <-.
    repeat match goal with
           | E : setitem _ _ _ = Ok _ |- _ =>
               apply setitem_Ok_inv in E; destruct E as [_ ->]
           end.
    do 8 eexists; repeat (split; [eassumption |]); reflexivity.
  - intros (P & p & v & q & p' & v' & q' & P' & HP & Hp & Hv & Hq & Hmu & ->).
    rewrite HP, Hp, Hv, Hq; cbn [bind]; rewrite Hmu; cbn [bind].
    rewrite !setitem_Ok by (eapply getitem_Ok_lt; eassumption).
    reflexivity.
Qed.

(** C4.  A step of the scheduler returns [s3] exactly when the prediction
    ran and left [s1], then the GNSS rule took [s1] to [s2], then the LIDAR
    rule took [s2] to [s3].  The GNSS rule: when the GNSS cursor has
    unconsumed samples and the GNSS timestamp at the cursor equals the
    inertial timestamp at [k], [s2] is [s1] with the four results of
    [measurement_update], called with [var_gnss] on the observation at the
    cursor and on the entries at [k], stored at [k], and with the GNSS cursor
    advanced by one; when the cursor has no unconsumed sample or the two
    timestamps differ, [s2] is [s1].  The LIDAR rule is the same from [s2], on
    the inertial timestamp at [k-1], with [var_lidar] and the LIDAR cursor:
    it starts from the state the GNSS rule left. *)
Theorem scheduler_step k s s3 :
  step rot imu_f imu_w gnss lidar k s = Ok s3 <->
  exists s1 s2,
    predict rot imu_f imu_w k s = Ok s1 /\
    ((exists t_k y_k P p v q p' v' q' P',
         (gnss_i s1 < length (data gnss))%nat /\
         getitem (t imu_f) k = Ok t_k /\
         getitem (t gnss) (gnss_i s1) = Ok t_k /\
         getitem (data gnss) (gnss_i s1) = Ok y_k /\
         getitem (p_cov s1) k = Ok P /\ getitem (p_est s1) k = Ok p /\
         getitem (v_est s1) k = Ok v /\ getitem (q_est s1) k = Ok q /\
         measurement_update rot var_gnss P y_k p v q = Ok (p', v', q', P') /\
         s2 = {| p_est := update k p' (p_est s1);
                 v_est := update k v' (v_est s1);
                 q_est := update k q' (q_est s1);
                 p_cov := update k P' (p_cov s1);
                 gnss_i := gnss_i s1 + 1;
                 lidar_i := lidar_i s1 |})
     \/
     (s2 = s1 /\
      ((length (data gnss) <= gnss_i s1)%nat \/
       exists t_k t_g,
         (gnss_i s1 < length (data gnss))%nat /\
         getitem (t imu_f) k = Ok t_k /\
         getitem (t gnss) (gnss_i s1) = Ok t_g /\
         t_k <> t_g))) /\
    ((exists t_l y_k P p v q p' v' q' P',
         (lidar_i s2 < length (t lidar))%nat /\
         getitem (t lidar) (lidar_i s2) = Ok t_l /\
         getitem (t imu_f) (k - 1) = Ok t_l /\
         getitem (data lidar) (lidar_i s2) = Ok y_k /\
         getitem (p_cov s2) k = Ok P /\ getitem (p_est s2) k = Ok p /\
         getitem (v_est s2) k = Ok v /\ getitem (q_est s2) k = Ok q /\
         measurement_update rot var_lidar P y_k p v q = Ok (p', v', q', P') /\
         s3 = {| p_est := update k p' (p_est s2);
                 v_est := update k v' (v_est s2);
                 q_est := update k q' (q_est s2);
                 p_cov := update k P' (p_cov s2);
                 gnss_i := gnss_i s2;
                 lidar_i := lidar_i s2 + 1 |})
     \/
     (s3 = s2 /\
      ((length (t lidar) <= lidar_i s2)%nat \/
       exists t_l t_km,
         (lidar_i s2 < length (t lidar))%nat /\
         getitem (t lidar) (lidar_i s2) = Ok t_l /\
         getitem (t imu_f) (k - 1) = Ok t_km /\
         t_l <> t_km))).
Proof.
  unfold step; split.
  - intros H; inv_bind H; inv_bind H.
    exists a, a0; split; [assumption |].
    apply gnss_check_iff in E0; apply lidar_check_iff in H.
    split.
    + destruct E0 as [t_k y_k s'' Hlt Ht Htg Hy Hc | Hge
                     | t_k t_g Hlt Ht Htg Hne].
      * left; apply correct_Ok_iff in Hc.
        destruct Hc as (P & p & v & q & p' & v' & q' & P'
                        & HP & Hp & Hv & Hq & Hmu & ->).
        exists t_k, y_k, P, p, v, q, p', v', q', P'.
        repeat (split; [assumption |]); reflexivity.
      * right; split; [reflexivity | left; exact Hge].
      * right; split; [reflexivity | right; exists t_k, t_g; auto].
    + destruct H as [t_l y_k s'' Hlt Ht Htk Hy Hc | Hge
                    | t_l t_km Hlt Ht Htk Hne].
      * left; apply correct_Ok_iff in Hc.
        destruct Hc as (P & p & v & q & p' & v' & q' & P'
                        & HP & Hp & Hv & Hq & Hmu & ->).
        exists t_l, y_k, P, p, v, q, p', v', q', P'.
        repeat (split; [assumption |]); reflexivity.
      * right; split; [reflexivity | left; exact Hge].
      * right; split; [reflexivity | right; exists t_l, t_km; auto].
  - intros (s1 & s2 & Hp & Hg & Hl).
    rewrite Hp; cbn [bind].
    assert (Hg' : gnss_check rot imu_f gnss k s1 = Ok s2).
    { apply gnss_check_iff.
      destruct Hg as [(t_k & y_k & P & p & v & q & p' & v' & q' & P'
                       & Hlt & Ht & Htg & Hy & HP & Hpk & Hv & Hq & Hmu & ->)
                     | [-> [Hge | (t_k & t_g & Hlt & Ht & Htg & Hne)]]].
      - apply (gnss_applied rot imu_f gnss k s1 t_k y_k
                 {| p_est := update k p' (p_est s1);
                    v_est := update k v' (v_est s1);
                    q_est := update k q' (q_est s1);
                    p_cov := update k P' (p_cov s1);
                    gnss_i := gnss_i s1;
                    lidar_i := lidar_i s1 |}); try assumption.
        apply correct_Ok_iff.
        exists P, p, v, q, p', v', q', P'.
        repeat (split; [assumption |]); reflexivity.
      - apply gnss_exhausted; exact Hge.
      - eapply gnss_not_yet; eassumption. }
    rewrite Hg'; cbn [bind].
    apply lidar_check_iff.
    destruct Hl as [(t_l & y_k & P & p & v & q & p' & v' & q' & P'
                     & Hlt & Ht & Htk & Hy & HP & Hpk & Hv & Hq & Hmu & ->)
                   | [-> [Hge | (t_l & t_km & Hlt & Ht & Htk & Hne)]]].
    + apply (lidar_applied rot imu_f lidar k s2 t_l y_k
               {| p_est := update k p' (p_est s2);
                  v_est := update k v' (v_est s2);
                  q_est := update k q' (q_est s2);
                  p_cov := update k P' (p_cov s2);
                  gnss_i := gnss_i s2;
                  lidar_i := lidar_i s2 |}); try assumption.
      apply correct_Ok_iff.
      exists P, p, v, q, p', v', q', P'.
      repeat (split; [assumption |]); reflexivity.
    + apply lidar_exhausted; exact Hge.
    + eapply lidar_not_yet; eassumption.
Qed.

End Scheduler.

Section LoopFacts.

Variable rot : Rotations.
Variables imu_f imu_w gnss lidar : StampedData.

Lemma loop_app ks1 ks2 s :
  loop rot imu_f imu_w gnss lidar (ks1 ++ ks2) s =
  (s' <- loop rot imu_f imu_w gnss lidar ks1 s ;;
   loop rot imu_f imu_w gnss lidar ks2 s').
Proof.
  revert s; induction ks1 as [| k ks1 IH]; intros s; cbn [loop app bind].
  - reflexivity.
  - destruct (step rot imu_f imu_w gnss lidar k s) as [s1 | e]; cbn [bind].
    + apply IH.
    + reflexivity.
Qed.

(** A prefix of the run, one step longer. *)
Lemma loop_snoc m s0 s' :
  loop rot imu_f imu_w gnss lidar (seq 1 (S m)) s0 = Ok s' ->
  exists s,
    loop rot imu_f imu_w gnss lidar (seq 1 m) s0 = Ok s /\
    step rot imu_f imu_w gnss lidar (S m) s = Ok s'.
Proof.
  rewrite seq_S, loop_app; intros H; inv_bind H.
  exists a; split; [assumption |].
  cbn [loop Nat.add] in H; inv_bind H; injection H as <-; assumption.
Qed.

Lemma step_Ok_inv k s s3 :
  step rot imu_f imu_w gnss lidar k s = Ok s3 ->
  exists s1 s2,
    predict rot imu_f imu_w k s = Ok s1 /\
    gnss_check rot imu_f gnss k s1 = Ok s2 /\
    lidar_check rot imu_f lidar k s2 = Ok s3.
Proof.
  unfold step; intros H; inv_bind H; inv_bind H; eauto.
Qed.

(** What a correction leaves: the cursors and the entries off [k] as they
    were, and at [k] the orientation composed on the left with the
    quaternion of an error rotation. *)
Lemma correct_Ok_inv sensor_var y_k k s s' :
  correct rot sensor_var y_k k s = Ok s' ->
  gnss_i s' = gnss_i s /\ lidar_i s' = lidar_i s /\
  exists q_check a,
    getitem (q_est s) k = Ok q_check /\
    q_est s' =
      update k (quat_mult_left rot (Quaternion_euler rot a) q_check) (q_est s).
Proof.
  unfold correct; intros H.
  inv_bind H; inv_bind H; inv_bind H; inv_bind H; inv_bind H.
  destruct a3 as [[[p_hat v_hat] q_hat] p_cov_hat].
  inv_bind H; inv_bind H; inv_bind H; inv_bind H; injection H as <-.
  cbn [gnss_i lidar_i q_est].
  split; [reflexivity |]; split; [reflexivity |].
  unfold measurement_update in E3; inv_bind E3; injection E3 as <- <- <- <-.
  apply setitem_Ok_inv in E6; destruct E6 as [_ ->].
  eauto.
Qed.

Lemma predict_cursors k s s' :
  predict rot imu_f imu_w k s = Ok s' ->
  gnss_i s' = gnss_i s /\ lidar_i s' = lidar_i s.
Proof.
  intros H; apply predict_Ok_inv in H.
  destruct H as (? & ? & ? & ? & ? & ? & ? & ? & _ & _ & _ & _ & _ & ->).
  split; reflexivity.
Qed.

End LoopFacts.

Section Cursors.

Variable rot : Rotations.
Variables imu_f imu_w gnss lidar : StampedData.
Variable gt : GroundTruth.

Lemma init_cursors s0 :
  init rot imu_f gt = Ok s0 -> gnss_i s0 = 0%nat /\ lidar_i s0 = 0%nat.
Proof.
  unfold init; intros H.
  inv_bind H; inv_bind H; inv_bind H; inv_bind H.
  inv_bind H; inv_bind H; inv_bind H.
  injection H as <-; split; reflexivity.
Qed.

(** C10.  With strictly increasing inertial timestamps, after any number
    [m <= N-1] of iterations from the initial state: the GNSS cursor has not
    passed a GNSS sample whose timestamp is the inertial timestamp at index
    0, and the LIDAR cursor has not passed a LIDAR sample whose timestamp is
    the inertial timestamp at index [N-1]; such samples are never
    consumed. *)
Theorem boundary_samples_never_consumed s0 m s :
  increasing (t imu_f) ->
  init rot imu_f gt = Ok s0 ->
  (m <= n_imu imu_f - 1)%nat ->
  loop rot imu_f imu_w gnss lidar (seq 1 m) s0 = Ok s ->
  (forall j t_0,
      getitem (t imu_f) 0 = Ok t_0 -> getitem (t gnss) j = Ok t_0 ->
      (gnss_i s <= j)%nat) /\
  (forall j t_last,
      getitem (t imu_f) (n_imu imu_f - 1) = Ok t_last ->
      getitem (t lidar) j = Ok t_last ->
      (lidar_i s <= j)%nat).
Proof.
  intros Hinc Hinit; apply init_cursors in Hinit; destruct Hinit as [Hg0 Hl0].
  revert s; induction m as [| m IH]; intros s Hm Hrun.
  - cbn [seq loop] in Hrun; injection Hrun as <-.
    rewrite Hg0, Hl0; split; intros; lia.
  - apply loop_snoc in Hrun; destruct Hrun as (s' & Hrun & Hstep).
    specialize (IH s' ltac:(lia) Hrun); destruct IH as [IHg IHl].
    apply step_Ok_inv in Hstep; destruct Hstep as (s1 & s2 & Hp & Hg & Hl).
    apply predict_cursors in Hp; destruct Hp as [Hpg Hpl].
    apply gnss_check_iff in Hg; apply lidar_check_iff in Hl.
    assert (Hg2 : (forall j t_0,
               getitem (t imu_f) 0 = Ok t_0 -> getitem (t gnss) j = Ok t_0 ->
               (gnss_i s2 <= j)%nat) /\ lidar_i s2 = lidar_i s').
    { destruct Hg as [t_k y_k s'' Hlt Ht Htg Hy Hc | Hge | t_k t_g Hlt Ht Htg Hne].
      - apply correct_Ok_inv in Hc; destruct Hc as (Hcg & Hcl & _).
        cbn [advance_gnss gnss_i lidar_i]; split; [| congruence].
        intros j t_0 H0 Hj.
        specialize (IHg j t_0 H0 Hj).
        assert (gnss_i s1 <> j).
        { intros E; subst j; rewrite Hj in Htg; injection Htg as <-.
          pose proof (Hinc 0%nat (S m) t_0 t_0 ltac:(lia) H0 Ht); lra. }
        lia.
      - split; [| congruence].
        intros j t_0 H0 Hj; specialize (IHg j t_0 H0 Hj); lia.
      - split; [| congruence].
        intros j t_0 H0 Hj; specialize (IHg j t_0 H0 Hj); lia. }
    destruct Hg2 as [Hg2 Hl2].
    destruct Hl as [t_l y_k s'' Hlt Ht Htk Hy Hc | Hge | t_l t_km Hlt Ht Htk Hne].
    + apply correct_Ok_inv in Hc; destruct Hc as (Hcg & Hcl & _).
      cbn [advance_lidar gnss_i lidar_i]; split.
      * intros j t_0 H0 Hj; specialize (Hg2 j t_0 H0 Hj); lia.
      * intros j t_last HN Hj.
        specialize (IHl j t_last HN Hj).
        assert (lidar_i s2 <> j).
        { intros E; subst j; rewrite Hj in Ht; injection Ht as <-.
          pose proof (Hinc (S m - 1)%nat (n_imu imu_f - 1)%nat t_last t_last
                        ltac:(lia) Htk HN); lra. }
        lia.
    + split; [exact Hg2 |].
      intros j t_last HN Hj; specialize (IHl j t_last HN Hj); lia.
    + split; [exact Hg2 |].
      intros j t_last HN Hj; specialize (IHl j t_last HN Hj); lia.
Qed.

End Cursors.

Section UnitNorm.

Variable rot : Rotations.
Variables imu_f imu_w gnss lidar : StampedData.

(** What the invariant needs of the rotation algebra: composing a unit
    quaternion with the quaternion of an axis-angle vector (on the right) or
    of Euler angles (on the left) gives a unit quaternion. *)
Hypothesis mult_right_unit :
  forall a q,
    norm q = 1 ->
    norm (quat_mult_right rot (Quaternion_axis_angle rot a) q) = 1.
Hypothesis mult_left_unit :
  forall a q,
    norm q = 1 ->
    norm (quat_mult_left rot (Quaternion_euler rot a) q) = 1.

Lemma oriented_update m k q s s' :
  oriented m s ->
  (k <= S m)%nat ->
  (k < length (q_est s))%nat ->
  q_est s' = update k q (q_est s) ->
  norm q = 1 ->
  oriented (Nat.max m k) s'.
Proof.
  intros Hs Hkm Hk Hq Hn j q' Hj Hget.
  rewrite Hq in Hget.
  destruct (Nat.eq_dec k j) as [<- | Hne].
  - rewrite getitem_update_same in Hget by exact Hk.
    injection Hget as <-; exact Hn.
  - rewrite getitem_update_other in Hget by exact Hne.
    destruct (Nat.le_gt_cases j m) as [Hle | Hgt]; [eapply Hs; eassumption |].
    lia.
Qed.

Lemma predict_oriented m s s1 :
  oriented m s ->
  predict rot imu_f imu_w (S m) s = Ok s1 ->
  oriented (S m) s1.
Proof.
  intros Hs H; apply predict_Ok_inv in H.
  destruct H as (t_k & t_km & p_km & v_km & q_km & f_km & w_km & p_cov_km
                 & Hr & _ & _ & Hq & _ & ->).
  destruct Hr as [_ _ _ _ Hqk _ _ _].
  replace (S m) with (Nat.max m (S m)) at 1 by lia.
  eapply oriented_update; [exact Hs | | exact Hq | reflexivity |].
  - lia.
  - cbn [nominal_update snd].
    apply mult_right_unit, (Hs (S m - 1)%nat); [lia | exact Hqk].
Qed.

Lemma correct_oriented sensor_var y_k m s s' :
  oriented m s ->
  correct rot sensor_var y_k m s = Ok s' ->
  oriented m s'.
Proof.
  intros Hs H.
  pose proof H as Hlen.
  apply correct_Ok_inv in H.
  destruct H as (Hg & _ & q_check & a & Hq & Hq').
  replace m with (Nat.max m m) at 1 by lia.
  eapply oriented_update; [exact Hs | | | exact Hq' |].
  - lia.
  - eapply getitem_Ok_lt; exact Hq.
  - apply mult_left_unit, (Hs m); [lia | exact Hq].
Qed.

Lemma gnss_check_oriented m s s' :
  oriented m s ->
  gnss_check rot imu_f gnss m s = Ok s' ->
  oriented m s'.
Proof.
  intros Hs H; apply gnss_check_iff in H.
  destruct H as [t_k y_k s'' _ _ _ _ Hc | _ | t_k t_g _ _ _ _];
    try exact Hs.
  exact (correct_oriented _ _ _ _ _ Hs Hc).
Qed.

Lemma lidar_check_oriented m s s' :
  oriented m s ->
  lidar_check rot imu_f lidar m s = Ok s' ->
  oriented m s'.
Proof.
  intros Hs H; apply lidar_check_iff in H.
  destruct H as [t_l y_k s'' _ _ _ _ Hc | _ | t_l t_km _ _ _ _];
    try exact Hs.
  exact (correct_oriented _ _ _ _ _ Hs Hc).
Qed.

Lemma loop_oriented m s0 s :
  oriented 0 s0 ->
  loop rot imu_f imu_w gnss lidar (seq 1 m) s0 = Ok s ->
  oriented m s.
Proof.
  intros H0; revert s; induction m as [| m IH]; intros s Hrun.
  - cbn [seq loop] in Hrun; injection Hrun as <-; exact H0.
  - apply loop_snoc in Hrun; destruct Hrun as (s' & Hrun & Hstep).
    apply step_Ok_inv in Hstep; destruct Hstep as (s1 & s2 & Hp & Hg & Hl).
    eapply lidar_check_oriented; [| exact Hl].
    eapply gnss_check_oriented; [| exact Hg].
    eapply predict_oriented; [| exact Hp].
    apply IH; exact Hrun.
Qed.

(** C7.  If the initial orientation has unit norm, then after [m]
    iterations every orientation stored up to [m] has unit norm, and in the
    next iteration this holds of the orientations up to [m+1] right after
    the prediction, after the GNSS rule and after the LIDAR rule. *)
Theorem unit_norm_invariant m s0 s :
  oriented 0 s0 ->
  loop rot imu_f imu_w gnss lidar (seq 1 m) s0 = Ok s ->
  oriented m s /\
  forall s1,
    predict rot imu_f imu_w (S m) s = Ok s1 ->
    oriented (S m) s1 /\
    forall s2,
      gnss_check rot imu_f gnss (S m) s1 = Ok s2 ->
      oriented (S m) s2 /\
      forall s3,
        lidar_check rot imu_f lidar (S m) s2 = Ok s3 ->
        oriented (S m) s3.
Proof.
  intros H0 Hrun.
  pose proof (loop_oriented m s0 s H0 Hrun) as Hm.
  split; [exact Hm |].
  intros s1 Hp.
  pose proof (predict_oriented m s s1 Hm Hp) as H1.
  split; [exact H1 |].
  intros s2 Hg.
  pose proof (gnss_check_oriented (S m) s1 s2 H1 Hg) as H2.
  split; [exact H2 |].
  intros s3 Hl.
  exact (lidar_check_oriented (S m) s2 s3 H2 Hl).
Qed.

End UnitNorm.

(** ** The rotation algebra [StdRotations] keeps unit norm *)

Lemma sumsq_nonneg a : 0 <= sumsq a.
Proof.
  unfold sumsq, inner; induction a as [| x a IH]; cbn [zip_with fold_right].
  - lra.
  - pose proof (sq_nonneg x); lra.
Qed.

Lemma norm_one_iff a : norm a = 1 <-> sumsq a = 1.
Proof.
  unfold norm; split; intros H.
  - rewrite <- (sqrt_sqrt (sumsq a)) by apply sumsq_nonneg.
    rewrite H; ring.
  - rewrite H; apply sqrt_1.
Qed.

Lemma compose_sumsq a b :
  sumsq (StdRotations.to_array (StdRotations.compose a b)) =
  sumsq (StdRotations.to_array a) * sumsq (StdRotations.to_array b).
Proof. destruct a, b; np_eval; ring. Qed.

Lemma sin2_cos2' x : cos x * cos x + sin x * sin x = 1.
Proof. pose proof (sin2_cos2 x) as H; unfold Rsqr in H; lra. Qed.

Lemma axis_angle_sumsq a :
  sumsq (StdRotations.to_array (StdRotations.axis_angle a)) = 1.
Proof.
  unfold StdRotations.axis_angle.
  destruct a as [| x [| y [| z [| ? ?]]]]; try (np_eval; ring).
  destruct (Req_dec_T (norm [x; y; z]) 0) as [Hz | Hnz]; [np_eval; ring |].
  assert (Hn : norm [x; y; z] * norm [x; y; z] = x * x + y * y + z * z).
  { unfold norm; rewrite sqrt_sqrt by apply sumsq_nonneg. np_eval; ring. }
  set (n := norm [x; y; z]) in *.
  pose proof (sin2_cos2' (n / 2)) as Htrig.
  cbv [sumsq inner zip_with fold_right StdRotations.to_array
       StdRotations.qw StdRotations.qx StdRotations.qy StdRotations.qz].
  replace (cos (n / 2) * cos (n / 2) +
           (x / n * sin (n / 2) * (x / n * sin (n / 2)) +
            (y / n * sin (n / 2) * (y / n * sin (n / 2)) +
             (z / n * sin (n / 2) * (z / n * sin (n / 2)) + 0))))
    with (cos (n / 2) * cos (n / 2)
          + (x * x + y * y + z * z) / (n * n) * (sin (n / 2) * sin (n / 2)))
    by (field; exact Hnz).
  rewrite <- Hn.
  replace (n * n / (n * n)) with 1 by (field; exact Hnz).
  lra.
Qed.

Lemma euler_sumsq a :
  sumsq (StdRotations.to_array (StdRotations.euler a)) = 1.
Proof.
  unfold StdRotations.euler.
  pose proof (sin2_cos2' (nth 0 a 0 / 2)) as Hr.
  pose proof (sin2_cos2' (nth 1 a 0 / 2)) as Hp.
  pose proof (sin2_cos2' (nth 2 a 0 / 2)) as Hy.
  set (cr := cos (nth 0 a 0 / 2)) in *. set (sr := sin (nth 0 a 0 / 2)) in *.
  set (cp := cos (nth 1 a 0 / 2)) in *. set (sp := sin (nth 1 a 0 / 2)) in *.
  set (cy := cos (nth 2 a 0 / 2)) in *. set (sy := sin (nth 2 a 0 / 2)) in *.
  cbv [sumsq inner zip_with fold_right StdRotations.to_array
       StdRotations.qw StdRotations.qx StdRotations.qy StdRotations.qz].
  transitivity ((cr * cr + sr * sr) * (cp * cp + sp * sp) * (cy * cy + sy * sy));
    [ring | rewrite Hr, Hp, Hy; ring].
Qed.

Lemma std_mult_right_unit :
  forall a q,
    norm q = 1 ->
    norm (quat_mult_right StdRotations.rotations
            (Quaternion_axis_angle StdRotations.rotations a) q) = 1.
Proof.
  intros a q Hq.
  cbn [quat_mult_right Quaternion_axis_angle StdRotations.rotations].
  unfold StdRotations.mult_right.
  destruct q as [| w [| x [| y [| z [| ? ?]]]]]; try exact Hq.
  apply norm_one_iff; apply norm_one_iff in Hq.
  rewrite compose_sumsq, axis_angle_sumsq.
  change (sumsq (StdRotations.to_array (StdRotations.wxyz [w; x; y; z])))
    with (sumsq [w; x; y; z]).
  rewrite Hq; ring.
Qed.

Lemma std_mult_left_unit :
  forall a q,
    norm q = 1 ->
    norm (quat_mult_left StdRotations.rotations
            (Quaternion_euler StdRotations.rotations a) q) = 1.
Proof.
  intros a q Hq.
  cbn [quat_mult_left Quaternion_euler StdRotations.rotations].
  unfold StdRotations.mult_left.
  destruct q as [| w [| x [| y [| z [| ? ?]]]]]; try exact Hq.
  apply norm_one_iff; apply norm_one_iff in Hq.
  rewrite compose_sumsq, euler_sumsq.
  change (sumsq (StdRotations.to_array (StdRotations.wxyz [w; x; y; z])))
    with (sumsq [w; x; y; z]).
  rewrite Hq; ring.
Qed.

(** ** Runs of the filter *)

Lemma scenario_oriented : oriented 0 Scenario.s0.
Proof.
  intros k q Hk Hq.
  assert (k = 0%nat) by lia; subst k.
  injection Hq as <-.
  apply norm_one_iff; np_eval; ring.
Qed.

Lemma unit_norm_invariant_witness :
  exists s,
    loop StdRotations.rotations Scenario.imu_f Scenario.imu_w
      Boundary.no_samples Boundary.no_samples (seq 1 1) Scenario.s0 = Ok s /\
    oriented 1 s.
Proof.
  eexists; split; [reflexivity |].
  apply (unit_norm_invariant StdRotations.rotations
           Scenario.imu_f Scenario.imu_w Boundary.no_samples Boundary.no_samples
           std_mult_right_unit std_mult_left_unit 1 Scenario.s0 _
           scenario_oriented eq_refl).
Defined.

Lemma scenario_increasing : increasing (t Scenario.imu_f).
Proof.
  intros i j t_i t_j Hij Hi Hj.
  pose proof (getitem_Ok_lt _ _ _ Hi) as Li.
  pose proof (getitem_Ok_lt _ _ _ Hj) as Lj.
  cbn [Scenario.imu_f t length] in Li, Lj.
  destruct i as [| [| i]], j as [| [| j]]; try lia.
  injection Hi as <-; injection Hj as <-; lra.
Qed.

Lemma boundary_samples_never_consumed_witness :
  exists s0 s,
    init StdRotations.rotations Scenario.imu_f Boundary.gt = Ok s0 /\
    loop StdRotations.rotations Scenario.imu_f Scenario.imu_w
      Boundary.gnss Boundary.lidar (seq 1 1) s0 = Ok s /\
    (forall j t_0,
        getitem (t Scenario.imu_f) 0 = Ok t_0 ->
        getitem (t Boundary.gnss) j = Ok t_0 -> (gnss_i s <= j)%nat) /\
    (forall j t_last,
        getitem (t Scenario.imu_f) (n_imu Scenario.imu_f - 1) = Ok t_last ->
        getitem (t Boundary.lidar) j = Ok t_last -> (lidar_i s <= j)%nat).
Proof.
  eexists; eexists.
  split; [reflexivity |].
  assert (Hrun :
    loop StdRotations.rotations Scenario.imu_f Scenario.imu_w
      Boundary.gnss Boundary.lidar (seq 1 1)
      {| p_est := [[0; 0; 0]; [0; 0; 0]];
         v_est := [[0; 0; 0]; [0; 0; 0]];
         q_est := [to_numpy StdRotations.rotations
                     (Quaternion_euler StdRotations.rotations [0; 0; 0]);
                   [0; 0; 0; 0]];
         p_cov := [zeros 9 9; zeros 9 9];
         gnss_i := 0;
         lidar_i := 0 |}
    = Ok (predicted StdRotations.rotations 1
            {| p_est := [[0; 0; 0]; [0; 0; 0]];
               v_est := [[0; 0; 0]; [0; 0; 0]];
               q_est := [to_numpy StdRotations.rotations
                           (Quaternion_euler StdRotations.rotations [0; 0; 0]);
                         [0; 0; 0; 0]];
               p_cov := [zeros 9 9; zeros 9 9];
               gnss_i := 0;
               lidar_i := 0 |}
            0.1 0 [0; 0; 0] [0; 0; 0]
            (to_numpy StdRotations.rotations
               (Quaternion_euler StdRotations.rotations [0; 0; 0]))
            [0; 0; 9.81] [0; 0; 0] (zeros 9 9))).
  { cbn [seq loop]; unfold step.
    rewrite (predict_Ok StdRotations.rotations Scenario.imu_f Scenario.imu_w
               1 2 _ 0.1 0 [0; 0; 0] [0; 0; 0]
               (to_numpy StdRotations.rotations
                  (Quaternion_euler StdRotations.rotations [0; 0; 0]))
               [0; 0; 9.81] [0; 0; 0] (zeros 9 9));
      [| repeat split | lia | constructor; reflexivity].
    cbn [bind].
    match goal with
    | |- context [gnss_check ?r ?f ?g ?k ?s] =>
        assert (Hg : gnss_check r f g k s = Ok s)
    end.
    { apply gnss_check_iff.
      eapply (gnss_not_yet _ _ _ _ _ 0.1 0);
        [cbn; lia | reflexivity | reflexivity | lra]. }
    rewrite Hg; cbn [bind].
    match goal with
    | |- context [lidar_check ?r ?f ?g ?k ?s] =>
        assert (Hl : lidar_check r f g k s = Ok s)
    end.
    { apply lidar_check_iff.
      eapply (lidar_not_yet _ _ _ _ _ 0.1 0);
        [cbn; lia | reflexivity | reflexivity | lra]. }
    rewrite Hl; reflexivity. }
  split; [exact Hrun |].
  exact (boundary_samples_never_consumed StdRotations.rotations
           Scenario.imu_f Scenario.imu_w Boundary.gnss Boundary.lidar
           Boundary.gt _ 1 _ scenario_increasing eq_refl (le_n 1) Hrun).
Defined.

Section NonPositiveTimestep.

Variable rot : Rotations.
Variables imu_f imu_w : StampedData.

(** C9, as the code has it.  The elapsed time is not checked: also when it
    is zero or negative, the prediction runs and stores at [k] the position,
    velocity, orientation and covariance of the same formulas; no fault is
    raised for it. *)
Theorem nonpositive_timestep_propagates
    k n s t_k t_km p_km v_km q_km f_km w_km p_cov_km :
  sized n s -> (1 <= k < n)%nat ->
  reads imu_f imu_w k s t_k t_km p_km v_km q_km f_km w_km p_cov_km ->
  t_k - t_km <= 0 ->
  let delta_t := t_k - t_km in
  let C_ns_d_f_km := dotv (to_mat rot (Quaternion_wxyz rot q_km)) f_km in
  exists s',
    predict rot imu_f imu_w k s = Ok s' /\
    getitem (p_est s') k =
      Ok (add (add p_km (smul delta_t v_km))
              (smul (delta_t ^ 2 / 2) (add C_ns_d_f_km g))) /\
    getitem (v_est s') k =
      Ok (add v_km (smul delta_t (add C_ns_d_f_km g))) /\
    getitem (q_est s') k =
      Ok (quat_mult_right rot
            (Quaternion_axis_angle rot (muls w_km delta_t)) q_km) /\
    getitem (p_cov s') k =
      Ok (covariance_update rot delta_t C_ns_d_f_km p_cov_km).
Proof.
  intros Hs Hk Hr _ delta_t C_ns_d_f_km.
  exact (predict_stores rot imu_f imu_w k n s _ _ _ _ _ _ _ _
           Hs (proj2 Hk) Hr).
Qed.

End NonPositiveTimestep.

Lemma backwards_reads :
  reads Backwards.imu_f Backwards.imu_w 1 Scenario.s0 0 1
    [0; 0; 0] [0; 0; 0] [1; 0; 0; 0] [0; 0; 9.81] [0; 0; 0] (zeros 9 9).
Proof. constructor; reflexivity. Qed.

Lemma nonpositive_timestep_propagates_witness :
  exists s',
    predict StdRotations.rotations Backwards.imu_f Backwards.imu_w 1
      Scenario.s0 = Ok s' /\
    exists p_k, getitem (p_est s') 1 = Ok p_k.
Proof.
  destruct (nonpositive_timestep_propagates StdRotations.rotations
              Backwards.imu_f Backwards.imu_w 1 2 Scenario.s0 0 1
              [0; 0; 0] [0; 0; 0] [1; 0; 0; 0] [0; 0; 9.81] [0; 0; 0]
              (zeros 9 9) scenario_sized (conj (le_n 1) (le_n 2))
              backwards_reads)
    as (s' & Hrun & Hp & _).
  - lra.
  - exists s'; split; [exact Hrun | eexists; exact Hp].
Defined.

Lemma half_zero : 0 / 2 = 0.
Proof. field. Qed.

(** C9, as stated, fails: with the second inertial timestamp before the
    first (elapsed time -1) the run is not aborted, and the step is
    propagated with the negative time: the body that moves at velocity
    (1, 0, 0) from the origin is put at (-1, 0, 0). *)
Lemma invalid_timestep_counterexample :
  (forall t_1 t_0,
      getitem (t Backwards.imu_f) 1 = Ok t_1 ->
      getitem (t Backwards.imu_f) 0 = Ok t_0 -> t_1 - t_0 <= 0) /\
  exists s,
    es_ekf StdRotations.rotations Backwards.imu_f Backwards.imu_w
      Boundary.no_samples Boundary.no_samples Backwards.gt = Ok s /\
    getitem (p_est s) 1 = Ok [-1; 0; 0] /\
    getitem (v_est s) 1 = Ok [1; 0; 0].
Proof.
  split.
  - intros t_1 t_0 H1 H0; injection H1 as <-; injection H0 as <-; lra.
  - eexists; split; [reflexivity |].
    split; np_eval; rewrite !half_zero, cos_0, sin_0; array_eq; field.
Qed.

(** * Further properties of the filter *)

(** ** What a step writes *)

Section Frame.

Variable rot : Rotations.
Variables imu_f imu_w gnss lidar : StampedData.

(** The arrays of two states agree off index [k] and have the same sizes. *)
Lemma predicted_frame k s t_k t_km p_km v_km q_km f_km w_km p_cov_km j :
  j <> k ->
  let s' := predicted rot k s t_k t_km p_km v_km q_km f_km w_km p_cov_km in
  getitem (p_est s') j = getitem (p_est s) j /\
  getitem (v_est s') j = getitem (v_est s) j /\
  getitem (q_est s') j = getitem (q_est s) j /\
  getitem (p_cov s') j = getitem (p_cov s) j.
Proof.
  intros Hj; cbn [predicted p_est v_est q_est p_cov].
  repeat split; apply getitem_update_other; congruence.
Qed.

Lemma correct_frame sensor_var y_k k s s' :
  correct rot sensor_var y_k k s = Ok s' ->
  (length (p_est s') = length (p_est s) /\
   length (v_est s') = length (v_est s) /\
   length (q_est s') = length (q_est s) /\
   length (p_cov s') = length (p_cov s)) /\
  forall j, j <> k ->
    getitem (p_est s') j = getitem (p_est s) j /\
    getitem (v_est s') j = getitem (v_est s) j /\
    getitem (q_est s') j = getitem (q_est s) j /\
    getitem (p_cov s') j = getitem (p_cov s) j.
Proof.
  unfold correct; intros H.
  inv_bind H; inv_bind H; inv_bind H; inv_bind H; inv_bind H.
  destruct a3 as [[[p_hat v_hat] q_hat] p_cov_hat].
  inv_bind H; inv_bind H; inv_bind H; inv_bind H; injection H as <-.
  repeat match goal with
         | E : setitem _ _ _ = Ok _ |- _ =>
             apply setitem_Ok_inv in E; destruct E as [_ ->]
         end.
  cbn [p_est v_est q_est p_cov]; split.
  - rewrite !length_update; repeat split; reflexivity.
  - intros j Hj; repeat split; apply getitem_update_other; congruence.
Qed.

Lemma step_frame_aux k s s' :
  step rot imu_f imu_w gnss lidar k s = Ok s' ->
  (length (p_est s') = length (p_est s) /\
   length (v_est s') = length (v_est s) /\
   length (q_est s') = length (q_est s) /\
   length (p_cov s') = length (p_cov s)) /\
  forall j, j <> k ->
    getitem (p_est s') j = getitem (p_est s) j /\
    getitem (v_est s') j = getitem (v_est s) j /\
    getitem (q_est s') j = getitem (q_est s) j /\
    getitem (p_cov s') j = getitem (p_cov s) j.
Proof.
  intros H; apply step_Ok_inv in H; destruct H as (s1 & s2 & Hp & Hg & Hl).
  assert (H1 : (length (p_est s1) = length (p_est s) /\
                length (v_est s1) = length (v_est s) /\
                length (q_est s1) = length (q_est s) /\
                length (p_cov s1) = length (p_cov s)) /\
               forall j, j <> k ->
                 getitem (p_est s1) j = getitem (p_est s) j /\
                 getitem (v_est s1) j = getitem (v_est s) j /\
                 getitem (q_est s1) j = getitem (q_est s) j /\
                 getitem (p_cov s1) j = getitem (p_cov s) j).
  { apply predict_Ok_inv in Hp.
    destruct Hp as (? & ? & ? & ? & ? & ? & ? & ? & _ & _ & _ & _ & _ & ->).
    split; [| intros j Hj; apply predicted_frame; exact Hj].
    cbn [predicted p_est v_est q_est p_cov]; rewrite !length_update.
    repeat split; reflexivity. }
  assert (H2 : (length (p_est s2) = length (p_est s1) /\
                length (v_est s2) = length (v_est s1) /\
                length (q_est s2) = length (q_est s1) /\
                length (p_cov s2) = length (p_cov s1)) /\
               forall j, j <> k ->
                 getitem (p_est s2) j = getitem (p_est s1) j /\
                 getitem (v_est s2) j = getitem (v_est s1) j /\
                 getitem (q_est s2) j = getitem (q_est s1) j /\
                 getitem (p_cov s2) j = getitem (p_cov s1) j).
  { apply gnss_check_iff in Hg.
    destruct Hg as [t_k y_k s'' _ _ _ _ Hc | _ | t_k t_g _ _ _ _];
      [exact (correct_frame _ _ _ _ _ Hc) | |];
      (split; [repeat split; reflexivity | intros; repeat split; reflexivity]). }
  assert (H3 : (length (p_est s') = length (p_est s2) /\
                length (v_est s') = length (v_est s2) /\
                length (q_est s') = length (q_est s2) /\
                length (p_cov s') = length (p_cov s2)) /\
               forall j, j <> k ->
                 getitem (p_est s') j = getitem (p_est s2) j /\
                 getitem (v_est s') j = getitem (v_est s2) j /\
                 getitem (q_est s') j = getitem (q_est s2) j /\
                 getitem (p_cov s') j = getitem (p_cov s2) j).
  { apply lidar_check_iff in Hl.
    destruct Hl as [t_l y_k s'' _ _ _ _ Hc | _ | t_l t_km _ _ _ _];
      [exact (correct_frame _ _ _ _ _ Hc) | |];
      (split; [repeat split; reflexivity | intros; repeat split; reflexivity]). }
  destruct H1 as [(L1 & L2 & L3 & L4) F1], H2 as [(M1 & M2 & M3 & M4) F2],
    H3 as [(N1 & N2 & N3 & N4) F3].
  split; [repeat split; congruence |].
  intros j Hj.
  destruct (F1 j Hj) as (A1 & A2 & A3 & A4), (F2 j Hj) as (B1 & B2 & B3 & B4),
    (F3 j Hj) as (D1 & D2 & D3 & D4).
  repeat split; congruence.
Qed.

(** X1.  An iteration of the loop keeps the sizes of the four arrays and
    writes index [k] only: every other entry, of the past and of the future,
    is left as it was. *)
Theorem step_writes_index_k_only k n s s' :
  sized n s ->
  step rot imu_f imu_w gnss lidar k s = Ok s' ->
  sized n s' /\
  forall j, j <> k ->
    getitem (p_est s') j = getitem (p_est s) j /\
    getitem (v_est s') j = getitem (v_est s) j /\
    getitem (q_est s') j = getitem (q_est s) j /\
    getitem (p_cov s') j = getitem (p_cov s) j.
Proof.
  intros (Hp & Hv & Hq & Hc) H.
  destruct (step_frame_aux k s s' H) as [(L1 & L2 & L3 & L4) HF].
  split; [repeat split; congruence | exact HF].
Qed.

End Frame.

Lemma scenario_step :
  step StdRotations.rotations Scenario.imu_f Scenario.imu_w
    Boundary.no_samples Boundary.no_samples 1 Scenario.s0
  = Ok (predicted StdRotations.rotations 1 Scenario.s0 0.1 0
          [0; 0; 0] [0; 0; 0] [1; 0; 0; 0] [0; 0; 9.81] [0; 0; 0] (zeros 9 9)).
Proof. reflexivity. Qed.

Lemma step_writes_index_k_only_witness :
  sized 2
    (predicted StdRotations.rotations 1 Scenario.s0 0.1 0
       [0; 0; 0] [0; 0; 0] [1; 0; 0; 0] [0; 0; 9.81] [0; 0; 0] (zeros 9 9)) /\
  forall j, j <> 1%nat ->
    getitem
      (p_est (predicted StdRotations.rotations 1 Scenario.s0 0.1 0
                [0; 0; 0] [0; 0; 0] [1; 0; 0; 0] [0; 0; 9.81] [0; 0; 0]
                (zeros 9 9))) j
    = getitem (p_est Scenario.s0) j.
Proof.
  destruct (step_writes_index_k_only StdRotations.rotations
              Scenario.imu_f Scenario.imu_w Boundary.no_samples
              Boundary.no_samples 1 2 Scenario.s0 _
              scenario_sized scenario_step) as [Hs HF].
  split; [exact Hs |].
  intros j Hj; exact (proj1 (HF j Hj)).
Defined.

(** ** The cursors *)

Section CursorBounds.

Variable rot : Rotations.
Variables imu_f imu_w gnss lidar : StampedData.
Variable gt : GroundTruth.

Lemma step_cursors k s s' :
  step rot imu_f imu_w gnss lidar k s = Ok s' ->
  (gnss_i s' = gnss_i s \/
   (gnss_i s' = gnss_i s + 1 /\ gnss_i s < length (data gnss))%nat) /\
  (lidar_i s' = lidar_i s \/
   (lidar_i s' = lidar_i s + 1 /\ lidar_i s < length (t lidar))%nat).
Proof.
  intros H; apply step_Ok_inv in H; destruct H as (s1 & s2 & Hp & Hg & Hl).
  apply predict_cursors in Hp; destruct Hp as [Hpg Hpl].
  apply gnss_check_iff in Hg; apply lidar_check_iff in Hl.
  assert (Hg2 : (gnss_i s2 = gnss_i s \/
                 (gnss_i s2 = gnss_i s + 1 /\
                  gnss_i s < length (data gnss))%nat) /\
                lidar_i s2 = lidar_i s).
  { destruct Hg as [t_k y_k s'' Hlt _ _ _ Hc | _ | t_k t_g _ _ _ _].
    - apply correct_Ok_inv in Hc; destruct Hc as (Hcg & Hcl & _).
      cbn [advance_gnss gnss_i lidar_i]; split; [right; lia | congruence].
    - split; [left |]; congruence.
    - split; [left |]; congruence. }
  destruct Hg2 as [Hg2 Hl2].
  destruct Hl as [t_l y_k s'' Hlt _ _ _ Hc | _ | t_l t_km _ _ _ _].
  - apply correct_Ok_inv in Hc; destruct Hc as (Hcg & Hcl & _).
    cbn [advance_lidar gnss_i lidar_i]; split.
    + rewrite Hcg; exact Hg2.
    + right; lia.
  - split; [exact Hg2 | left; exact Hl2].
  - split; [exact Hg2 | left; exact Hl2].
Qed.

(** X2.  After [m] iterations from the initial state, each cursor has
    advanced at most [m] times, by one at a time, and stays within its
    sequence: at most one GNSS and one LIDAR sample are consumed per inertial
    step, and no cursor runs past the end of its samples. *)
Theorem cursors_bounded s0 m s :
  init rot imu_f gt = Ok s0 ->
  loop rot imu_f imu_w gnss lidar (seq 1 m) s0 = Ok s ->
  (gnss_i s <= m)%nat /\ (gnss_i s <= length (data gnss))%nat /\
  (lidar_i s <= m)%nat /\ (lidar_i s <= length (t lidar))%nat.
Proof.
  intros Hinit; apply init_cursors in Hinit; destruct Hinit as [Hg0 Hl0].
  revert s; induction m as [| m IH]; intros s Hrun.
  - cbn [seq loop] in Hrun; injection Hrun as <-; lia.
  - apply loop_snoc in Hrun; destruct Hrun as (s' & Hrun & Hstep).
    specialize (IH s' Hrun).
    apply step_cursors in Hstep; lia.
Qed.

(** The cursor of a sequence stays at or before a sample whose timestamp no
    iteration has met. *)
Lemma cursors_blocked s0 m s :
  init rot imu_f gt = Ok s0 ->
  loop rot imu_f imu_w gnss lidar (seq 1 m) s0 = Ok s ->
  (forall j t_j,
      getitem (t gnss) j = Ok t_j ->
      (forall k, (1 <= k <= m)%nat -> getitem (t imu_f) k <> Ok t_j) ->
      (gnss_i s <= j)%nat) /\
  (forall j t_j,
      getitem (t lidar) j = Ok t_j ->
      (forall k, (1 <= k <= m)%nat -> getitem (t imu_f) (k - 1) <> Ok t_j) ->
      (lidar_i s <= j)%nat).
Proof.
  intros Hinit; apply init_cursors in Hinit; destruct Hinit as [Hg0 Hl0].
  revert s; induction m as [| m IH]; intros s Hrun.
  - cbn [seq loop] in Hrun; injection Hrun as <-.
    rewrite Hg0, Hl0; split; intros; lia.
  - apply loop_snoc in Hrun; destruct Hrun as (s' & Hrun & Hstep).
    specialize (IH s' Hrun); destruct IH as [IHg IHl].
    apply step_Ok_inv in Hstep; destruct Hstep as (s1 & s2 & Hp & Hg & Hl).
    apply predict_cursors in Hp; destruct Hp as [Hpg Hpl].
    apply gnss_check_iff in Hg; apply lidar_check_iff in Hl.
    assert (Hg2 : (forall j t_j,
               getitem (t gnss) j = Ok t_j ->
               (forall k, (1 <= k <= S m)%nat ->
                          getitem (t imu_f) k <> Ok t_j) ->
               (gnss_i s2 <= j)%nat) /\ lidar_i s2 = lidar_i s').
    { destruct Hg as [t_k y_k s'' Hlt Ht Htg Hy Hc | Hge | t_k t_g Hlt Ht Htg Hne].
      - apply correct_Ok_inv in Hc; destruct Hc as (Hcg & Hcl & _).
        cbn [advance_gnss gnss_i lidar_i]; split; [| congruence].
        intros j t_j Hj Hno.
        assert (gnss_i s' <= j)%nat
          by (apply (IHg j t_j Hj); intros k Hk; apply Hno; lia).
        assert (gnss_i s1 <> j).
        { intros E; subst j; rewrite Hj in Htg; injection Htg as <-.
          apply (Hno (S m)); [lia | exact Ht]. }
        lia.
      - split; [| congruence].
        intros j t_j Hj Hno; rewrite Hpg.
        apply (IHg j t_j Hj); intros k Hk; apply Hno; lia.
      - split; [| congruence].
        intros j t_j Hj Hno; rewrite Hpg.
        apply (IHg j t_j Hj); intros k Hk; apply Hno; lia. }
    destruct Hg2 as [Hg2 Hl2].
    destruct Hl as [t_l y_k s'' Hlt Ht Htk Hy Hc | Hge | t_l t_km Hlt Ht Htk Hne].
    + apply correct_Ok_inv in Hc; destruct Hc as (Hcg & Hcl & _).
      cbn [advance_lidar gnss_i lidar_i]; split.
      * intros j t_j Hj Hno; rewrite Hcg; exact (Hg2 j t_j Hj Hno).
      * intros j t_j Hj Hno.
        assert (lidar_i s' <= j)%nat
          by (apply (IHl j t_j Hj); intros k Hk; apply Hno; lia).
        assert (lidar_i s2 <> j).
        { intros E; subst j; rewrite Hj in Ht; injection Ht as <-.
          apply (Hno (S m)); [lia | exact Htk]. }
        lia.
    + split; [exact Hg2 |].
      intros j t_j Hj Hno; rewrite Hl2.
      apply (IHl j t_j Hj); intros k Hk; apply Hno; lia.
    + split; [exact Hg2 |].
      intros j t_j Hj Hno; rewrite Hl2.
      apply (IHl j t_j Hj); intros k Hk; apply Hno; lia.
Qed.

(** X3.  A sample whose timestamp is never met blocks its cursor: if the
    GNSS timestamp at index [j] differs from the inertial timestamp of every
    iteration run so far, the GNSS cursor has not passed [j], so neither that
    sample nor any later one has been consumed; the same for LIDAR against the
    inertial timestamps of the previous indices. *)
Theorem unmatched_sample_blocks_cursor s0 m s :
  init rot imu_f gt = Ok s0 ->
  loop rot imu_f imu_w gnss lidar (seq 1 m) s0 = Ok s ->
  (forall j t_j,
      getitem (t gnss) j = Ok t_j ->
      (forall k, (1 <= k <= m)%nat -> getitem (t imu_f) k <> Ok t_j) ->
      (gnss_i s <= j)%nat) /\
  (forall j t_j,
      getitem (t lidar) j = Ok t_j ->
      (forall k, (1 <= k <= m)%nat -> getitem (t imu_f) (k - 1) <> Ok t_j) ->
      (lidar_i s <= j)%nat).
Proof. exact (cursors_blocked s0 m s). Qed.

End CursorBounds.

(** The run of [Scenario] with the samples of [Boundary], whose timestamps
    are met by no iteration. *)
Lemma run_init :
  init StdRotations.rotations Scenario.imu_f Boundary.gt = Ok Run.s_init.
Proof. reflexivity. Qed.

Lemma run_loop :
  loop StdRotations.rotations Scenario.imu_f Scenario.imu_w
    Boundary.gnss Boundary.lidar (seq 1 1) Run.s_init = Ok Run.s_final.
Proof.
  cbn [seq loop]; unfold step.
  rewrite (predict_Ok StdRotations.rotations Scenario.imu_f Scenario.imu_w
             1 2 Run.s_init 0.1 0 [0; 0; 0] [0; 0; 0]
             (to_numpy StdRotations.rotations
                (Quaternion_euler StdRotations.rotations [0; 0; 0]))
             [0; 0; 9.81] [0; 0; 0] (zeros 9 9));
    [| repeat split | lia | constructor; reflexivity].
  cbn [bind]; fold Run.s_final.
  assert (Hg : gnss_check StdRotations.rotations Scenario.imu_f Boundary.gnss
                 1 Run.s_final = Ok Run.s_final).
  { apply gnss_check_iff.
    eapply (gnss_not_yet _ _ _ _ _ 0.1 0);
      [cbn; lia | reflexivity | reflexivity | lra]. }
  rewrite Hg; cbn [bind].
  assert (Hl : lidar_check StdRotations.rotations Scenario.imu_f Boundary.lidar
                 1 Run.s_final = Ok Run.s_final).
  { apply lidar_check_iff.
    eapply (lidar_not_yet _ _ _ _ _ 0.1 0);
      [cbn; lia | reflexivity | reflexivity | lra]. }
  rewrite Hl; reflexivity.
Qed.

Lemma cursors_bounded_witness :
  (gnss_i Run.s_final <= 1)%nat /\
  (gnss_i Run.s_final <= length (data Boundary.gnss))%nat /\
  (lidar_i Run.s_final <= 1)%nat /\
  (lidar_i Run.s_final <= length (t Boundary.lidar))%nat.
Proof.
  exact (cursors_bounded StdRotations.rotations Scenario.imu_f Scenario.imu_w
           Boundary.gnss Boundary.lidar Boundary.gt Run.s_init 1 Run.s_final
           run_init run_loop).
Defined.

Lemma unmatched_sample_blocks_cursor_witness :
  (gnss_i Run.s_final <= 0)%nat /\ (lidar_i Run.s_final <= 0)%nat.
Proof.
  destruct (unmatched_sample_blocks_cursor StdRotations.rotations
              Scenario.imu_f Scenario.imu_w Boundary.gnss Boundary.lidar
              Boundary.gt Run.s_init 1 Run.s_final run_init run_loop)
    as [Hg Hl].
  split.
  - apply (Hg 0%nat 0 eq_refl).
    intros k Hk; assert (k = 1%nat) by lia; subst k.
    intros E; injection E as E; lra.
  - apply (Hl 0%nat 0.1 eq_refl).
    intros k Hk; assert (k = 1%nat) by lia; subst k.
    intros E; injection E as E; lra.
Defined.

(** ** The prediction at rest, and the edges of the run *)

Section Mechanization.

Variable rot : Rotations.
Variables imu_f imu_w gnss lidar : StampedData.
Variable gt : GroundTruth.

(** X4.  When the rotated specific force cancels gravity, that is
    [C(q) f = (0, 0, 9.81)], the prediction leaves the velocity as it was and
    moves the position along it: [p + dt v]. *)
Theorem force_cancelling_gravity
    k n s t_k t_km px py pz vx vy vz q_km f_km w_km p_cov_km :
  sized n s -> (1 <= k < n)%nat ->
  reads imu_f imu_w k s t_k t_km
    [px; py; pz] [vx; vy; vz] q_km f_km w_km p_cov_km ->
  dotv (to_mat rot (Quaternion_wxyz rot q_km)) f_km = [0; 0; 9.81] ->
  let delta_t := t_k - t_km in
  exists s',
    predict rot imu_f imu_w k s = Ok s' /\
    getitem (p_est s') k =
      Ok [px + delta_t * vx; py + delta_t * vy; pz + delta_t * vz] /\
    getitem (v_est s') k = Ok [vx; vy; vz].
Proof.
  intros Hs Hk Hr Hc delta_t.
  destruct (predict_stores rot imu_f imu_w k n s _ _ _ _ _ _ _ _
              Hs (proj2 Hk) Hr) as (s' & Hrun & Hp & Hv & _).
  exists s'; split; [exact Hrun |].
  rewrite Hp, Hv; unfold nominal_update; rewrite Hc; cbn [fst snd].
  split; np_eval; array_eq; field.
Qed.

(** X5.  Without inertial samples the run stops at the first assignment of
    the initial values, with an [IndexError]. *)
Theorem no_inertial_samples :
  data imu_f = [] ->
  es_ekf rot imu_f imu_w gnss lidar gt = Raise IndexError.
Proof.
  intros Hd; unfold es_ekf, init, n_imu; rewrite Hd; cbn [length repeat].
  destruct (getitem (gt_p gt) 0) as [p0 | e] eqn:E; cbn [bind].
  - reflexivity.
  - unfold getitem in E; destruct (nth_error (gt_p gt) 0);
      [discriminate E | injection E as <-; reflexivity].
Qed.

End Mechanization.

Lemma force_cancelling_gravity_witness :
  exists s',
    predict StdRotations.rotations Scenario.imu_f Scenario.imu_w 1 Scenario.s0
    = Ok s' /\
    getitem (p_est s') 1 =
      Ok [0 + (0.1 - 0) * 0; 0 + (0.1 - 0) * 0; 0 + (0.1 - 0) * 0] /\
    getitem (v_est s') 1 = Ok [0; 0; 0].
Proof.
  exact (force_cancelling_gravity StdRotations.rotations
           Scenario.imu_f Scenario.imu_w 1 2 Scenario.s0 0.1 0
           0 0 0 0 0 0 [1; 0; 0; 0] [0; 0; 9.81] [0; 0; 0] (zeros 9 9)
           scenario_sized (conj (le_n 1) (le_n 2))
           scenario_reads scenario_rotated_force).
Defined.

Lemma no_inertial_samples_witness :
  es_ekf StdRotations.rotations Boundary.no_samples Boundary.no_samples
    Boundary.gnss Boundary.lidar Boundary.gt = Raise IndexError.
Proof.
  exact (no_inertial_samples StdRotations.rotations Boundary.no_samples
           Boundary.no_samples Boundary.gnss Boundary.lidar Boundary.gt
           eq_refl).
Defined.

(** ** Edges of the measurement update *)

Lemma kalman_gain_shape sensor_var P K :
  shape 9 9 P -> kalman_gain sensor_var P = Ok K -> shape 9 3 K.
Proof.
  intros HP H; unfold kalman_gain in H; inv_bind H; injection H as <-.
  destruct (innovation_cov_3x3 sensor_var P HP)
    as (a0 & b & c & d & e & f & g0 & h & i & Hshape).
  rewrite Hshape in E; unfold inv in E.
  destruct (Req_dec_T _ _); [discriminate E |]; injection E as <-.
  explode_shape HP; split; [reflexivity | repeat constructor].
Qed.

Lemma shape_9_3_entries K :
  shape 9 3 K ->
  exists k00 k01 k02 k10 k11 k12 k20 k21 k22 k30 k31 k32 k40 k41 k42
         k50 k51 k52 k60 k61 k62 k70 k71 k72 k80 k81 k82,
    K = [[k00; k01; k02]; [k10; k11; k12]; [k20; k21; k22];
         [k30; k31; k32]; [k40; k41; k42]; [k50; k51; k52];
         [k60; k61; k62]; [k70; k71; k72]; [k80; k81; k82]].
Proof. intros HK; explode_shape HK; do 27 eexists; reflexivity. Qed.

Section UpdateEdges.

Variable rot : Rotations.

(** X6.  An observation equal to the estimated position moves neither the
    position nor the velocity, and composes the orientation with the
    quaternion of the zero error rotation. *)
Theorem observation_equal_to_estimate
    sensor_var P px py pz vx vy vz q_check p_hat v_hat q_hat p_cov_hat :
  shape 9 9 P ->
  measurement_update rot sensor_var P
    [px; py; pz] [px; py; pz] [vx; vy; vz] q_check
  = Ok (p_hat, v_hat, q_hat, p_cov_hat) ->
  p_hat = [px; py; pz] /\ v_hat = [vx; vy; vz] /\
  q_hat = quat_mult_left rot (Quaternion_euler rot [0; 0; 0]) q_check.
Proof.
  intros HP H; unfold measurement_update in H; inv_bind H.
  pose proof (kalman_gain_shape _ _ _ HP E) as HK.
  destruct (shape_9_3_entries _ HK)
    as (k00 & k01 & k02 & k10 & k11 & k12 & k20 & k21 & k22
        & k30 & k31 & k32 & k40 & k41 & k42 & k50 & k51 & k52
        & k60 & k61 & k62 & k70 & k71 & k72 & k80 & k81 & k82 & ->).
  injection H as <- <- <- _.
  assert (Hx : dotv [[k00; k01; k02]; [k10; k11; k12]; [k20; k21; k22];
                     [k30; k31; k32]; [k40; k41; k42]; [k50; k51; k52];
                     [k60; k61; k62]; [k70; k71; k72]; [k80; k81; k82]]
                 (sub [px; py; pz] [px; py; pz])
               = [0; 0; 0; 0; 0; 0; 0; 0; 0])
    by (np_eval; array_eq; ring).
  cbn [dotv map] in Hx; rewrite Hx; cbv [slice skipn firstn Nat.sub].
  repeat split; np_eval; array_eq; ring.
Qed.

(** X7.  With a zero sensor variance and a covariance whose position block
    is zero (as after the first prediction), the innovation covariance is
    singular and the update raises [LinAlgError]. *)
Theorem zero_variance_is_singular P y_k p_check v_check q_check :
  shape 9 9 P ->
  block 0 3 0 3 P = zeros 3 3 ->
  measurement_update rot 0 P y_k p_check v_check q_check = Raise LinAlgError.
Proof.
  intros HP Hblock; unfold measurement_update, kalman_gain.
  rewrite innovation_cov_entries by exact HP; rewrite Hblock.
  cbv [zeros repeat madd add zip_with].
  rewrite inv_singular; [reflexivity |].
  cbv [det3]; ring.
Qed.

End UpdateEdges.

Lemma observation_equal_to_estimate_witness :
  exists p_hat v_hat q_hat p_cov_hat,
    measurement_update StdRotations.rotations 1 (eye 9)
      [1; 2; 3] [1; 2; 3] [4; 5; 6] [1; 0; 0; 0]
    = Ok (p_hat, v_hat, q_hat, p_cov_hat) /\
    p_hat = [1; 2; 3] /\ v_hat = [4; 5; 6].
Proof.
  assert (Hdet : det3 (innovation_cov 1 (eye 9)) <> 0) by (np_eval; lra).
  destruct (measurement_update_Ok StdRotations.rotations 1 (eye 9)
              [1; 2; 3] [1; 2; 3] [4; 5; 6] [1; 0; 0; 0] eye_shape_9 Hdet)
    as [_ Hrun].
  do 4 eexists; split; [exact Hrun |].
  destruct (observation_equal_to_estimate StdRotations.rotations 1 (eye 9)
              1 2 3 4 5 6 [1; 0; 0; 0] _ _ _ _ eye_shape_9 Hrun)
    as (Hp & Hv & _).
  split; [exact Hp | exact Hv].
Defined.

Lemma zero_variance_is_singular_witness :
  measurement_update StdRotations.rotations 0 Scenario.p_cov1
    [1; 0; 0] [0; 0; 0] [0; 0; 0] [1; 0; 0; 0] = Raise LinAlgError.
Proof.
  apply zero_variance_is_singular.
  - split; [reflexivity | repeat constructor].
  - reflexivity.
Defined.

(** ** LIDAR calibration *)

Lemma map_seq_nth {A B : Type} (f : A -> B) (l : list A) (d : A) :
  map (fun i => f (nth i l d)) (seq 0 (length l)) = map f l.
Proof.
  induction l as [| x l IH]; cbn [length seq map]; [reflexivity |].
  f_equal; rewrite <- seq_shift, map_map; exact IH.
Qed.

Lemma nth_map_default {A B : Type} (f : A -> B) (l : list A) (i : nat)
    (d0 : B) (d : A) :
  f d = d0 -> nth i (map f l) d0 = f (nth i l d).
Proof. intros <-; apply map_nth. Qed.

Lemma inner_nil_r (a : vec) : inner a [] = 0.
Proof. destruct a; reflexivity. Qed.

Lemma vec3_entries (x : vec) :
  length x = 3%nat -> [nth 0 x 0; nth 1 x 0; nth 2 x 0] = x.
Proof. intros Hx; explode_length Hx; reflexivity. Qed.

(** The transpose of a list of 3-vectors, transposed back. *)
Lemma T_T_samples (X : list vec) :
  Forall (fun x => length x = 3%nat) X -> T (T X) = X.
Proof.
  intros HX; destruct X as [| x X']; [reflexivity |].
  set (X := x :: X') in *.
  assert (Hcols : ncols X = 3%nat) by (inversion HX; assumption).
  unfold T at 2; rewrite Hcols; cbn [seq map].
  unfold T, ncols; cbn [hd map]; rewrite length_map.
  transitivity (map (fun x : vec => x) X); [| apply map_id].
  rewrite <- (map_seq_nth (fun x : vec => x) X []).
  apply map_ext_in; intros i Hi.
  rewrite (nth_map_default (fun row : list R => nth 0 row 0) X i 0 [] eq_refl).
  rewrite (nth_map_default (fun row : list R => nth 1 row 0) X i 0 [] eq_refl).
  rewrite (nth_map_default (fun row : list R => nth 2 row 0) X i 0 [] eq_refl).
  apply vec3_entries.
  apply in_seq in Hi.
  rewrite Forall_forall in HX; apply HX, nth_In; lia.
Qed.

Lemma calibrate_samples_aux (X : list vec) :
  Forall (fun x => length x = 3%nat) X ->
  T (dot C_li (T X)) = map (dotv C_li) X.
Proof.
  intros HX; unfold dot; rewrite (T_T_samples X HX).
  unfold C_li at 1; cbn [map].
  unfold T, ncols; cbn [hd map]; rewrite length_map.
  rewrite <- (map_seq_nth (dotv C_li) X []).
  apply map_ext; intros i.
  repeat match goal with
         | |- context [nth i (map (fun col => inner ?r col) X) 0] =>
             rewrite (nth_map_default (fun col : vec => inner r col) X i 0 []
                        (inner_nil_r r))
         end.
  reflexivity.
Qed.

(** X8.  The calibration maps every LIDAR sample [x] to [C_li x + t_i_li],
    keeps their number and order, and leaves the timestamps alone. *)
Theorem calibrate_samples lidar :
  Forall (fun x => length x = 3%nat) (data lidar) ->
  data (calibrate lidar) =
    map (fun x => add (dotv C_li x) t_i_li) (data lidar) /\
  length (data (calibrate lidar)) = length (data lidar) /\
  t (calibrate lidar) = t lidar.
Proof.
  intros HX; unfold calibrate; cbn [data t].
  rewrite (calibrate_samples_aux _ HX), map_map, length_map.
  repeat split; reflexivity.
Qed.

Lemma calibrate_samples_witness :
  data (calibrate Boundary.lidar) =
    map (fun x => add (dotv C_li x) t_i_li) (data Boundary.lidar) /\
  length (data (calibrate Boundary.lidar)) = length (data Boundary.lidar) /\
  t (calibrate Boundary.lidar) = t Boundary.lidar.
Proof.
  apply calibrate_samples.
  repeat constructor.
Defined.

(** ** Covariances stay covariances *)

Lemma shape_3_3_entries B :
  shape 3 3 B ->
  exists b00 b01 b02 b10 b11 b12 b20 b21 b22,
    B = [[b00; b01; b02]; [b10; b11; b12]; [b20; b21; b22]].
Proof. intros HB; explode_shape HB; do 9 eexists; reflexivity. Qed.

Lemma symmetric_entries P :
  shape 9 9 P -> symmetric P ->
  exists
    p00 p01 p02 p03 p04 p05 p06 p07 p08
    p11 p12 p13 p14 p15 p16 p17 p18 p22
    p23 p24 p25 p26 p27 p28 p33 p34 p35
    p36 p37 p38 p44 p45 p46 p47 p48 p55
    p56 p57 p58 p66 p67 p68 p77 p78 p88,
    P = [[p00; p01; p02; p03; p04; p05; p06; p07; p08];
         [p01; p11; p12; p13; p14; p15; p16; p17; p18];
         [p02; p12; p22; p23; p24; p25; p26; p27; p28];
         [p03; p13; p23; p33; p34; p35; p36; p37; p38];
         [p04; p14; p24; p34; p44; p45; p46; p47; p48];
         [p05; p15; p25; p35; p45; p55; p56; p57; p58];
         [p06; p16; p26; p36; p46; p56; p66; p67; p68];
         [p07; p17; p27; p37; p47; p57; p67; p77; p78];
         [p08; p18; p28; p38; p48; p58; p68; p78; p88]].
Proof.
  intros HP Hsym; explode_shape HP.
  unfold symmetric in Hsym; np_eval_in Hsym; explode_eq; subst.
  do 45 eexists; reflexivity.
Qed.

Lemma transition_times_entries d
    e00 e01 e02 e10 e11 e12 e20 e21 e22
    p00 p01 p02 p03 p04 p05 p06 p07 p08
    p10 p11 p12 p13 p14 p15 p16 p17 p18
    p20 p21 p22 p23 p24 p25 p26 p27 p28
    p30 p31 p32 p33 p34 p35 p36 p37 p38
    p40 p41 p42 p43 p44 p45 p46 p47 p48
    p50 p51 p52 p53 p54 p55 p56 p57 p58
    p60 p61 p62 p63 p64 p65 p66 p67 p68
    p70 p71 p72 p73 p74 p75 p76 p77 p78
    p80 p81 p82 p83 p84 p85 p86 p87 p88 :
  dot [[1; 0; 0; d; 0; 0; 0; 0; 0];
       [0; 1; 0; 0; d; 0; 0; 0; 0];
       [0; 0; 1; 0; 0; d; 0; 0; 0];
       [0; 0; 0; 1; 0; 0; e00; e01; e02];
       [0; 0; 0; 0; 1; 0; e10; e11; e12];
       [0; 0; 0; 0; 0; 1; e20; e21; e22];
       [0; 0; 0; 0; 0; 0; 1; 0; 0];
       [0; 0; 0; 0; 0; 0; 0; 1; 0];
       [0; 0; 0; 0; 0; 0; 0; 0; 1]]
      [[p00; p01; p02; p03; p04; p05; p06; p07; p08];
       [p10; p11; p12; p13; p14; p15; p16; p17; p18];
       [p20; p21; p22; p23; p24; p25; p26; p27; p28];
       [p30; p31; p32; p33; p34; p35; p36; p37; p38];
       [p40; p41; p42; p43; p44; p45; p46; p47; p48];
       [p50; p51; p52; p53; p54; p55; p56; p57; p58];
       [p60; p61; p62; p63; p64; p65; p66; p67; p68];
       [p70; p71; p72; p73; p74; p75; p76; p77; p78];
       [p80; p81; p82; p83; p84; p85; p86; p87; p88]]
  = [[p00 + d * p30; p01 + d * p31; p02 + d * p32; p03 + d * p33; p04 + d * p34; p05 + d * p35; p06 + d * p36; p07 + d * p37; p08 + d * p38];
     [p10 + d * p40; p11 + d * p41; p12 + d * p42; p13 + d * p43; p14 + d * p44; p15 + d * p45; p16 + d * p46; p17 + d * p47; p18 + d * p48];
     [p20 + d * p50; p21 + d * p51; p22 + d * p52; p23 + d * p53; p24 + d * p54; p25 + d * p55; p26 + d * p56; p27 + d * p57; p28 + d * p58];
     [p30 + e00 * p60 + e01 * p70 + e02 * p80; p31 + e00 * p61 + e01 * p71 + e02 * p81; p32 + e00 * p62 + e01 * p72 + e02 * p82; p33 + e00 * p63 + e01 * p73 + e02 * p83; p34 + e00 * p64 + e01 * p74 + e02 * p84; p35 + e00 * p65 + e01 * p75 + e02 * p85; p36 + e00 * p66 + e01 * p76 + e02 * p86; p37 + e00 * p67 + e01 * p77 + e02 * p87; p38 + e00 * p68 + e01 * p78 + e02 * p88];
     [p40 + e10 * p60 + e11 * p70 + e12 * p80; p41 + e10 * p61 + e11 * p71 + e12 * p81; p42 + e10 * p62 + e11 * p72 + e12 * p82; p43 + e10 * p63 + e11 * p73 + e12 * p83; p44 + e10 * p64 + e11 * p74 + e12 * p84; p45 + e10 * p65 + e11 * p75 + e12 * p85; p46 + e10 * p66 + e11 * p76 + e12 * p86; p47 + e10 * p67 + e11 * p77 + e12 * p87; p48 + e10 * p68 + e11 * p78 + e12 * p88];
     [p50 + e20 * p60 + e21 * p70 + e22 * p80; p51 + e20 * p61 + e21 * p71 + e22 * p81; p52 + e20 * p62 + e21 * p72 + e22 * p82; p53 + e20 * p63 + e21 * p73 + e22 * p83; p54 + e20 * p64 + e21 * p74 + e22 * p84; p55 + e20 * p65 + e21 * p75 + e22 * p85; p56 + e20 * p66 + e21 * p76 + e22 * p86; p57 + e20 * p67 + e21 * p77 + e22 * p87; p58 + e20 * p68 + e21 * p78 + e22 * p88];
     [p60; p61; p62; p63; p64; p65; p66; p67; p68];
     [p70; p71; p72; p73; p74; p75; p76; p77; p78];
     [p80; p81; p82; p83; p84; p85; p86; p87; p88]].
Proof. np_eval; array_eq; ring. Qed.

Lemma times_transition_T_entries d
    e00 e01 e02 e10 e11 e12 e20 e21 e22
    g00 g01 g02 g03 g04 g05 g06 g07 g08
    g10 g11 g12 g13 g14 g15 g16 g17 g18
    g20 g21 g22 g23 g24 g25 g26 g27 g28
    g30 g31 g32 g33 g34 g35 g36 g37 g38
    g40 g41 g42 g43 g44 g45 g46 g47 g48
    g50 g51 g52 g53 g54 g55 g56 g57 g58
    g60 g61 g62 g63 g64 g65 g66 g67 g68
    g70 g71 g72 g73 g74 g75 g76 g77 g78
    g80 g81 g82 g83 g84 g85 g86 g87 g88 :
  dot [[g00; g01; g02; g03; g04; g05; g06; g07; g08];
       [g10; g11; g12; g13; g14; g15; g16; g17; g18];
       [g20; g21; g22; g23; g24; g25; g26; g27; g28];
       [g30; g31; g32; g33; g34; g35; g36; g37; g38];
       [g40; g41; g42; g43; g44; g45; g46; g47; g48];
       [g50; g51; g52; g53; g54; g55; g56; g57; g58];
       [g60; g61; g62; g63; g64; g65; g66; g67; g68];
       [g70; g71; g72; g73; g74; g75; g76; g77; g78];
       [g80; g81; g82; g83; g84; g85; g86; g87; g88]]
      (T [[1; 0; 0; d; 0; 0; 0; 0; 0];
          [0; 1; 0; 0; d; 0; 0; 0; 0];
          [0; 0; 1; 0; 0; d; 0; 0; 0];
          [0; 0; 0; 1; 0; 0; e00; e01; e02];
          [0; 0; 0; 0; 1; 0; e10; e11; e12];
          [0; 0; 0; 0; 0; 1; e20; e21; e22];
          [0; 0; 0; 0; 0; 0; 1; 0; 0];
          [0; 0; 0; 0; 0; 0; 0; 1; 0];
          [0; 0; 0; 0; 0; 0; 0; 0; 1]])
  = [[g00 + g03 * d; g01 + g04 * d; g02 + g05 * d; g03 + g06 * e00 + g07 * e01 + g08 * e02; g04 + g06 * e10 + g07 * e11 + g08 * e12; g05 + g06 * e20 + g07 * e21 + g08 * e22; g06; g07; g08];
     [g10 + g13 * d; g11 + g14 * d; g12 + g15 * d; g13 + g16 * e00 + g17 * e01 + g18 * e02; g14 + g16 * e10 + g17 * e11 + g18 * e12; g15 + g16 * e20 + g17 * e21 + g18 * e22; g16; g17; g18];
     [g20 + g23 * d; g21 + g24 * d; g22 + g25 * d; g23 + g26 * e00 + g27 * e01 + g28 * e02; g24 + g26 * e10 + g27 * e11 + g28 * e12; g25 + g26 * e20 + g27 * e21 + g28 * e22; g26; g27; g28];
     [g30 + g33 * d; g31 + g34 * d; g32 + g35 * d; g33 + g36 * e00 + g37 * e01 + g38 * e02; g34 + g36 * e10 + g37 * e11 + g38 * e12; g35 + g36 * e20 + g37 * e21 + g38 * e22; g36; g37; g38];
     [g40 + g43 * d; g41 + g44 * d; g42 + g45 * d; g43 + g46 * e00 + g47 * e01 + g48 * e02; g44 + g46 * e10 + g47 * e11 + g48 * e12; g45 + g46 * e20 + g47 * e21 + g48 * e22; g46; g47; g48];
     [g50 + g53 * d; g51 + g54 * d; g52 + g55 * d; g53 + g56 * e00 + g57 * e01 + g58 * e02; g54 + g56 * e10 + g57 * e11 + g58 * e12; g55 + g56 * e20 + g57 * e21 + g58 * e22; g56; g57; g58];
     [g60 + g63 * d; g61 + g64 * d; g62 + g65 * d; g63 + g66 * e00 + g67 * e01 + g68 * e02; g64 + g66 * e10 + g67 * e11 + g68 * e12; g65 + g66 * e20 + g67 * e21 + g68 * e22; g66; g67; g68];
     [g70 + g73 * d; g71 + g74 * d; g72 + g75 * d; g73 + g76 * e00 + g77 * e01 + g78 * e02; g74 + g76 * e10 + g77 * e11 + g78 * e12; g75 + g76 * e20 + g77 * e21 + g78 * e22; g76; g77; g78];
     [g80 + g83 * d; g81 + g84 * d; g82 + g85 * d; g83 + g86 * e00 + g87 * e01 + g88 * e02; g84 + g86 * e10 + g87 * e11 + g88 * e12; g85 + g86 * e20 + g87 * e21 + g88 * e22; g86; g87; g88]].
Proof. np_eval; array_eq; ring. Qed.

(** The process noise reaches the velocity and rotation diagonal only. *)
Lemma noise_entries delta_t :
  dot (dot l_jac (q_cov_km delta_t)) (T l_jac) =
  [[0; 0; 0; 0; 0; 0; 0; 0; 0];
   [0; 0; 0; 0; 0; 0; 0; 0; 0];
   [0; 0; 0; 0; 0; 0; 0; 0; 0];
   [0; 0; 0; delta_t ^ 2 * var_imu_f; 0; 0; 0; 0; 0];
   [0; 0; 0; 0; delta_t ^ 2 * var_imu_f; 0; 0; 0; 0];
   [0; 0; 0; 0; 0; delta_t ^ 2 * var_imu_f; 0; 0; 0];
   [0; 0; 0; 0; 0; 0; delta_t ^ 2 * var_imu_w; 0; 0];
   [0; 0; 0; 0; 0; 0; 0; delta_t ^ 2 * var_imu_w; 0];
   [0; 0; 0; 0; 0; 0; 0; 0; delta_t ^ 2 * var_imu_w]].
Proof. rewrite q_cov_km_entries, l_jac_entries; np_eval; array_eq; field. Qed.

Lemma sum6_nonneg c x3 x4 x5 :
  0 <= c -> 0 <= c * (x3 * x3 + x4 * x4 + x5 * x5).
Proof.
  intros Hc; apply Rmult_le_pos; [exact Hc |].
  repeat apply Rplus_le_le_0_compat; apply sq_nonneg.
Qed.

Section PredictionCovariance.

Variable rot : Rotations.

Lemma covariance_update_covariance delta_t c P :
  shape 3 3 (skew_symmetric rot c) ->
  covariance P ->
  covariance (covariance_update rot delta_t c P).
Proof.
  intros Hskew (HP & Hsym & Hpsd).
  destruct (symmetric_entries P HP Hsym) as
    (p00 & p01 & p02 & p03 & p04 & p05 & p06 & p07 & p08
     & p11 & p12 & p13 & p14 & p15 & p16 & p17 & p18
     & p22 & p23 & p24 & p25 & p26 & p27 & p28
     & p33 & p34 & p35 & p36 & p37 & p38
     & p44 & p45 & p46 & p47 & p48
     & p55 & p56 & p57 & p58
     & p66 & p67 & p68
     & p77 & p78
     & p88 & ->).
  clear HP Hsym.
  destruct (shape_3_3_entries _ Hskew)
    as (s00 & s01 & s02 & s10 & s11 & s12 & s20 & s21 & s22 & E).
  unfold covariance_update.
  rewrite (f_ja_km_entries rot delta_t c _ _ _ _ _ _ _ _ _ E).
  rewrite noise_entries, transition_times_entries,
    times_transition_T_entries.
  split; [split; [reflexivity | repeat constructor] |].
  split.
  - unfold symmetric; np_eval; array_eq; ring.
  - intros x Hx; explode_length Hx.
    match goal with
    | |- 0 <= quad _ [?x0; ?x1; ?x2; ?x3; ?x4; ?x5; ?x6; ?x7; ?x8] =>
        pose proof
          (Hpsd
             (dotv
                (T [[1; 0; 0; delta_t; 0; 0; 0; 0; 0];
                    [0; 1; 0; 0; delta_t; 0; 0; 0; 0];
                    [0; 0; 1; 0; 0; delta_t; 0; 0; 0];
                    [0; 0; 0; 1; 0; 0;
                     - s00 * delta_t; - s01 * delta_t; - s02 * delta_t];
                    [0; 0; 0; 0; 1; 0;
                     - s10 * delta_t; - s11 * delta_t; - s12 * delta_t];
                    [0; 0; 0; 0; 0; 1;
                     - s20 * delta_t; - s21 * delta_t; - s22 * delta_t];
                    [0; 0; 0; 0; 0; 0; 1; 0; 0];
                    [0; 0; 0; 0; 0; 0; 0; 1; 0];
                    [0; 0; 0; 0; 0; 0; 0; 0; 1]])
                [x0; x1; x2; x3; x4; x5; x6; x7; x8]) eq_refl) as H;
        pose proof (sum6_nonneg (delta_t ^ 2 * var_imu_f) x3 x4 x5) as Hf;
        pose proof (sum6_nonneg (delta_t ^ 2 * var_imu_w) x6 x7 x8) as Hw
    end.
    assert (Hdt : 0 <= delta_t ^ 2) by (apply pow2_ge_0).
    assert (Hvf : 0 <= delta_t ^ 2 * var_imu_f)
      by (apply Rmult_le_pos; [exact Hdt | unfold var_imu_f; lra]).
    assert (Hvw : 0 <= delta_t ^ 2 * var_imu_w)
      by (apply Rmult_le_pos; [exact Hdt | unfold var_imu_w; lra]).
    specialize (Hf Hvf); specialize (Hw Hvw).
    unfold quad in *; np_eval_in H; np_eval_in Hf; np_eval_in Hw; np_eval.
    match type of H with
    | 0 <= ?e =>
        match type of Hf with
        | 0 <= ?f =>
            match type of Hw with
            | 0 <= ?w =>
                match goal with
                | |- 0 <= ?g =>
                    replace g with (e + (f + w));
                    [lra | field]
                end
            end
        end
    end.
Qed.

End PredictionCovariance.

(** The first three columns of the covariance, and the gain. *)
Lemma first_columns_entries
    p00 p01 p02 p03 p04 p05 p06 p07 p08
    p10 p11 p12 p13 p14 p15 p16 p17 p18
    p20 p21 p22 p23 p24 p25 p26 p27 p28
    p30 p31 p32 p33 p34 p35 p36 p37 p38
    p40 p41 p42 p43 p44 p45 p46 p47 p48
    p50 p51 p52 p53 p54 p55 p56 p57 p58
    p60 p61 p62 p63 p64 p65 p66 p67 p68
    p70 p71 p72 p73 p74 p75 p76 p77 p78
    p80 p81 p82 p83 p84 p85 p86 p87 p88 :
  dot [[p00; p01; p02; p03; p04; p05; p06; p07; p08];
      [p10; p11; p12; p13; p14; p15; p16; p17; p18];
      [p20; p21; p22; p23; p24; p25; p26; p27; p28];
      [p30; p31; p32; p33; p34; p35; p36; p37; p38];
      [p40; p41; p42; p43; p44; p45; p46; p47; p48];
      [p50; p51; p52; p53; p54; p55; p56; p57; p58];
      [p60; p61; p62; p63; p64; p65; p66; p67; p68];
      [p70; p71; p72; p73; p74; p75; p76; p77; p78];
      [p80; p81; p82; p83; p84; p85; p86; p87; p88]]
      (T h_jac)
  = [[p00; p01; p02];
     [p10; p11; p12];
     [p20; p21; p22];
     [p30; p31; p32];
     [p40; p41; p42];
     [p50; p51; p52];
     [p60; p61; p62];
     [p70; p71; p72];
     [p80; p81; p82]].
Proof. np_eval; array_eq; ring. Qed.

Lemma gain_entries
    b00 b01 b02 b10 b11 b12 b20 b21 b22
    b30 b31 b32 b40 b41 b42 b50 b51 b52
    b60 b61 b62 b70 b71 b72 b80 b81 b82
    m00 m01 m02 m10 m11 m12 m20 m21 m22 :
  dot [[b00; b01; b02];
      [b10; b11; b12];
      [b20; b21; b22];
      [b30; b31; b32];
      [b40; b41; b42];
      [b50; b51; b52];
      [b60; b61; b62];
      [b70; b71; b72];
      [b80; b81; b82]]
      [[m00; m01; m02];
      [m10; m11; m12];
      [m20; m21; m22]]
  = [[b00 * m00 + b01 * m10 + b02 * m20; b00 * m01 + b01 * m11 + b02 * m21; b00 * m02 + b01 * m12 + b02 * m22];
     [b10 * m00 + b11 * m10 + b12 * m20; b10 * m01 + b11 * m11 + b12 * m21; b10 * m02 + b11 * m12 + b12 * m22];
     [b20 * m00 + b21 * m10 + b22 * m20; b20 * m01 + b21 * m11 + b22 * m21; b20 * m02 + b21 * m12 + b22 * m22];
     [b30 * m00 + b31 * m10 + b32 * m20; b30 * m01 + b31 * m11 + b32 * m21; b30 * m02 + b31 * m12 + b32 * m22];
     [b40 * m00 + b41 * m10 + b42 * m20; b40 * m01 + b41 * m11 + b42 * m21; b40 * m02 + b41 * m12 + b42 * m22];
     [b50 * m00 + b51 * m10 + b52 * m20; b50 * m01 + b51 * m11 + b52 * m21; b50 * m02 + b51 * m12 + b52 * m22];
     [b60 * m00 + b61 * m10 + b62 * m20; b60 * m01 + b61 * m11 + b62 * m21; b60 * m02 + b61 * m12 + b62 * m22];
     [b70 * m00 + b71 * m10 + b72 * m20; b70 * m01 + b71 * m11 + b72 * m21; b70 * m02 + b71 * m12 + b72 * m22];
     [b80 * m00 + b81 * m10 + b82 * m20; b80 * m01 + b81 * m11 + b82 * m21; b80 * m02 + b81 * m12 + b82 * m22]].
Proof. np_eval; array_eq; ring. Qed.

(** ** Covariances through a prediction *)

Lemma zeros_covariance : covariance (zeros 9 9).
Proof.
  split; [split; [reflexivity | repeat constructor] |].
  split; [reflexivity |].
  intros x Hx; explode_length Hx.
  unfold quad; np_eval; apply Req_le; ring.
Qed.

Lemma eye_covariance : covariance (eye 9).
Proof. exact (conj eye_shape_9 (conj eye_symmetric eye_psd)). Qed.

Section PredictionKeeps.

Variable rot : Rotations.
Variables imu_f imu_w : StampedData.

Hypothesis skew_shape : forall c, shape 3 3 (skew_symmetric rot c).


End PredictionKeeps.

Lemma std_skew_shape c :
  shape 3 3 (skew_symmetric StdRotations.rotations c).
Proof. split; [reflexivity | repeat constructor]. Qed.


(** ** A correction without position uncertainty *)

Lemma inner_zero3 d : inner [0; 0; 0] d = 0.
Proof.
  destruct d as [| a [| b [| c d]]]; cbv [inner zip_with fold_right]; ring.
Qed.

Lemma cube_nonzero s : s <> 0 -> s * s * s <> 0.
Proof.
  intros Hs H.
  apply Rmult_integral in H; destruct H as [H | H]; [| contradiction].
  apply Rmult_integral in H; destruct H; contradiction.
Qed.

Section CertainPosition.

Variable rot : Rotations.

(** With the first three columns of the covariance zero, the gain is zero:
    the update adds a zero error to the position and to the velocity, and
    multiplies the covariance by the identity. *)
Lemma zero_gain_update sensor_var P y_k p_check v_check q_check :
  sensor_var <> 0 ->
  shape 9 9 P ->
  block 0 9 0 3 P = zeros 9 3 ->
  measurement_update rot sensor_var P y_k p_check v_check q_check =
  Ok (add p_check [0; 0; 0], add v_check [0; 0; 0],
      quat_mult_left rot (Quaternion_euler rot [0; 0; 0]) q_check,
      P).
Proof.
  intros Hs HP Hz.
  pose proof HP as HP'.
  explode_shape HP.
  np_eval_in Hz; explode_eq; subst.
  match goal with
  | |- measurement_update _ _ ?Q _ _ _ _ = _ =>
      assert (Hdet : det3 (innovation_cov sensor_var Q) <> 0)
  end.
  { rewrite innovation_cov_entries by exact HP'.
    cbv [block slice skipn firstn map Nat.sub madd add zip_with det3].
    intros H; apply (cube_nonzero sensor_var Hs); rewrite <- H; ring. }
  destruct (measurement_update_Ok rot sensor_var _ y_k p_check v_check
              q_check HP' Hdet) as [_ Hrun].
  rewrite Hrun; clear Hrun.
  destruct (innovation_cov_3x3 sensor_var _ HP')
    as (a & b & c & d & e & f & g0 & h & i & HS).
  rewrite HS; clear HS Hdet.
  match goal with
  | |- context [mmuls (adj3 ?S) ?r] =>
      destruct (shape_3_3_entries _ (adjugate_shape a b c d e f g0 h i r))
        as (m00 & m01 & m02 & m10 & m11 & m12 & m20 & m21 & m22 & HM);
      rewrite HM; clear HM
  end.
  rewrite first_columns_entries, gain_entries.
  match goal with
  | |- context [dot ?K h_jac] =>
      assert (HK : K = [[0; 0; 0]; [0; 0; 0]; [0; 0; 0]; [0; 0; 0]; [0; 0; 0];
                        [0; 0; 0]; [0; 0; 0]; [0; 0; 0]; [0; 0; 0]])
        by (array_eq; ring);
      rewrite HK; clear HK
  end.
  cbn [dotv map]; rewrite !inner_zero3.
  cbv [slice skipn firstn Nat.sub].
  match goal with
  | |- Ok (_, _, _, ?P') = Ok (_, _, _, ?Q) =>
      assert (HQ : P' = Q) by (np_eval; array_eq; ring);
      rewrite HQ; clear HQ
  end.
  reflexivity.
Qed.

(** X13.  When the first three columns of the covariance are zero (no
    uncertainty on the position, and none shared with it), the Kalman gain
    is zero and the correction ignores the observation: the position, the
    velocity and the covariance come back as they were, and the orientation
    composed with the quaternion of the zero error rotation. *)
Theorem certain_position_ignores_observation
    sensor_var P y_k px py pz vx vy vz q_check :
  sensor_var <> 0 ->
  shape 9 9 P ->
  block 0 9 0 3 P = zeros 9 3 ->
  measurement_update rot sensor_var P y_k [px; py; pz] [vx; vy; vz] q_check =
  Ok ([px; py; pz], [vx; vy; vz],
      quat_mult_left rot (Quaternion_euler rot [0; 0; 0]) q_check,
      P).
Proof.
  intros Hs HP Hz.
  rewrite (zero_gain_update sensor_var P y_k _ _ q_check Hs HP Hz).
  replace (add [px; py; pz] [0; 0; 0]) with [px; py; pz]
    by (np_eval; array_eq; ring).
  replace (add [vx; vy; vz] [0; 0; 0]) with [vx; vy; vz]
    by (np_eval; array_eq; ring).
  reflexivity.
Qed.

End CertainPosition.

Lemma certain_position_ignores_observation_witness :
  measurement_update StdRotations.rotations 10 Scenario.p_cov1
    [1; 0; 0] [0; 0; 0] [0; 0; 0] [1; 0; 0; 0] =
  Ok ([0; 0; 0], [0; 0; 0],
      quat_mult_left StdRotations.rotations
        (Quaternion_euler StdRotations.rotations [0; 0; 0]) [1; 0; 0; 0],
      Scenario.p_cov1).
Proof.
  apply certain_position_ignores_observation.
  - intros H; lra.
  - split; [reflexivity | repeat constructor].
  - reflexivity.
Defined.

(** ** The first iteration *)

Lemma length_zip_with {A B C : Type} (f : A -> B -> C) a b :
  length (zip_with f a b) = Nat.min (length a) (length b).
Proof.
  revert b; induction a as [| x a IH]; intros [| y b]; simpl;
    try reflexivity.
  f_equal; apply IH.
Qed.

Lemma add_zero3 p : (length p <= 3)%nat -> add p [0; 0; 0] = p.
Proof.
  destruct p as [| a [| b [| c [| d p]]]]; cbn [length]; intros H;
    try lia; np_eval; array_eq; ring.
Qed.

Lemma update_same {A : Type} k (x : A) l :
  getitem l k = Ok x -> update k x l = l.
Proof.
  unfold getitem; revert k; induction l as [| y l IH]; intros [| k];
    cbn [nth_error update]; intros H; try discriminate H.
  - injection H as ->; reflexivity.
  - f_equal; apply IH; exact H.
Qed.

(** The process noise has no entry in the first three columns. *)
Lemma noise_position_columns delta_t :
  block 0 9 0 3 (dot (dot l_jac (q_cov_km delta_t)) (T l_jac)) = zeros 9 3.
Proof. rewrite noise_entries; reflexivity. Qed.

Section FirstIteration.

Variable rot : Rotations.
Variables imu_f imu_w gnss lidar : StampedData.
Variable gt : GroundTruth.

Lemma nominal_update_lengths delta_t p_km v_km q_km f_km w_km :
  (length (fst (fst (nominal_update rot delta_t p_km v_km q_km f_km w_km)))
   <= 3)%nat /\
  (length (snd (fst (nominal_update rot delta_t p_km v_km q_km f_km w_km)))
   <= 3)%nat.
Proof.
  cbn [nominal_update fst snd]; unfold add, smul.
  rewrite !length_zip_with, !length_map, !length_zip_with.
  cbn [g length]; lia.
Qed.

(** What a correction reads and writes. *)
Lemma correct_inv sensor_var y_k k s s' :
  correct rot sensor_var y_k k s = Ok s' ->
  exists P p_check v_check q_check p_hat v_hat q_hat P',
    getitem (p_cov s) k = Ok P /\
    getitem (p_est s) k = Ok p_check /\
    getitem (v_est s) k = Ok v_check /\
    measurement_update rot sensor_var P y_k p_check v_check q_check =
      Ok (p_hat, v_hat, q_hat, P') /\
    p_est s' = update k p_hat (p_est s) /\
    v_est s' = update k v_hat (v_est s) /\
    p_cov s' = update k P' (p_cov s).
Proof.
  unfold correct; intros H.
  inv_bind H; inv_bind H; inv_bind H; inv_bind H; inv_bind H.
  destruct a3 as [[[p_hat v_hat] q_hat] p_cov_hat].
  inv_bind H; inv_bind H; inv_bind H; inv_bind H; injection H as <-.
  repeat match goal with
         | E : setitem _ _ _ = Ok _ |- _ =>
             apply setitem_Ok_inv in E; destruct E as [_ ->]
         end.
  cbn [p_est v_est p_cov].
  do 8 eexists; repeat (split; [eassumption || reflexivity |]); reflexivity.
Qed.

(** The entries at [k]: a covariance without position columns, a position
    and a velocity of at most three coordinates. *)
Lemma correct_ignored sensor_var y_k k s s' P p v :
  sensor_var <> 0 ->
  getitem (p_cov s) k = Ok P -> shape 9 9 P ->
  block 0 9 0 3 P = zeros 9 3 ->
  getitem (p_est s) k = Ok p -> (length p <= 3)%nat ->
  getitem (v_est s) k = Ok v -> (length v <= 3)%nat ->
  correct rot sensor_var y_k k s = Ok s' ->
  p_est s' = p_est s /\ v_est s' = v_est s /\ p_cov s' = p_cov s.
Proof.
  intros Hvar HP Hshape Hz Hp Hlp Hv Hlv H.
  apply correct_inv in H.
  destruct H as (P0 & p0 & v0 & q0 & p_hat & v_hat & q_hat & P'
                 & HP0 & Hp0 & Hv0 & Hmu & -> & -> & ->).
  rewrite HP in HP0; injection HP0 as <-.
  rewrite Hp in Hp0; injection Hp0 as <-.
  rewrite Hv in Hv0; injection Hv0 as <-.
  rewrite (zero_gain_update rot sensor_var P y_k p v q0 Hvar Hshape Hz) in Hmu.
  injection Hmu as <- <- _ <-.
  rewrite (add_zero3 p Hlp), (add_zero3 v Hlv).
  rewrite (update_same k p _ Hp), (update_same k v _ Hv),
    (update_same k P _ HP).
  repeat split; reflexivity.
Qed.

(** On such entries the correction returns. *)
Lemma certain_correct_Ok sensor_var y_k k s P p v q :
  sensor_var <> 0 ->
  getitem (p_cov s) k = Ok P -> shape 9 9 P ->
  block 0 9 0 3 P = zeros 9 3 ->
  getitem (p_est s) k = Ok p -> getitem (v_est s) k = Ok v ->
  getitem (q_est s) k = Ok q ->
  exists s', correct rot sensor_var y_k k s = Ok s'.
Proof.
  intros Hvar HP Hshape Hz Hp Hv Hq.
  eexists; apply correct_Ok_iff.
  exists P, p, v, q; do 4 eexists.
  repeat (split; [eassumption |]).
  split; [apply zero_gain_update; assumption | reflexivity].
Qed.

Lemma var_gnss_nonzero : var_gnss <> 0.
Proof. unfold var_gnss; lra. Qed.

Lemma var_lidar_nonzero : var_lidar <> 0.
Proof. unfold var_lidar; lra. Qed.

Lemma init_first_covariance s0 :
  init rot imu_f gt = Ok s0 -> getitem (p_cov s0) 0 = Ok (zeros 9 9).
Proof.
  unfold init; intros H.
  inv_bind H; inv_bind H; inv_bind H; inv_bind H.
  inv_bind H; inv_bind H; inv_bind H.
  injection H as <-; cbn [p_cov].
  apply setitem_Ok_inv in E5; destruct E5 as [Hlt ->].
  apply getitem_update_same; exact Hlt.
Qed.

Hypothesis skew_shape : forall c, shape 3 3 (skew_symmetric rot c).

(** From the zero covariance, the prediction stores the process noise. *)
Lemma covariance_update_zeros delta_t c :
  covariance_update rot delta_t c (zeros 9 9) =
  dot (dot l_jac (q_cov_km delta_t)) (T l_jac).
Proof.
  destruct (shape_3_3_entries _ (skew_shape c))
    as (s00 & s01 & s02 & s10 & s11 & s12 & s20 & s21 & s22 & E).
  unfold covariance_update.
  rewrite (f_ja_km_entries rot delta_t c _ _ _ _ _ _ _ _ _ E).
  rewrite noise_entries.
  np_eval; array_eq; ring.
Qed.

(** X14.  In the first iteration the observations are ignored: the initial
    covariance is zero, so the covariance predicted at index 1 has no
    uncertainty on the position, and whichever of the GNSS and LIDAR
    corrections run at index 1 leave the position, the velocity and the
    covariance that the prediction stored. *)
Theorem first_iteration_ignores_observations s0 s1 s' :
  init rot imu_f gt = Ok s0 ->
  predict rot imu_f imu_w 1 s0 = Ok s1 ->
  step rot imu_f imu_w gnss lidar 1 s0 = Ok s' ->
  p_est s' = p_est s1 /\ v_est s' = v_est s1 /\ p_cov s' = p_cov s1.
Proof.
  intros Hinit Hp Hstep.
  apply init_first_covariance in Hinit.
  apply step_Ok_inv in Hstep; destruct Hstep as (s1' & s2 & Hp' & Hg & Hl).
  rewrite Hp in Hp'; injection Hp' as <-.
  apply predict_Ok_inv in Hp.
  destruct Hp as (t_k & t_km & p_km & v_km & q_km & f_km & w_km & p_cov_km
                  & Hr & Hlp & Hlv & _ & Hlc & Hs1).
  destruct Hr as [_ _ _ _ _ _ _ Hck].
  cbn [Nat.sub] in Hck; rewrite Hinit in Hck; injection Hck as <-.
  set (delta_t := t_k - t_km) in *.
  set (c := dotv (to_mat rot (Quaternion_wxyz rot q_km)) f_km) in *.
  pose proof (nominal_update_lengths (t_k - t_km) p_km v_km q_km f_km w_km)
    as [Hnp Hnv].
  assert (HP1 : getitem (p_cov s1) 1 =
                Ok (dot (dot l_jac (q_cov_km (t_k - t_km))) (T l_jac))).
  { rewrite Hs1; cbn [predicted p_cov].
    rewrite covariance_update_zeros; apply getitem_update_same; exact Hlc. }
  assert (Hp1 : getitem (p_est s1) 1 =
                Ok (fst (fst (nominal_update rot (t_k - t_km)
                                p_km v_km q_km f_km w_km)))).
  { rewrite Hs1; cbn [predicted p_est].
    apply getitem_update_same; exact Hlp. }
  assert (Hv1 : getitem (v_est s1) 1 =
                Ok (snd (fst (nominal_update rot (t_k - t_km)
                                p_km v_km q_km f_km w_km)))).
  { rewrite Hs1; cbn [predicted v_est].
    apply getitem_update_same; exact Hlv. }
  assert (Hshape : shape 9 9 (dot (dot l_jac (q_cov_km (t_k - t_km)))
                                (T l_jac))).
  { rewrite noise_entries; split; [reflexivity | repeat constructor]. }
  clear Hs1.
  assert (H2 : p_est s2 = p_est s1 /\ v_est s2 = v_est s1 /\
               p_cov s2 = p_cov s1).
  { apply gnss_check_iff in Hg.
    destruct Hg as [t_g y_k s'' _ _ _ _ Hc | _ | t_g t_g' _ _ _ _];
      [| repeat split; reflexivity | repeat split; reflexivity].
    exact (correct_ignored var_gnss y_k 1 s1 s'' _ _ _ var_gnss_nonzero
             HP1 Hshape (noise_position_columns _) Hp1 Hnp Hv1 Hnv Hc). }
  destruct H2 as (E1 & E2 & E3).
  rewrite <- E1 in Hp1; rewrite <- E2 in Hv1; rewrite <- E3 in HP1.
  rewrite <- E1, <- E2, <- E3.
  apply lidar_check_iff in Hl.
  destruct Hl as [t_l y_k s'' _ _ _ _ Hc | _ | t_l t_l' _ _ _ _];
    [| repeat split; reflexivity | repeat split; reflexivity].
  exact (correct_ignored var_lidar y_k 1 s2 s'' _ _ _ var_lidar_nonzero
           HP1 Hshape (noise_position_columns _) Hp1 Hnp Hv1 Hnv Hc).
Qed.

End FirstIteration.

Lemma run_predict :
  predict StdRotations.rotations Scenario.imu_f Scenario.imu_w 1 Run.s_init
  = Ok Run.s_final.
Proof.
  apply (predict_Ok StdRotations.rotations Scenario.imu_f Scenario.imu_w
           1 2 Run.s_init 0.1 0 [0; 0; 0] [0; 0; 0]
           (to_numpy StdRotations.rotations
              (Quaternion_euler StdRotations.rotations [0; 0; 0]))
           [0; 0; 9.81] [0; 0; 0] (zeros 9 9));
    [repeat split | lia | constructor; reflexivity].
Qed.

Lemma run_init_sized : sized 2 Run.s_init.
Proof. repeat split. Qed.

(** The entries the first prediction of the run leaves at index 1. *)
Lemma run_final_covariance :
  getitem (p_cov Run.s_final) 1 =
  Ok (dot (dot l_jac (q_cov_km (0.1 - 0))) (T l_jac)).
Proof.
  unfold Run.s_final, predicted; cbn [p_cov].
  rewrite (covariance_update_zeros StdRotations.rotations std_skew_shape).
  apply getitem_update_same; cbn; lia.
Qed.

Lemma noise_shape delta_t :
  shape 9 9 (dot (dot l_jac (q_cov_km delta_t)) (T l_jac)).
Proof. rewrite noise_entries; split; [reflexivity | repeat constructor]. Qed.

(** With the observations of [Matched], both corrections run at index 1. *)
Lemma matched_step :
  exists s',
    step StdRotations.rotations Scenario.imu_f Scenario.imu_w
      Matched.gnss Matched.lidar 1 Run.s_init = Ok s' /\
    gnss_i s' = 1%nat /\ lidar_i s' = 1%nat.
Proof.
  pose proof run_final_covariance as HP1.
  destruct (getitem_lt_Ok (p_est Run.s_final) 1) as [p1 Hp1];
    [cbn; lia |].
  destruct (getitem_lt_Ok (v_est Run.s_final) 1) as [v1 Hv1];
    [cbn; lia |].
  destruct (getitem_lt_Ok (q_est Run.s_final) 1) as [q1 Hq1];
    [cbn; lia |].
  (* the GNSS correction *)
  destruct (certain_correct_Ok StdRotations.rotations var_gnss [1; 0; 0] 1
              Run.s_final _ p1 v1 q1 var_gnss_nonzero HP1 (noise_shape _)
              (noise_position_columns _) Hp1 Hv1 Hq1) as [sg Hcg].
  assert (Hg : gnss_check StdRotations.rotations Scenario.imu_f Matched.gnss
                 1 Run.s_final = Ok (advance_gnss sg)).
  { apply gnss_check_iff.
    apply (gnss_applied _ _ _ _ _ 0.1 [1; 0; 0] sg);
      [cbn; lia | reflexivity | reflexivity | reflexivity | exact Hcg]. }
  pose proof Hcg as Hcg'.
  apply correct_Ok_iff in Hcg'.
  destruct Hcg' as (P & p & v & q & p' & v' & q' & P'
                    & HP & Hp & Hv & Hq & _ & Hsg).
  assert (Hlen : sized 2 sg).
  { rewrite Hsg; unfold sized; cbn [p_est v_est q_est p_cov].
    rewrite !length_update; repeat split. }
  destruct Hlen as (L1 & L2 & L3 & L4).
  set (s2 := advance_gnss sg).
  destruct (getitem_lt_Ok (p_cov s2) 1) as [P2 HP2]; [cbn; lia |].
  destruct (getitem_lt_Ok (p_est s2) 1) as [p2 Hp2]; [cbn; lia |].
  destruct (getitem_lt_Ok (v_est s2) 1) as [v2 Hv2]; [cbn; lia |].
  destruct (getitem_lt_Ok (q_est s2) 1) as [q2 Hq2]; [cbn; lia |].
  (* the GNSS correction left the covariance of the prediction *)
  destruct (nominal_update_lengths StdRotations.rotations (0.1 - 0)
              [0; 0; 0] [0; 0; 0]
              (to_numpy StdRotations.rotations
                 (Quaternion_euler StdRotations.rotations [0; 0; 0]))
              [0; 0; 9.81] [0; 0; 0]) as [Hnp Hnv].
  assert (Hp1' : getitem (p_est Run.s_final) 1 =
                 Ok (fst (fst (nominal_update StdRotations.rotations
                                 (0.1 - 0) [0; 0; 0] [0; 0; 0]
                                 (to_numpy StdRotations.rotations
                                    (Quaternion_euler StdRotations.rotations
                                       [0; 0; 0]))
                                 [0; 0; 9.81] [0; 0; 0]))))
    by reflexivity.
  assert (Hv1' : getitem (v_est Run.s_final) 1 =
                 Ok (snd (fst (nominal_update StdRotations.rotations
                                 (0.1 - 0) [0; 0; 0] [0; 0; 0]
                                 (to_numpy StdRotations.rotations
                                    (Quaternion_euler StdRotations.rotations
                                       [0; 0; 0]))
                                 [0; 0; 9.81] [0; 0; 0]))))
    by reflexivity.
  destruct (correct_ignored StdRotations.rotations var_gnss [1; 0; 0] 1
              Run.s_final sg _ _ _ var_gnss_nonzero HP1 (noise_shape _)
              (noise_position_columns _) Hp1' Hnp Hv1' Hnv Hcg)
    as (_ & _ & Ecov).
  assert (HP2' : getitem (p_cov s2) 1 =
                 Ok (dot (dot l_jac (q_cov_km (0.1 - 0))) (T l_jac))).
  { unfold s2; cbn [advance_gnss p_cov]; rewrite Ecov; exact HP1. }
  (* the LIDAR correction *)
  destruct (certain_correct_Ok StdRotations.rotations var_lidar [2; 0; 0] 1
              s2 _ p2 v2 q2 var_lidar_nonzero HP2' (noise_shape _)
              (noise_position_columns _) Hp2 Hv2 Hq2) as [sl Hcl].
  assert (Hcur : gnss_i s2 = 1%nat /\ lidar_i s2 = 0%nat).
  { unfold s2; rewrite Hsg; split; reflexivity. }
  destruct Hcur as [Hg2 Hl2].
  assert (Hl : lidar_check StdRotations.rotations Scenario.imu_f Matched.lidar
                 1 s2 = Ok (advance_lidar sl)).
  { apply lidar_check_iff.
    apply (lidar_applied _ _ _ _ _ 0 [2; 0; 0] sl);
      [rewrite Hl2; cbn; lia | rewrite Hl2; reflexivity | reflexivity
       | rewrite Hl2; reflexivity | exact Hcl]. }
  exists (advance_lidar sl); split.
  - unfold step; rewrite run_predict; cbn [bind].
    rewrite Hg; cbn [bind]; exact Hl.
  - apply correct_Ok_inv in Hcl; destruct Hcl as (Hlg & Hll & _).
    cbn [advance_lidar gnss_i lidar_i]; rewrite Hlg, Hll, Hg2, Hl2.
    split; reflexivity.
Qed.

Lemma first_iteration_ignores_observations_witness :
  exists s',
    step StdRotations.rotations Scenario.imu_f Scenario.imu_w
      Matched.gnss Matched.lidar 1 Run.s_init = Ok s' /\
    gnss_i s' = 1%nat /\ lidar_i s' = 1%nat /\
    p_est s' = p_est Run.s_final /\ v_est s' = v_est Run.s_final /\
    p_cov s' = p_cov Run.s_final.
Proof.
  destruct matched_step as (s' & Hstep & Hg & Hl).
  exists s'; split; [exact Hstep |]; split; [exact Hg |]; split; [exact Hl |].
  exact (first_iteration_ignores_observations StdRotations.rotations
           Scenario.imu_f Scenario.imu_w Matched.gnss Matched.lidar
           Boundary.gt std_skew_shape Run.s_init Run.s_final s'
           run_init run_predict Hstep).
Defined.

(** ** Blocks of the predicted covariance *)

Lemma eye_dot P : shape 9 9 P -> dot (eye 9) P = P.
Proof. intros HP; explode_shape HP; np_eval; array_eq; ring. Qed.

Lemma dot_eye_T P : shape 9 9 P -> dot P (T (eye 9)) = P.
Proof. intros HP; explode_shape HP; np_eval; array_eq; ring. Qed.

Lemma madd_zeros P : shape 9 9 P -> madd P (zeros 9 9) = P.
Proof. intros HP; explode_shape HP; np_eval; array_eq; ring. Qed.

Section PredictionBlocks.

Variable rot : Rotations.
Variables imu_f imu_w : StampedData.

Hypothesis skew_shape : forall c, shape 3 3 (skew_symmetric rot c).

(** X15.  What a prediction does to the position and to the orientation
    uncertainty, whatever the specific force: the position block becomes
    [Ppp + dt (Ppv + Pvp) + dt^2 Pvv], with no process noise, and the
    orientation block gains [dt^2 var_imu_w] on its diagonal and nothing
    else. *)
Theorem prediction_blocks delta_t c P :
  shape 9 9 P ->
  block 0 3 0 3 (covariance_update rot delta_t c P) =
    madd (madd (block 0 3 0 3 P)
               (mmuls (madd (block 0 3 3 6 P) (block 3 6 0 3 P)) delta_t))
         (mmuls (block 3 6 3 6 P) (delta_t ^ 2)) /\
  block 6 9 6 9 (covariance_update rot delta_t c P) =
    madd (block 6 9 6 9 P) (mmuls (eye 3) (delta_t ^ 2 * var_imu_w)).
Proof.
  intros HP.
  destruct (shape_3_3_entries _ (skew_shape c))
    as (s00 & s01 & s02 & s10 & s11 & s12 & s20 & s21 & s22 & E).
  unfold covariance_update.
  rewrite (f_ja_km_entries rot delta_t c _ _ _ _ _ _ _ _ _ E), noise_entries.
  explode_shape HP.
  split; np_eval; array_eq; ring.
Qed.

(** With a zero timestep the transition is the identity and the process
    noise is zero. *)
Lemma covariance_update_zero_timestep c P :
  shape 9 9 P -> covariance_update rot 0 c P = P.
Proof.
  intros HP.
  destruct (shape_3_3_entries _ (skew_shape c))
    as (s00 & s01 & s02 & s10 & s11 & s12 & s20 & s21 & s22 & E).
  unfold covariance_update.
  rewrite (f_ja_km_entries rot 0 c _ _ _ _ _ _ _ _ _ E), noise_entries.
  match goal with
  | |- madd (dot (dot ?F _) (T ?F)) ?N = _ =>
      replace F with (eye 9) by (np_eval; array_eq; ring);
      replace N with (zeros 9 9) by (np_eval; array_eq; ring)
  end.
  rewrite eye_dot, dot_eye_T by exact HP.
  apply madd_zeros; exact HP.
Qed.

(** X16.  When the two timestamps of a step are equal (elapsed time 0), the
    prediction stores at [k] the covariance of [k-1], unchanged: no
    uncertainty is added. *)
Theorem zero_timestep_keeps_covariance
    k n s t_k t_km p_km v_km q_km f_km w_km p_cov_km :
  sized n s -> (k < n)%nat ->
  reads imu_f imu_w k s t_k t_km p_km v_km q_km f_km w_km p_cov_km ->
  t_k - t_km = 0 ->
  shape 9 9 p_cov_km ->
  exists s',
    predict rot imu_f imu_w k s = Ok s' /\
    getitem (p_cov s') k = Ok p_cov_km.
Proof.
  intros Hs Hk Hr Hdt HP.
  destruct (predict_stores rot imu_f imu_w k n s _ _ _ _ _ _ _ _ Hs Hk Hr)
    as (s' & Hrun & _ & _ & _ & Hstored).
  exists s'; split; [exact Hrun |].
  rewrite Hstored, Hdt, covariance_update_zero_timestep by exact HP.
  reflexivity.
Qed.

End PredictionBlocks.

Lemma prediction_blocks_witness :
  block 0 3 0 3
    (covariance_update StdRotations.rotations 0.1 [0; 0; 9.81] (eye 9)) =
    madd (madd (block 0 3 0 3 (eye 9))
               (mmuls (madd (block 0 3 3 6 (eye 9)) (block 3 6 0 3 (eye 9)))
                  0.1))
         (mmuls (block 3 6 3 6 (eye 9)) (0.1 ^ 2)) /\
  block 6 9 6 9
    (covariance_update StdRotations.rotations 0.1 [0; 0; 9.81] (eye 9)) =
    madd (block 6 9 6 9 (eye 9)) (mmuls (eye 3) (0.1 ^ 2 * var_imu_w)).
Proof.
  exact (prediction_blocks StdRotations.rotations std_skew_shape
           0.1 [0; 0; 9.81] (eye 9) eye_shape_9).
Defined.

(** A run whose two inertial samples carry the same timestamp, from the
    identity covariance. *)
Lemma zero_timestep_covariance_reads :
  reads {| data := [[0; 0; 9.81]; [0; 0; 9.81]]; t := [0; 0] |}
        {| data := [[0; 0; 1]; [0; 0; 1]]; t := [0; 0] |} 1
        {| p_est := [[0; 0; 0]; [0; 0; 0]];
           v_est := [[0; 0; 0]; [0; 0; 0]];
           q_est := [[1; 0; 0; 0]; [0; 0; 0; 0]];
           p_cov := [eye 9; zeros 9 9];
           gnss_i := 0;
           lidar_i := 0 |}
    0 0 [0; 0; 0] [0; 0; 0] [1; 0; 0; 0] [0; 0; 9.81] [0; 0; 1] (eye 9).
Proof. constructor; reflexivity. Qed.

Lemma zero_timestep_keeps_covariance_witness :
  exists s',
    predict StdRotations.rotations
      {| data := [[0; 0; 9.81]; [0; 0; 9.81]]; t := [0; 0] |}
      {| data := [[0; 0; 1]; [0; 0; 1]]; t := [0; 0] |} 1
      {| p_est := [[0; 0; 0]; [0; 0; 0]];
         v_est := [[0; 0; 0]; [0; 0; 0]];
         q_est := [[1; 0; 0; 0]; [0; 0; 0; 0]];
         p_cov := [eye 9; zeros 9 9];
         gnss_i := 0;
         lidar_i := 0 |} = Ok s' /\
    getitem (p_cov s') 1 = Ok (eye 9).
Proof.
  apply (zero_timestep_keeps_covariance StdRotations.rotations _ _
           std_skew_shape 1 2 _ 0 0 [0; 0; 0] [0; 0; 0] [1; 0; 0; 0]
           [0; 0; 9.81] [0; 0; 1] (eye 9));
    [repeat split | lia | exact zero_timestep_covariance_reads | lra
     | exact eye_shape_9].
Defined.

(** ** Samples that are consumed *)

Lemma increasing_injective ts i j x :
  increasing ts -> getitem ts i = Ok x -> getitem ts j = Ok x -> i = j.
Proof.
  intros Hinc Hi Hj.
  destruct (Nat.lt_trichotomy i j) as [H | [H | H]]; [| exact H |].
  - pose proof (Hinc i j x x H Hi Hj); lra.
  - pose proof (Hinc j i x x H Hj Hi); lra.
Qed.

Lemma increasing_lt ts i j x y :
  increasing ts -> getitem ts i = Ok x -> getitem ts j = Ok y ->
  x < y -> (i < j)%nat.
Proof.
  intros Hinc Hi Hj Hxy.
  destruct (Nat.lt_trichotomy i j) as [H | [H | H]]; [exact H | |].
  - subst j; rewrite Hi in Hj; injection Hj as <-; lra.
  - pose proof (Hinc j i y x H Hj Hi); lra.
Qed.

Section Consumed.

Variable rot : Rotations.
Variables imu_f imu_w gnss lidar : StampedData.
Variable gt : GroundTruth.

Hypothesis imu_increasing : increasing (t imu_f).

(** The cursors after one more iteration. *)
Lemma step_gnss_cursor m s s' j t_j :
  step rot imu_f imu_w gnss lidar (S m) s = Ok s' ->
  gnss_i s = j -> (j < length (data gnss))%nat ->
  getitem (t gnss) j = Ok t_j -> getitem (t imu_f) (S m) = Ok t_j ->
  gnss_i s' = S j.
Proof.
  intros Hstep Hcur Hlt Hj Hk.
  apply step_Ok_inv in Hstep; destruct Hstep as (s1 & s2 & Hp & Hg & Hl).
  apply predict_cursors in Hp; destruct Hp as [Hpg _].
  apply gnss_check_iff in Hg; apply lidar_check_iff in Hl.
  assert (H2 : gnss_i s2 = S j).
  { destruct Hg as [t_k y_k s'' _ _ _ _ Hc | Hge | t_k t_g _ Ht Htg Hne].
    - apply correct_Ok_inv in Hc; destruct Hc as (Hcg & _ & _).
      cbn [advance_gnss gnss_i]; lia.
    - lia.
    - rewrite Hpg, Hcur, Hj in Htg; injection Htg as <-.
      rewrite Hk in Ht; injection Ht as <-.
      contradiction Hne; reflexivity. }
  destruct Hl as [t_l y_k s'' _ _ _ _ Hc | _ | t_l t_km _ _ _ _];
    [| exact H2 | exact H2].
  apply correct_Ok_inv in Hc; destruct Hc as (Hcg & _ & _).
  cbn [advance_lidar gnss_i]; lia.
Qed.

Lemma step_lidar_cursor m s s' j t_j :
  step rot imu_f imu_w gnss lidar (S m) s = Ok s' ->
  lidar_i s = j ->
  getitem (t lidar) j = Ok t_j -> getitem (t imu_f) m = Ok t_j ->
  lidar_i s' = S j.
Proof.
  intros Hstep Hcur Hj Hk.
  apply step_Ok_inv in Hstep; destruct Hstep as (s1 & s2 & Hp & Hg & Hl).
  apply predict_cursors in Hp; destruct Hp as [_ Hpl].
  apply gnss_check_iff in Hg; apply lidar_check_iff in Hl.
  assert (H2 : lidar_i s2 = j).
  { destruct Hg as [t_k y_k s'' _ _ _ _ Hc | _ | t_k t_g _ _ _ _];
      [| lia | lia].
    apply correct_Ok_inv in Hc; destruct Hc as (_ & Hcl & _).
    cbn [advance_gnss lidar_i]; lia. }
  destruct Hl as [t_l y_k s'' _ _ _ _ Hc | Hge | t_l t_km _ Ht Htk Hne].
  - apply correct_Ok_inv in Hc; destruct Hc as (_ & Hcl & _).
    cbn [advance_lidar lidar_i]; lia.
  - apply getitem_Ok_lt in Hj; lia.
  - rewrite H2, Hj in Ht; injection Ht as <-.
    replace (S m - 1)%nat with m in Htk by lia.
    rewrite Hk in Htk; injection Htk as <-.
    contradiction Hne; reflexivity.
Qed.

(** X17.  With strictly increasing timestamps, the samples are consumed on
    time.  A GNSS sample [j] stamped with the inertial timestamp at
    [k >= 1] has been consumed once iteration [k] is over, provided each
    sample up to [j] is stamped with an inertial timestamp at an index from
    1 on; a LIDAR sample [j] stamped with the inertial timestamp at [i] has
    been consumed once iteration [i + 1] is over, provided each sample up to
    [j] is stamped with an inertial timestamp. *)
Theorem matched_samples_consumed s0 m s :
  init rot imu_f gt = Ok s0 ->
  loop rot imu_f imu_w gnss lidar (seq 1 m) s0 = Ok s ->
  (increasing (t gnss) ->
   forall j t_j k,
     (forall j' t', (j' <= j)%nat -> getitem (t gnss) j' = Ok t' ->
                    exists k', (1 <= k')%nat /\ getitem (t imu_f) k' = Ok t') ->
     (j < length (data gnss))%nat ->
     getitem (t gnss) j = Ok t_j ->
     getitem (t imu_f) k = Ok t_j ->
     (1 <= k <= m)%nat ->
     (j < gnss_i s)%nat) /\
  (increasing (t lidar) ->
   forall j t_j i,
     (forall j' t', (j' <= j)%nat -> getitem (t lidar) j' = Ok t' ->
                    exists i', getitem (t imu_f) i' = Ok t') ->
     getitem (t lidar) j = Ok t_j ->
     getitem (t imu_f) i = Ok t_j ->
     (i < m)%nat ->
     (j < lidar_i s)%nat).
Proof.
  intros Hinit; revert s; induction m as [| m IH]; intros s Hrun.
  - split; intros; lia.
  - apply loop_snoc in Hrun; destruct Hrun as (s' & Hrun & Hstep).
    destruct (IH s' Hrun) as [IHg IHl].
    destruct (cursors_blocked rot imu_f imu_w gnss lidar gt s0 m s'
                Hinit Hrun) as [Bg Bl].
    pose proof (step_cursors rot imu_f imu_w gnss lidar (S m) s' s Hstep)
      as [Mg Ml].
    split.
    + intros Hinc j t_j k Hpre Hlt Hj Hk Hkm.
      destruct (Nat.eq_dec k (S m)) as [-> | Hne].
      * assert (Hle : (gnss_i s' <= j)%nat).
        { apply (Bg j t_j Hj); intros k0 Hk0 E.
          pose proof (increasing_injective _ _ _ _ imu_increasing E Hk); lia. }
        assert (Hge : (j <= gnss_i s')%nat).
        { destruct j as [| j']; [lia |].
          destruct (getitem_lt_Ok (t gnss) j') as [t' Hj'];
            [apply getitem_Ok_lt in Hj; lia |].
          destruct (Hpre j' t' ltac:(lia) Hj') as (k' & Hk1 & Hk').
          pose proof (Hinc j' (S j') t' t_j ltac:(lia) Hj' Hj) as Hlt'.
          pose proof (increasing_lt _ _ _ _ _ imu_increasing Hk' Hk Hlt').
          assert ((j' < gnss_i s')%nat); [| lia].
          apply (IHg Hinc j' t' k'); [| lia | exact Hj' | exact Hk' | lia].
          intros j0 t0 Hj0; apply Hpre; lia. }
        rewrite (step_gnss_cursor m s' s j t_j Hstep ltac:(lia) Hlt Hj Hk).
        lia.
      * assert ((j < gnss_i s')%nat); [| lia].
        apply (IHg Hinc j t_j k Hpre Hlt Hj Hk); lia.
    + intros Hinc j t_j i Hpre Hj Hi Him.
      destruct (Nat.eq_dec i m) as [-> | Hne].
      * assert (Hle : (lidar_i s' <= j)%nat).
        { apply (Bl j t_j Hj); intros k0 Hk0 E.
          pose proof (increasing_injective _ _ _ _ imu_increasing E Hi); lia. }
        assert (Hge : (j <= lidar_i s')%nat).
        { destruct j as [| j']; [lia |].
          destruct (getitem_lt_Ok (t lidar) j') as [t' Hj'];
            [apply getitem_Ok_lt in Hj; lia |].
          destruct (Hpre j' t' ltac:(lia) Hj') as (i' & Hi').
          pose proof (Hinc j' (S j') t' t_j ltac:(lia) Hj' Hj) as Hlt'.
          pose proof (increasing_lt _ _ _ _ _ imu_increasing Hi' Hi Hlt').
          assert ((j' < lidar_i s')%nat); [| lia].
          apply (IHl Hinc j' t' i'); [| exact Hj' | exact Hi' | lia].
          intros j0 t0 Hj0; apply Hpre; lia. }
        rewrite (step_lidar_cursor m s' s j t_j Hstep ltac:(lia) Hj Hi).
        lia.
      * assert ((j < lidar_i s')%nat); [| lia].
        apply (IHl Hinc j t_j i Hpre Hj Hi); lia.
Qed.

End Consumed.

Lemma singleton_increasing x : increasing [x].
Proof.
  intros i j t_i t_j Hij Hi Hj.
  apply getitem_Ok_lt in Hj; cbn [length] in Hj; lia.
Qed.

Lemma matched_loop :
  exists s,
    loop StdRotations.rotations Scenario.imu_f Scenario.imu_w
      Matched.gnss Matched.lidar (seq 1 1) Run.s_init = Ok s.
Proof.
  destruct matched_step as (s & Hstep & _).
  exists s; cbn [seq loop]; rewrite Hstep; reflexivity.
Qed.

Lemma matched_samples_consumed_witness :
  exists s,
    loop StdRotations.rotations Scenario.imu_f Scenario.imu_w
      Matched.gnss Matched.lidar (seq 1 1) Run.s_init = Ok s /\
    (0 < gnss_i s)%nat /\ (0 < lidar_i s)%nat.
Proof.
  destruct matched_loop as (s & Hrun).
  exists s; split; [exact Hrun |].
  destruct (matched_samples_consumed StdRotations.rotations
              Scenario.imu_f Scenario.imu_w Matched.gnss Matched.lidar
              Boundary.gt scenario_increasing Run.s_init 1 s run_init Hrun)
    as [Hg Hl].
  split.
  - apply (Hg (singleton_increasing 0.1) 0%nat 0.1 1%nat);
      [| cbn; lia | reflexivity | reflexivity | lia].
    intros j' t' Hj' Ht'; assert (j' = 0%nat) by lia; subst j'.
    exists 1%nat; split; [lia | exact Ht'].
  - apply (Hl (singleton_increasing 0) 0%nat 0 0%nat);
      [| reflexivity | reflexivity | lia].
    intros j' t' Hj' Ht'; assert (j' = 0%nat) by lia; subst j'.
    exists 0%nat; exact Ht'.
Defined.

(** ** The uncertainty bounds *)



(** ** The submission *)

Lemma getitem_Raise {A : Type} (a : list A) (i : nat) e :
  getitem a i = Raise e -> e = IndexError.
Proof.
  unfold getitem; destruct (nth_error a i); intros H;
    [discriminate H | injection H as <-; reflexivity].
Qed.

Lemma for_each_Raise {A : Type} (xs : list A) body s e :
  (forall x s' e', body x s' = Raise e' -> e' = IndexError) ->
  for_each xs body s = Raise e -> e = IndexError.
Proof.
  intros Hbody; revert s; induction xs as [| x xs IH]; intros s H;
    cbn [for_each] in H; [discriminate H |].
  destruct (body x s) as [s' | e'] eqn:E; cbn [bind] in H.
  - exact (IH s' H).
  - injection H as <-; exact (Hbody x s e' E).
Qed.

Lemma for_each_app {A : Type} (xs ys : list A) body s :
  for_each (xs ++ ys) body s =
  (s' <- for_each xs body s ;; for_each ys body s').
Proof.
  revert s; induction xs as [| x xs IH]; intros s; cbn [app for_each bind].
  - reflexivity.
  - destruct (body x s) as [s' | e]; cbn [bind]; [apply IH | reflexivity].
Qed.

Lemma for_each_Ok {A : Type} (xs : list A) body
    (step : A -> String.string -> String.string) s :
  (forall x s', In x xs -> body x s' = Ok (step x s')) ->
  for_each xs body s = Ok (fold_left (fun s' x => step x s') xs s).
Proof.
  revert s; induction xs as [| x xs IH]; intros s Hbody; cbn [for_each fold_left].
  - reflexivity.
  - rewrite (Hbody x s (or_introl eq_refl)); cbn [bind].
    apply IH; intros y s' Hy; apply Hbody; right; exact Hy.
Qed.

Lemma fold_left_flat_map {A B C : Type} (f : C -> B -> C) (h : A -> list B)
    (xs : list A) (c : C) :
  fold_left f (flat_map h xs) c =
  fold_left (fun c' x => fold_left f (h x) c') xs c.
Proof.
  revert c; induction xs as [| x xs IH]; intros c; cbn [flat_map fold_left].
  - reflexivity.
  - rewrite fold_left_app; apply IH.
Qed.

Section SubmissionFacts.

Variable fmt : R -> String.string.

(** The three coordinates of the estimate at [val], formatted after [s]. *)
Lemma coordinates_Ok p_est val s :
  (val < length p_est)%nat ->
  Forall (fun row => length row = 3%nat) p_est ->
  for_each [0; 1; 2]%nat
    (fun i s =>
       row <- getitem p_est val ;;
       x <- getitem row i ;;
       Ok (String.append s (fmt x))) s =
  Ok (fold_left (fun s x => String.append s (fmt x))
        (map (fun i => nth i (nth val p_est []) 0) [0; 1; 2]%nat) s).
Proof.
  intros Hval Hrows.
  destruct (getitem_lt_Ok p_est val Hval) as [row Hrow].
  assert (Hnth : nth val p_est [] = row).
  { unfold getitem in Hrow; destruct (nth_error p_est val) eqn:E;
      [| discriminate Hrow].
    injection Hrow as <-; apply nth_error_nth; exact E. }
  assert (Hlen : length row = 3%nat).
  { rewrite Forall_forall in Hrows; apply Hrows.
    rewrite <- Hnth; apply nth_In; exact Hval. }
  destruct row as [| a [| b [| c [| d row]]]]; try discriminate Hlen.
  rewrite Hnth; cbn [for_each]; rewrite Hrow; reflexivity.
Qed.

(** X19.  The submission needs more than 10000 estimates: on a run of
    10000 inertial samples or fewer, building the submission string raises
    [IndexError]. *)
Theorem short_run_fails_submission p_est :
  (length p_est <= 10000)%nat ->
  p3_str fmt p_est = Raise IndexError.
Proof.
  intros Hlen.
  destruct (p3_str fmt p_est) as [s | e] eqn:H.
  - exfalso; unfold p3_str in H.
    change p3_indices with ([6800; 7600; 8400; 9200] ++ [10000])%nat in H.
    rewrite for_each_app in H; inv_bind H.
    cbn [for_each] in H.
    repeat match goal with
           | H' : bind _ _ = Ok _ |- _ => inv_bind H'
           end.
    match goal with
    | E' : getitem p_est _ = Ok _ |- _ => apply getitem_Ok_lt in E'; lia
    end.
  - f_equal; unfold p3_str in H.
    apply for_each_Raise in H; [exact H |].
    intros val s' e' H'.
    apply for_each_Raise in H'; [exact H' |].
    intros i s'' e'' H''.
    destruct (getitem p_est val) as [row | e1] eqn:E1; cbn [bind] in H''.
    + destruct (getitem row i) as [x | e2] eqn:E2; cbn [bind] in H'';
        [discriminate H'' |].
      injection H'' as <-; exact (getitem_Raise _ _ _ E2).
    + injection H'' as <-; exact (getitem_Raise _ _ _ E1).
Qed.

(** X20.  With more than 10000 estimates of three coordinates each, the
    submission string is defined: the fifteen formatted coordinates of the
    estimates at 6800, 7600, 8400, 9200 and 10000, in this order. *)
Theorem submission_string p_est :
  (10000 < length p_est)%nat ->
  Forall (fun row => length row = 3%nat) p_est ->
  p3_str fmt p_est =
  Ok (fold_left (fun s x => String.append s (fmt x))
        (flat_map (fun val => map (fun i => nth i (nth val p_est []) 0)
                                [0; 1; 2]%nat) p3_indices)
        String.EmptyString).
Proof.
  intros Hlen Hrows.
  assert (H1 : (6800 <= 10000)%nat) by (apply Nat.leb_le; vm_compute; reflexivity).
  assert (H2 : (7600 <= 10000)%nat) by (apply Nat.leb_le; vm_compute; reflexivity).
  assert (H3 : (8400 <= 10000)%nat) by (apply Nat.leb_le; vm_compute; reflexivity).
  assert (H4 : (9200 <= 10000)%nat) by (apply Nat.leb_le; vm_compute; reflexivity).
  unfold p3_str.
  rewrite (for_each_Ok p3_indices _
             (fun val s =>
                fold_left (fun s x => String.append s (fmt x))
                  (map (fun i => nth i (nth val p_est []) 0) [0; 1; 2]%nat)
                  s)).
  - rewrite fold_left_flat_map; reflexivity.
  - intros val s Hin; apply coordinates_Ok; [| exact Hrows].
    unfold p3_indices in Hin; cbn [In] in Hin.
    destruct Hin as [<- | [<- | [<- | [<- | [<- | []]]]]]; lia.
Qed.

End SubmissionFacts.

Lemma short_run_fails_submission_witness :
  p3_str (fun _ => String.EmptyString) (p_est Run.s_final) = Raise IndexError.
Proof.
  apply short_run_fails_submission.
  apply Nat.leb_le; vm_compute; reflexivity.
Defined.

Lemma submission_string_witness :
  p3_str (fun _ => String.EmptyString) (repeat [1; 2; 3] 10001) =
  Ok (fold_left (fun s x => String.append s ((fun _ => String.EmptyString) x))
        (flat_map (fun val => map (fun i => nth i (nth val (repeat [1; 2; 3] 10001) []) 0)
                                [0; 1; 2]%nat) p3_indices)
        String.EmptyString).
Proof.
  apply submission_string.
  - rewrite repeat_length; apply Nat.ltb_lt; vm_compute; reflexivity.
  - apply Forall_forall; intros row Hin.
    apply repeat_spec in Hin; subst row; reflexivity.
Defined.
